(** * neobench: result aggregation and output rendering

    A shallow embedding of [pkg/neobench/output.go]: the [Result]
    accumulator with its [Add] merge, the [Output] interface with its four
    implementations ([InteractiveOutput], [CsvOutput], [PrometheusOutput],
    [CombinedOutput]) and the [InitOutput] factory.

    Conventions of the embedding.
    - [int64] values are integers of [Z]; every [+] of the source is followed
      by the two's-complement wrap-around ([wrap64]).
    - [float64] values are the kernel's binary64 floats ([PrimFloat]), whose
      operations round exactly as Go's do.
    - A [*hdrhistogram.Histogram] is a location of a heap of histograms; the
      library itself is an interface ([hdrhistogram.API]).
    - A [map[string]T] is a [gmap string T].  A [range] over a map visits its
      entries in an order Go leaves unspecified: a function that ranges takes
      the visiting order as an argument, constrained by [ranges].
    - Writers, the clock and the order of [range] belong to the environment
      ([Env]); code that writes or reads the clock runs in the monad [M]
      and may panic. *)

From Stdlib Require Import ZArith String Ascii Floats DecimalString.
From stdpp Require Import gmap strings list fin_maps sorting.

Set Warnings "-inexact-float,-register-all,-clear-no-such-hyp".
Open Scope Z_scope.

(** ** Machine integers and floats *)

(** Two's-complement reduction of an integer to the [int64] range. *)
Definition wrap64 (z : Z) : Z := (z + 2 ^ 63) mod 2 ^ 64 - 2 ^ 63.

(** [a + b] on [int64] operands. *)
Definition add64 (a b : Z) : Z := wrap64 (a + b).

(** The conversion [float64(v)] of an [int64]: the nearest binary64 value,
    ties to even. *)
Definition float64_of_int64 (z : Z) : float :=
  SF2Prim (binary_normalize prec emax z 0 false).

(** ** Strings *)

Definition nl : string := String "010"%char EmptyString.
Definition dquote : string := String "034"%char EmptyString.

(** [strings.Join(elems, sep)]. *)
Definition Join (elems : list string) (sep : string) : string :=
  String.concat sep elems.

(** The verb [%d] applied to an integer. *)
Definition Sprint_d (z : Z) : string := NilZero.string_of_int (Z.to_int z).

(** A value of the empty interface [interface{}], as far as this file
    passes such values around: the operands of [fmtFloat] and of [Errorf]. *)
Inductive any : Type :=
| Int64Val (z : Z)
| Float64Val (f : float)
| StringVal (s : string)
| SliceVal (elems : list any).

(** The part of Go's [fmt] package whose result is not a plain
    concatenation.  A call of [Sprintf] with a literal format made of text,
    [%s] on strings and [%d] is written out as a concatenation in the
    embedding; the fixed-precision float verb and the calls whose format or
    operands are only known at run time go through this interface. *)
Class GoFmt := {
  (** [%.<prec>f] applied to a [float64] *)
  FormatFloat : nat → float → string;
  (** [fmt.Sprintf(format, a...)] *)
  Sprintf : string → list any → string
}.

(** ** The histogram library

    [github.com/codahale/hdrhistogram] is used as a black box.  A method
    that mutates its receiver ([Merge]) is the function from the receiver's
    old content to its new content. *)
Module hdrhistogram.
Class API (Histogram Snapshot : Type) := {
  Import : Snapshot → Histogram;
  Export : Histogram → Snapshot;
  Merge : Histogram → Histogram → Histogram;
  TotalCount : Histogram → Z;
  Mean : Histogram → float;
  StdDev : Histogram → float;
  Min : Histogram → Z;
  Max : Histogram → Z;
  ValueAtQuantile : Histogram → float → Z
}.
End hdrhistogram.

(** ** Data model *)

(** A heap location holding a histogram; [None] is the nil pointer. *)
Definition loc := positive.

Record ProgressReport := {
  Section : string;
  Step : string;
  Completeness : float
}.

(** Modelled from the spec: [FailureGroup] is declared outside
    [output.go]; the file reads [Count] (added with [+], printed with [%d])
    and [FirstFailure] (copied, printed with [%s]).  [Count] is taken as an
    [int64] like the other counters, [FirstFailure] as the text [%s]
    prints. *)
Record FailureGroup := {
  Count : Z;
  FirstFailure : string
}.

Record ScriptResult := {
  ScriptName : string;
  Rate : float;
  Failed : Z;
  Succeeded : Z;
  Latencies : option loc
}.

(** In the source [Scripts] maps a name to a [*ScriptResult].  [Add]
    allocates one [ScriptResult] per key and nothing else stores into the
    map, so entries are never shared between keys and never nil: the map
    holds the records themselves, and an absent key stands for the nil that
    [r.Scripts[name]] yields. *)
Record Result := {
  DatabaseName : string;
  Scenario : string;
  FailedByErrorGroup : gmap string FailureGroup;
  Scripts : gmap string ScriptResult
}.

(** Modelled from the spec: [WorkerResult] is declared outside
    [output.go].  [Add] only ranges over its two collections, so each is
    the list of its entries in the order the [range] statement visits
    them. *)
Module WorkerResult.
Record t := {
  Scripts : list ScriptResult;
  FailedByErrorGroup : list (string * FailureGroup)
}.
End WorkerResult.

Definition NewResult (databaseName scenario : string) : Result :=
  {| DatabaseName := databaseName;
     Scenario := scenario;
     FailedByErrorGroup := ∅;
     Scripts := ∅ |}.

(** [visit] is an order in which a [range] over [m] may visit its
    entries. *)
Definition ranges {A} (m : gmap string A) (visit : list (string * A)) : Prop :=
  visit ≡ₚ map_to_list m.

(** *** Derived reads *)

Definition TotalSucceeded_visit (visit : list (string * ScriptResult)) : Z :=
  fold_left (λ n s, add64 n (Succeeded s.2)) visit 0.

Definition TotalFailed_visit (visit : list (string * ScriptResult)) : Z :=
  fold_left (λ n s, add64 n (Failed s.2)) visit 0.

Definition TotalRate_visit (visit : list (string * ScriptResult)) : float :=
  fold_left (λ n s, (n + Rate s.2)%float) visit 0%float.

(** The two integer totals do not depend on the visiting order
    ([TotalSucceeded_visit_ranges], [TotalFailed_visit_ranges]); they are
    taken on [map_to_list]. *)
Definition TotalSucceeded (r : Result) : Z :=
  TotalSucceeded_visit (map_to_list (Scripts r)).

Definition TotalFailed (r : Result) : Z :=
  TotalFailed_visit (map_to_list (Scripts r)).

(** ** [Result.Add] *)

Section Aggregation.
Context {Histogram Snapshot : Type} `{!hdrhistogram.API Histogram Snapshot}.

(** The content a histogram pointer refers to; [None] when dereferencing
    panics (nil pointer). *)
Definition deref (h : gmap loc Histogram) (p : option loc) : option Histogram :=
  l ← p; h !! l.

(** The body of the first loop of [Add] (lines 66-80), for one entry [w] of
    the contribution.  [None] is a panic. *)
Definition addScript (w : ScriptResult) (st : gmap loc Histogram * Result)
  : option (gmap loc Histogram * Result) :=
  let '(h, r) := st in
  match Scripts r !! ScriptName w with
  | None =>
      hw ← deref h (Latencies w);
      let l := fresh (dom h) in
      Some (<[l := hdrhistogram.Import (hdrhistogram.Export hw)]> h,
            {| DatabaseName := DatabaseName r;
               Scenario := Scenario r;
               FailedByErrorGroup := FailedByErrorGroup r;
               Scripts :=
                 <[ScriptName w :=
                     {| ScriptName := ScriptName w;
                        Latencies := Some l;
                        Rate := Rate w;
                        Succeeded := Succeeded w;
                        Failed := Failed w |}]> (Scripts r) |})
  | Some c =>
      lc ← Latencies c;
      hc ← h !! lc;
      hw ← deref h (Latencies w);
      Some (<[lc := hdrhistogram.Merge hc hw]> h,
            {| DatabaseName := DatabaseName r;
               Scenario := Scenario r;
               FailedByErrorGroup := FailedByErrorGroup r;
               Scripts :=
                 <[ScriptName w :=
                     {| ScriptName := ScriptName c;
                        Latencies := Latencies c;
                        Rate := (Rate c + Rate w)%float;
                        Succeeded := add64 (Succeeded c) (Succeeded w);
                        Failed := add64 (Failed c) (Failed w) |}]> (Scripts r) |})
  end.

(** The body of the second loop of [Add] (lines 83-91). *)
Definition addGroup (groups : gmap string FailureGroup)
    (entry : string * FailureGroup) : gmap string FailureGroup :=
  let '(name, group) := entry in
  match groups !! name with
  | Some existing =>
      <[name := {| Count := add64 (Count existing) (Count group);
                   FirstFailure := FirstFailure existing |}]> groups
  | None => <[name := group]> groups
  end.

Fixpoint addScripts (ws : list ScriptResult) (st : gmap loc Histogram * Result)
  : option (gmap loc Histogram * Result) :=
  match ws with
  | [] => Some st
  | w :: ws' => st' ← addScript w st; addScripts ws' st'
  end.

Definition Add (res : WorkerResult.t) (st : gmap loc Histogram * Result)
  : option (gmap loc Histogram * Result) :=
  st' ← addScripts (WorkerResult.Scripts res) st;
  let '(h, r) := st' in
  Some (h, {| DatabaseName := DatabaseName r;
              Scenario := Scenario r;
              FailedByErrorGroup :=
                fold_left addGroup (WorkerResult.FailedByErrorGroup res)
                          (FailedByErrorGroup r);
              Scripts := Scripts r |}).

(** A sequence of [Add] calls, in call order. *)
Fixpoint AddAll (contributions : list WorkerResult.t)
    (st : gmap loc Histogram * Result) : option (gmap loc Histogram * Result) :=
  match contributions with
  | [] => Some st
  | res :: rest => st' ← Add res st; AddAll rest st'
  end.

End Aggregation.

(** ** The environment of the renderers

    Time, writers and the order of [range] are outside the program.  Each
    effect of a run takes the next number ([steps]); the environment says
    what that effect observes. *)

(** An [io.Writer]: the two standard streams, or any other writer. *)
Inductive Writer : Type :=
| Stderr
| Stdout
| OtherWriter (id : nat).

(** The part of Go's [time] package the file uses.  A [Time] is an instant
    in nanoseconds after the zero [Time]; a [Duration] is an [int64] of
    nanoseconds. *)
Module time.

Definition minDuration : Z := - 2 ^ 63.
Definition maxDuration : Z := 2 ^ 63 - 1.
Definition Second : Z := 1000000000.

(** [t.Sub(u)]: the difference, saturated to the range of [Duration]. *)
Definition Sub (t u : Z) : Z := Z.max minDuration (Z.min maxDuration (t - u)).

(** [d.Seconds()]: [float64(d / Second) + float64(d % Second) / 1e9], with
    Go's truncated division. *)
Definition Seconds (d : Z) : float :=
  (float64_of_int64 (d ÷ Second) + float64_of_int64 (Z.rem d Second) / 1e9)%float.

End time.

Record Env := {
  (** the reading [time.Now()] returns when it is effect number [n] *)
  clock : nat → Z;
  (** whether the write that is effect number [n] fails *)
  write_fails : nat → bool;
  (** the visiting order of a [range] over a map that is effect number [n] *)
  range_scripts : nat → gmap string ScriptResult → list (string * ScriptResult);
  range_groups : nat → gmap string FailureGroup → list (string * FailureGroup);
  (** [os.Stdout.Stat()]: whether the mode has [os.ModeCharDevice], or
      [None] when [Stat] fails and returns no [FileInfo] *)
  stdout_char_device : option bool
}.

(** Every [range] of the environment visits each entry of the map once. *)
Definition env_ranges (env : Env) : Prop :=
  ∀ n, (∀ m, ranges m (range_scripts env n m)) ∧
       (∀ m, ranges m (range_groups env n m)).

Section Rendering.
Context {Histogram Snapshot : Type} `{!hdrhistogram.API Histogram Snapshot}.
Context `{!GoFmt}.

Record World := {
  heap : gmap loc Histogram;
  (** the number of effects so far *)
  steps : nat;
  (** what has been written, oldest first *)
  written : list (Writer * string);
  (** the addresses [InitPrometheus] was called with *)
  metrics_served : list string
}.

Inductive Outcome (A : Type) : Type :=
| Done (a : A) (w : World)
| Panic (w : World).
#[global] Arguments Done {A} a w.
#[global] Arguments Panic {A} w.

(** Code with effects: a function of the environment and the world that
    returns or panics. *)
Definition M (A : Type) : Type := Env → World → Outcome A.

#[global] Instance M_ret : MRet M := λ A a env w, Done a w.

#[global] Instance M_bind : MBind M := λ A B f m env w,
  match m env w with
  | Done a w' => f a env w'
  | Panic w' => Panic w'
  end.

#[global] Instance M_fmap : FMap M := λ A B f m env w,
  match m env w with
  | Done a w' => Done (f a) w'
  | Panic w' => Panic w'
  end.

Definition tick (w : World) : World :=
  {| heap := heap w; steps := S (steps w); written := written w;
     metrics_served := metrics_served w |}.

Definition panic {A} : M A := λ env w, Panic w.

(** [time.Now()]. *)
Definition Now : M Z := λ env w, Done (clock env (steps w)) (tick w).

(** [fmt.Fprint(wr, s)] followed by a panic when the write fails.  A failed
    write leaves nothing in the stream. *)
Definition Fprint (wr : Writer) (s : string) : M () := λ env w,
  if write_fails env (steps w) then Panic (tick w)
  else Done () {| heap := heap w; steps := S (steps w);
                  written := written w ++ [(wr, s)];
                  metrics_served := metrics_served w |}.

(** [for _, s := range m] over the scripts of a result. *)
Definition rangeScripts (m : gmap string ScriptResult)
  : M (list (string * ScriptResult)) :=
  λ env w, Done (range_scripts env (steps w) m) (tick w).

(** [for name, g := range m] over the failure groups of a result. *)
Definition rangeGroups (m : gmap string FailureGroup)
  : M (list (string * FailureGroup)) :=
  λ env w, Done (range_groups env (steps w) m) (tick w).

(** A pure step that panics on [None]. *)
Definition orPanic {A} (x : option A) : M A := λ env w,
  match x with
  | Some a => Done a w
  | None => Panic w
  end.

(** The histogram a pointer refers to. *)
Definition load (p : option loc) : M Histogram := λ env w,
  match deref (heap w) p with
  | Some x => Done x w
  | None => Panic w
  end.

(** The world a computation ends in, returning or panicking. *)
Definition world_of {A} (x : Outcome A) : World :=
  match x with
  | Done _ w => w
  | Panic w => w
  end.

(** A computation that only appends to what has been written. *)
Definition appends {A} (m : M A) : Prop :=
  ∀ env w, ∃ more, written (world_of (m env w)) = written w ++ more.

(** [r.TotalRate()]. *)
Definition TotalRate (r : Result) : M float :=
  visit ← rangeScripts (Scripts r); mret (TotalRate_visit visit).

(** An effectful loop over a list, in order. *)
Fixpoint forM {A B} (f : A → M B) (l : list A) : M (list B) :=
  match l with
  | [] => mret []
  | x :: l' => y ← f x; ys ← forM f l'; mret (y :: ys)
  end.

End Rendering.

(** ** Text the renderers share *)

Section Text.
Context {Histogram Snapshot : Type} `{!hdrhistogram.API Histogram Snapshot}.
Context `{!GoFmt}.

(** The percentage of failed transactions:
    [100*float64(failed)/float64(failed+succeeded)]. *)
Definition failedPercentage (failed succeeded : Z) : float :=
  (100 * float64_of_int64 failed / float64_of_int64 (add64 failed succeeded))%float.

(** The two lines a failure group contributes to the error report. *)
Definition causeLines (cause : string * FailureGroup) : string :=
  "    " +:+ cause.1 +:+ ": " +:+ Sprint_d (Count cause.2) +:+ " failures" +:+ nl +:+
  "      (ex: " +:+ FirstFailure cause.2 +:+ ")" +:+ nl.

(** [writeErrorReport(result, s)]: the text appended to the builder [s].
    [groups] is the order in which the [range] of line 273 visits
    [result.FailedByErrorGroup]; it is not used when nothing failed. *)
Definition writeErrorReport (result : Result)
    (groups : list (string * FailureGroup)) : string :=
  "Error stats:" +:+ nl +:+
  (if TotalFailed result =? 0 then
     "  No errors!" +:+ nl
   else
     "  Failed transactions: " +:+ Sprint_d (TotalFailed result) +:+ " (" +:+
       FormatFloat 3 (failedPercentage (TotalFailed result) (TotalSucceeded result))
       +:+ " %)" +:+ nl +:+
     nl +:+
     "  Causes:" +:+ nl +:+
     String.concat "" (causeLines <$> groups)).

(** [writeErrorReport] with its [range], which is only reached when
    something failed. *)
Definition writeErrorReportM (result : Result) : M (Histogram := Histogram) string :=
  if TotalFailed result =? 0 then mret (writeErrorReport result [])
  else groups ← rangeGroups (FailedByErrorGroup result);
       mret (writeErrorReport result groups).

(** The line that opens the two final reports of [InteractiveOutput] and
    the per-script summary. *)
Definition totalsLine (succeeded failed : Z) (rate : float) : string :=
  Sprint_d succeeded +:+ " successful transactions, " +:+ Sprint_d failed +:+
  " failed. (Total of " +:+ FormatFloat 3 rate +:+ " per second)" +:+ nl.

(** The lines of [summarizeLatency] (lines 246-258), for the histogram
    [histo] that [script.Latencies] points to. *)
Definition latencyLines (histo : Histogram) (script : ScriptResult) : list string :=
  let ms (v : Z) : float := (float64_of_int64 v / 1000)%float in
  [ totalsLine (Succeeded script) (Failed script) (Rate script);
    "Max: " +:+ FormatFloat 3 (ms (hdrhistogram.Max histo)) +:+
      "ms, Min: " +:+ FormatFloat 3 (ms (hdrhistogram.Min histo)) +:+
      "ms, Mean: " +:+ FormatFloat 3 (hdrhistogram.Mean histo / 1000)%float +:+
      "ms, Stddev: " +:+ FormatFloat 3 (hdrhistogram.StdDev histo / 1000)%float +:+
      nl +:+ nl;
    "Latency distribution:" +:+ nl;
    "  P00.000: " +:+ FormatFloat 3 (ms (hdrhistogram.Min histo)) +:+ "ms" +:+ nl;
    "  P25.000: " +:+ FormatFloat 3 (ms (hdrhistogram.ValueAtQuantile histo 25)) +:+ "ms" +:+ nl;
    "  P50.000: " +:+ FormatFloat 3 (ms (hdrhistogram.ValueAtQuantile histo 50)) +:+ "ms" +:+ nl;
    "  P75.000: " +:+ FormatFloat 3 (ms (hdrhistogram.ValueAtQuantile histo 75)) +:+ "ms" +:+ nl;
    "  P95.000: " +:+ FormatFloat 3 (ms (hdrhistogram.ValueAtQuantile histo 95)) +:+ "ms" +:+ nl;
    "  P99.000: " +:+ FormatFloat 3 (ms (hdrhistogram.ValueAtQuantile histo 99)) +:+ "ms" +:+ nl;
    "  P99.999: " +:+ FormatFloat 3 (ms (hdrhistogram.ValueAtQuantile histo 99.999)) +:+ "ms" +:+ nl ].

(** [summarizeLatency(script, s, indent)]: the text appended to [s]. *)
Definition summarizeLatency (histo : Histogram) (script : ScriptResult)
    (indent : string) : string :=
  String.concat "" ((λ line, indent +:+ line) <$> latencyLines histo script).

(** [fmtFloat(v)], a type switch on [v]. *)
Definition fmtFloat (v : any) : string :=
  match v with
  | Int64Val z => FormatFloat 3 (float64_of_int64 z)
  | Float64Val f => FormatFloat 3 f
  | _ => Sprintf "%v?" [v]
  end.

(** [csvColumns]: the name of each column and its cell for a script of a
    result.  A cell that reads the histogram is [None] when
    [s.Latencies] is nil (a panic). *)
Definition csvColumns
  : list (string * (gmap loc Histogram → Result → ScriptResult → option string)) :=
  let ms (v : Z) : float := (float64_of_int64 v / 1000)%float in
  let histo h (s : ScriptResult) (cell : Histogram → any) : option string :=
    x ← deref h (Latencies s); Some (fmtFloat (cell x)) in
  [ ("db", λ h r s, Some (dquote +:+ DatabaseName r +:+ dquote));
    ("script", λ h r s, Some (dquote +:+ ScriptName s +:+ dquote));
    ("rate", λ h r s, Some (fmtFloat (Float64Val (Rate s))));
    ("succeeded", λ h r s, histo h s (λ x, Int64Val (hdrhistogram.TotalCount x)));
    ("failed", λ h r s, Some (fmtFloat (Int64Val (Failed s))));
    ("mean", λ h r s, histo h s (λ x, Float64Val (hdrhistogram.Mean x / 1000)%float));
    ("stdev", λ h r s, histo h s (λ x, Float64Val (hdrhistogram.StdDev x)));
    ("p0", λ h r s, histo h s (λ x, Float64Val (ms (hdrhistogram.Min x))));
    ("p25", λ h r s, histo h s (λ x, Float64Val (ms (hdrhistogram.ValueAtQuantile x 25))));
    ("p50", λ h r s, histo h s (λ x, Float64Val (ms (hdrhistogram.ValueAtQuantile x 50))));
    ("p75", λ h r s, histo h s (λ x, Float64Val (ms (hdrhistogram.ValueAtQuantile x 75))));
    ("p99", λ h r s, histo h s (λ x, Float64Val (ms (hdrhistogram.ValueAtQuantile x 99))));
    ("p99999", λ h r s, histo h s (λ x, Float64Val (ms (hdrhistogram.ValueAtQuantile x 99.999))));
    ("p100", λ h r s, histo h s (λ x, Float64Val (ms (hdrhistogram.Max x)))) ].

(** The inner loop of [writeLatencyRow] (lines 384-389) from column number
    [i] on: a comma before every column but the first. *)
Fixpoint writeCells (i : nat)
    (columns : list (string * (gmap loc Histogram → Result → ScriptResult → option string)))
    (h : gmap loc Histogram) (result : Result) (script : ScriptResult)
  : option string :=
  match columns with
  | [] => Some ""
  | col :: rest =>
      cell ← col.2 h result script;
      cells ← writeCells (S i) rest h result script;
      Some ((if i is O then "" else ",") +:+ cell +:+ cells)
  end.

(** One pass of the outer loop of [writeLatencyRow]: the row of a script. *)
Definition latencyRow (h : gmap loc Histogram) (result : Result)
    (script : ScriptResult) : option string :=
  cells ← writeCells 0 csvColumns h result script; Some (cells +:+ nl).

(** The fourteen cells of a latency row, for the histogram [histo] the
    script points to ([latencyRow_cells]). *)
Definition latencyCells (r : Result) (s : ScriptResult) (histo : Histogram)
  : list string :=
  let ms (v : Z) : float := (float64_of_int64 v / 1000)%float in
  [ dquote +:+ DatabaseName r +:+ dquote;
    dquote +:+ ScriptName s +:+ dquote;
    FormatFloat 3 (Rate s);
    FormatFloat 3 (float64_of_int64 (hdrhistogram.TotalCount histo));
    FormatFloat 3 (float64_of_int64 (Failed s));
    FormatFloat 3 (hdrhistogram.Mean histo / 1000)%float;
    FormatFloat 3 (hdrhistogram.StdDev histo);
    FormatFloat 3 (ms (hdrhistogram.Min histo));
    FormatFloat 3 (ms (hdrhistogram.ValueAtQuantile histo 25));
    FormatFloat 3 (ms (hdrhistogram.ValueAtQuantile histo 50));
    FormatFloat 3 (ms (hdrhistogram.ValueAtQuantile histo 75));
    FormatFloat 3 (ms (hdrhistogram.ValueAtQuantile histo 99));
    FormatFloat 3 (ms (hdrhistogram.ValueAtQuantile histo 99.999));
    FormatFloat 3 (ms (hdrhistogram.Max histo)) ].

(** The row [CsvOutput.ReportThroughput] writes for a script (lines
    348-360). *)
Definition throughputRow (script : ScriptResult) : string :=
  dquote +:+ ScriptName script +:+ dquote +:+ "," +:+
  FormatFloat 3 (float64_of_int64 (Succeeded script)) +:+ "," +:+
  FormatFloat 3 (float64_of_int64 (Failed script)) +:+ "," +:+
  FormatFloat 3 (Rate script) +:+ nl.

(** The line both [BenchmarkStart] methods write to the error stream. *)
Definition startLines (databaseName url scenario : string) : string :=
  "Starting workload on database " +:+
  (if String.eqb databaseName "" then "<default>" else databaseName) +:+
  " against " +:+ url +:+ nl +:+ "Scenario: " +:+ scenario +:+ nl.

(** The line both [ReportInitProgress] methods write. *)
Definition initProgressLine (report : ProgressReport) : string :=
  "[" +:+ Section report +:+ "][" +:+ Step report +:+ "] " +:+
  FormatFloat 2 (Completeness report * 100)%float +:+ "%" +:+ nl.

(** The test that rate-limits [ReportInitProgress] (lines 190 and 320). *)
Definition suppressed (report last : ProgressReport) (now lastTime : Z) : bool :=
  String.eqb (Section report) (Section last) &&
  String.eqb (Step report) (Step last) &&
  (time.Seconds (time.Sub now lastTime) <? 10)%float.

End Text.

(** ** [InteractiveOutput] *)

Module InteractiveOutput.

Record t := {
  ErrStream : Writer;
  OutStream : Writer;
  LastProgressReport : ProgressReport;
  LastProgressTime : Z
}.

Section Methods.
Context {Histogram Snapshot : Type} `{!hdrhistogram.API Histogram Snapshot}.
Context `{!GoFmt}.
#[local] Abbreviation M := (M (Histogram := Histogram)).

Definition BenchmarkStart (o : t) (databaseName url scenario : string) : M t :=
  Fprint (ErrStream o) (startLines databaseName url scenario);;
  mret o.

Definition ReportWorkloadProgress (o : t) (completeness : float)
    (checkpoint : Result) : M t :=
  rate ← TotalRate checkpoint;
  Fprint (ErrStream o)
    ("[" +:+ FormatFloat 2 (completeness * 100)%float +:+ "%] " +:+
     FormatFloat 2 rate +:+ " tps / " +:+
     Sprint_d (TotalFailed checkpoint) +:+ " failures" +:+ nl);;
  mret o.

Definition ReportInitProgress (o : t) (report : ProgressReport) : M t :=
  now ← Now;
  if suppressed report (LastProgressReport o) now (LastProgressTime o) then
    mret o
  else
    let o' := {| ErrStream := ErrStream o; OutStream := OutStream o;
                 LastProgressReport := report; LastProgressTime := now |} in
    Fprint (ErrStream o) (initProgressLine report);;
    mret o'.

(** The built string is passed to [Fprintf] as the format (line 214). *)
Definition ReportThroughput (o : t) (result : Result) : M t :=
  rate ← TotalRate result;
  scripts ← rangeScripts (Scripts result);
  errors ← writeErrorReportM result;
  let s :=
    "== Results ==" +:+ nl +:+
    "Scenario: " +:+ Scenario result +:+ nl +:+
    totalsLine (TotalSucceeded result) (TotalFailed result) rate +:+
    nl +:+
    String.concat ""
      ((λ script, "  [" +:+ ScriptName script.2 +:+ "]: " +:+
                  FormatFloat 3 (Rate script.2) +:+
                  " total transactions per second" +:+ nl) <$> scripts) +:+
    nl +:+
    errors in
  Fprint (OutStream o) (Sprintf s []);;
  mret o.

Definition ReportLatency (o : t) (result : Result) : M t :=
  rate ← TotalRate result;
  summaries ←
    (if 0 <? TotalSucceeded result then
       scripts ← rangeScripts (Scripts result);
       forM (λ workload : string * ScriptResult,
               histo ← load (Latencies workload.2);
               mret (nl +:+
                     "-- Script: " +:+ ScriptName workload.2 +:+ " --" +:+ nl +:+ nl +:+
                     summarizeLatency histo workload.2 "  "))
            scripts
     else mret []);
  errors ← writeErrorReportM result;
  let s :=
    "== Results ==" +:+ nl +:+
    "Scenario: " +:+ Scenario result +:+ nl +:+
    totalsLine (TotalSucceeded result) (TotalFailed result) rate +:+
    String.concat "" summaries +:+
    nl +:+
    errors in
  Fprint (OutStream o) s;;
  mret o.

Definition Errorf (o : t) (format : string) (a : list any) : M t :=
  Fprint (ErrStream o) ("ERROR: " +:+ Sprintf format a +:+ nl);;
  mret o.

End Methods.
End InteractiveOutput.

(** ** [CsvOutput] *)

Module CsvOutput.

Record t := {
  ErrStream : Writer;
  OutStream : Writer;
  LastProgressReport : ProgressReport;
  LastProgressTime : Z
}.

Section Methods.
Context {Histogram Snapshot : Type} `{!hdrhistogram.API Histogram Snapshot}.
Context `{!GoFmt}.
#[local] Abbreviation M := (M (Histogram := Histogram)).

Definition BenchmarkStart (o : t) (databaseName url scenario : string) : M t :=
  Fprint (ErrStream o) (startLines databaseName url scenario);;
  let columnNames := fst <$> csvColumns in
  Fprint (OutStream o) (Join columnNames "," +:+ nl);;
  mret o.

Definition ReportInitProgress (o : t) (report : ProgressReport) : M t :=
  now ← Now;
  if suppressed report (LastProgressReport o) now (LastProgressTime o) then
    mret o
  else
    let o' := {| ErrStream := ErrStream o; OutStream := OutStream o;
                 LastProgressReport := report; LastProgressTime := now |} in
    Fprint (ErrStream o) (initProgressLine report);;
    mret o'.

(** The failure summary that follows the rows, on the error stream, when
    something failed (lines 367-373 and 398-404). *)
Definition reportFailures (o : t) (result : Result) : M () :=
  if 0 <? TotalFailed result then
    errors ← writeErrorReportM result;
    Fprint (ErrStream o) errors
  else mret ().

Definition writeLatencyRow (o : t) (result : Result) : M () :=
  scripts ← rangeScripts (Scripts result);
  rows ← forM (λ script : string * ScriptResult, λ env w,
                 orPanic (latencyRow (heap w) result script.2) env w)
              scripts;
  Fprint (OutStream o) (String.concat "" rows);;
  reportFailures o result.

Definition ReportLatency (o : t) (result : Result) : M t :=
  writeLatencyRow o result;; mret o.

Definition ReportWorkloadProgress (o : t) (completeness : float)
    (checkpoint : Result) : M t :=
  Fprint (ErrStream o)
    ("[workload] " +:+ FormatFloat 2 (completeness * 100)%float +:+ "% done" +:+ nl);;
  ReportLatency o checkpoint.

Definition ReportThroughput (o : t) (result : Result) : M t :=
  let columns := ["script"; "succeeded"; "failed"; "transactions_per_second"] in
  scripts ← rangeScripts (Scripts result);
  Fprint (OutStream o)
    (Join columns "," +:+ nl +:+
     String.concat "" ((λ script, throughputRow script.2) <$> scripts));;
  reportFailures o result;;
  mret o.

Definition Errorf (o : t) (format : string) (a : list any) : M t :=
  Fprint (ErrStream o) ("ERROR: " +:+ Sprintf format a +:+ nl);;
  mret o.

End Methods.
End CsvOutput.

(** ** [PrometheusOutput] *)

Module PrometheusOutput.

(** The two counters, by their current value. *)
Record t := {
  totalSucceededCounter : float;
  totalFailedCounter : float
}.

Section Methods.
Context {Histogram : Type}.
#[local] Abbreviation M := (M (Histogram := Histogram)).

(** [Counter.Add(v)] of the Prometheus client: it panics on a negative
    [v]. *)
Definition Counter_Add (counter v : float) : M float :=
  if (v <? 0)%float then panic else mret (counter + v)%float.

Definition BenchmarkStart (p : t) (databaseName url scenario : string) : M t :=
  mret p.

Definition ReportInitProgress (p : t) (report : ProgressReport) : M t :=
  mret p.

Definition ReportWorkloadProgress (p : t) (completeness : float)
    (checkpoint : Result) : M t :=
  succeeded ← Counter_Add (totalSucceededCounter p)
                 (float64_of_int64 (TotalSucceeded checkpoint));
  failed ← Counter_Add (totalFailedCounter p)
              (float64_of_int64 (TotalFailed checkpoint));
  mret {| totalSucceededCounter := succeeded; totalFailedCounter := failed |}.

Definition ReportThroughput (p : t) (result : Result) : M t := mret p.

Definition ReportLatency (p : t) (result : Result) : M t := mret p.

Definition Errorf (p : t) (format : string) (a : list any) : M t := mret p.

End Methods.
End PrometheusOutput.

(** ** The [Output] interface and [CombinedOutput] *)

(** A value of the interface [Output]: one of its four implementations.
    [CombinedOutput] holds its delegates; each delegate is owned by the
    one [CombinedOutput] that lists it, as [InitOutput] builds them. *)
Inductive Output : Type :=
| Interactive (o : InteractiveOutput.t)
| Csv (o : CsvOutput.t)
| Prometheus (p : PrometheusOutput.t)
| Combined (delegates : list Output).

(** A call of one of the six methods of the interface, with its
    arguments. *)
Inductive Call : Type :=
| BenchmarkStart (databaseName url scenario : string)
| ReportInitProgress (report : ProgressReport)
| ReportWorkloadProgress (completeness : float) (checkpoint : Result)
| ReportThroughput (result : Result)
| ReportLatency (result : Result)
| Errorf (format : string) (a : list any).

Module CombinedOutput.
Section Methods.
Context {Histogram : Type}.
#[local] Abbreviation M := (M (Histogram := Histogram)).

(** The method call [d.m(args)] on a delegate: dynamic dispatch. *)
Variable call : Output → Call → M Output.

(** [for _, d := range c.delegates { ... }]: a slice is visited in index
    order; a panic in one delegate ends the loop. *)
Definition forEach (body : Output → M Output) : list Output → M (list Output) :=
  fix loop delegates :=
    match delegates with
    | [] => mret []
    | d :: rest => d' ← body d; rest' ← loop rest; mret (d' :: rest')
    end.

Definition BenchmarkStart (delegates : list Output)
    (databaseName url scenario : string) : M (list Output) :=
  forEach (λ d, call d (BenchmarkStart databaseName url scenario)) delegates.

Definition ReportInitProgress (delegates : list Output)
    (report : ProgressReport) : M (list Output) :=
  forEach (λ d, call d (ReportInitProgress report)) delegates.

Definition ReportWorkloadProgress (delegates : list Output)
    (completeness : float) (checkpoint : Result) : M (list Output) :=
  forEach (λ d, call d (ReportWorkloadProgress completeness checkpoint)) delegates.

Definition ReportThroughput (delegates : list Output) (result : Result)
  : M (list Output) :=
  forEach (λ d, call d (ReportThroughput result)) delegates.

Definition ReportLatency (delegates : list Output) (result : Result)
  : M (list Output) :=
  forEach (λ d, call d (ReportLatency result)) delegates.

(** Line 542 passes the slice [a] itself, not [a...]: the delegate's
    variadic parameter is a slice of one element, which is [a]. *)
Definition Errorf (delegates : list Output) (format : string) (a : list any)
  : M (list Output) :=
  forEach (λ d, call d (Errorf format [SliceVal a])) delegates.

End Methods.
End CombinedOutput.

Section Dispatch.
Context {Histogram Snapshot : Type} `{!hdrhistogram.API Histogram Snapshot}.
Context `{!GoFmt}.
#[local] Abbreviation M := (M (Histogram := Histogram)).

(** A method call on a value of the interface. *)
Fixpoint invoke (o : Output) (c : Call) {struct o} : M Output :=
  match o with
  | Interactive i =>
      Interactive <$>
        match c with
        | BenchmarkStart db url sc => InteractiveOutput.BenchmarkStart i db url sc
        | ReportInitProgress report => InteractiveOutput.ReportInitProgress i report
        | ReportWorkloadProgress completeness checkpoint =>
            InteractiveOutput.ReportWorkloadProgress i completeness checkpoint
        | ReportThroughput result => InteractiveOutput.ReportThroughput i result
        | ReportLatency result => InteractiveOutput.ReportLatency i result
        | Errorf format a => InteractiveOutput.Errorf i format a
        end
  | Csv o =>
      Csv <$>
        match c with
        | BenchmarkStart db url sc => CsvOutput.BenchmarkStart o db url sc
        | ReportInitProgress report => CsvOutput.ReportInitProgress o report
        | ReportWorkloadProgress completeness checkpoint =>
            CsvOutput.ReportWorkloadProgress o completeness checkpoint
        | ReportThroughput result => CsvOutput.ReportThroughput o result
        | ReportLatency result => CsvOutput.ReportLatency o result
        | Errorf format a => CsvOutput.Errorf o format a
        end
  | Prometheus p =>
      Prometheus <$>
        match c with
        | BenchmarkStart db url sc => PrometheusOutput.BenchmarkStart p db url sc
        | ReportInitProgress report => PrometheusOutput.ReportInitProgress p report
        | ReportWorkloadProgress completeness checkpoint =>
            PrometheusOutput.ReportWorkloadProgress p completeness checkpoint
        | ReportThroughput result => PrometheusOutput.ReportThroughput p result
        | ReportLatency result => PrometheusOutput.ReportLatency p result
        | Errorf format a => PrometheusOutput.Errorf p format a
        end
  | Combined delegates =>
      Combined <$>
        match c with
        | BenchmarkStart db url sc =>
            CombinedOutput.BenchmarkStart invoke delegates db url sc
        | ReportInitProgress report =>
            CombinedOutput.ReportInitProgress invoke delegates report
        | ReportWorkloadProgress completeness checkpoint =>
            CombinedOutput.ReportWorkloadProgress invoke delegates completeness checkpoint
        | ReportThroughput result =>
            CombinedOutput.ReportThroughput invoke delegates result
        | ReportLatency result =>
            CombinedOutput.ReportLatency invoke delegates result
        | Errorf format a => CombinedOutput.Errorf invoke delegates format a
        end
  end.

(** A sequence of method calls on one output, in order. *)
Fixpoint session (o : Output) (calls : list Call) : M Output :=
  match calls with
  | [] => mret o
  | c :: rest => o' ← invoke o c; session o' rest
  end.

(** ** [InitOutput] *)

(** [InitPrometheus(addr)]: registers the handler of [/metrics] and starts
    the listener.  [http.Handle] panics when the pattern is registered
    already; the listener itself runs on its own goroutine and is not
    modelled. *)
Definition InitPrometheus (addr : string) : M () := λ env w,
  match metrics_served w with
  | [] => Done () {| heap := heap w; steps := steps w; written := written w;
                     metrics_served := [addr] |}
  | _ => Panic w
  end.

Definition NewPrometheusOutput : PrometheusOutput.t :=
  {| PrometheusOutput.totalSucceededCounter := 0%float;
     PrometheusOutput.totalFailedCounter := 0%float |}.

(** The zero value of [ProgressReport]. *)
Definition zeroProgressReport : ProgressReport :=
  {| Section := ""; Step := ""; Completeness := 0%float |}.

(** Lines 127-134: [auto] stands for [csv] or [interactive], by the mode
    of the standard output.  [Stat]'s error is dropped, so a failed [Stat]
    ends in a nil dereference. *)
Definition resolveAuto (name : string) : M string :=
  if String.eqb name "auto" then
    λ env w,
      match stdout_char_device env with
      | None => Panic w
      | Some false => Done "csv" w
      | Some true => Done "interactive" w
      end
  else mret name.

(** Lines 151-158: the output, combined with a new [PrometheusOutput] when
    an address is given. *)
Definition withPrometheus (output : Output) (prometheusAddress : string)
  : M (option Output * option string) :=
  if negb (String.eqb prometheusAddress "") then
    InitPrometheus prometheusAddress;;
    mret (Some (Combined [output; Prometheus NewPrometheusOutput]), None)
  else mret (Some output, None).

(** [InitOutput(name, prometheusAddress)]: the pair it returns, the
    [Output] ([None] is nil) and the error ([None] is nil, [Some msg] an
    error with that message). *)
Definition InitOutput (name prometheusAddress : string)
  : M (option Output * option string) :=
  name ← resolveAuto name;
  if String.eqb name "interactive" then
    withPrometheus
      (Interactive {| InteractiveOutput.ErrStream := Stderr;
                      InteractiveOutput.OutStream := Stdout;
                      InteractiveOutput.LastProgressReport := zeroProgressReport;
                      InteractiveOutput.LastProgressTime := 0 |})
      prometheusAddress
  else if String.eqb name "csv" then
    withPrometheus
      (Csv {| CsvOutput.ErrStream := Stderr;
              CsvOutput.OutStream := Stdout;
              CsvOutput.LastProgressReport := zeroProgressReport;
              CsvOutput.LastProgressTime := 0 |})
      prometheusAddress
  else
    mret (None,
          Some ("unknown output format: " +:+ name +:+
                ", supported formats are 'auto', 'interactive' and 'csv'")).

End Dispatch.

(** ** Reference implementations of the two library interfaces

    The theorems below hold for every implementation of [GoFmt] and of
    [hdrhistogram.API].  The instances of this module let the model run on
    concrete inputs. *)
Module Reference.

Definition zeros (n : nat) : string := String.concat "" (replicate n "0").

Definition pad_left (n : nat) (s : string) : string :=
  zeros (n - String.length s) +:+ s.

(** [num / den] rounded to the nearest integer, ties to even ([0 < den]). *)
Definition round_half_even (num den : Z) : Z :=
  let q := num / den in
  let r := num mod den in
  if 2 * r <? den then q
  else if den <? 2 * r then q + 1
  else if Z.even q then q else q + 1.

(** [strconv.FormatFloat(f, 'f', prec, 64)]: the exact binary value,
    rounded to [prec] decimals, ties to even. *)
Definition format_fixed (prec : nat) (f : float) : string :=
  let frac d := if prec is O then "" else "." +:+ pad_left prec (Sprint_d d) in
  match Prim2SF f with
  | S754_nan => "NaN"
  | S754_infinity s => if s then "-Inf" else "+Inf"
  | S754_zero s => (if s then "-" else "") +:+ "0" +:+ frac 0
  | S754_finite s m e =>
      let scale := 10 ^ Z.of_nat prec in
      let n := if 0 <=? e then Z.pos m * 2 ^ e * scale
               else round_half_even (Z.pos m * scale) (2 ^ (- e)) in
      (if s then "-" else "") +:+ Sprint_d (n / scale) +:+ frac (n mod scale)
  end.

Definition type_name (v : any) : string :=
  match v with
  | Int64Val _ => "int64"
  | Float64Val _ => "float64"
  | StringVal _ => "string"
  | SliceVal _ => "[]interface {}"
  end.

(** An operand under the verbs [%v] and [%s] ([verb_d = false]) or [%d]
    ([verb_d = true]).  A slice prints its elements between brackets; an
    operand the verb does not apply to prints as [%!verb(type=value)].  A
    [float64] is outside the fragment: it prints in fixed notation with six
    decimals, where Go's [%v] picks the shortest notation. *)
Fixpoint show (verb : ascii) (v : any) : string :=
  let bad s := "%!" +:+ String verb "" +:+ "(" +:+ type_name v +:+ "=" +:+ s +:+ ")" in
  match v with
  | StringVal s => if Ascii.eqb verb "d" then bad s else s
  | Int64Val z => if Ascii.eqb verb "s" then bad (Sprint_d z) else Sprint_d z
  | Float64Val f => if Ascii.eqb verb "v" then format_fixed 6 f else bad (format_fixed 6 f)
  | SliceVal elems => "[" +:+ Join (map (show verb) elems) " " +:+ "]"
  end.

(** The operands left over when the format is used up. *)
Definition extra (a : list any) : string :=
  match a with
  | [] => ""
  | _ => "%!(EXTRA " +:+
         Join (map (λ v, type_name v +:+ "=" +:+ show "v" v) a) ", " +:+ ")"
  end.

(** [fmt.Sprintf] for formats whose verbs are [%s], [%v], [%d] and [%%],
    without flags, width or precision. *)
Fixpoint sprintf (format : string) (a : list any) : string :=
  match format with
  | EmptyString => extra a
  | String "%" EmptyString => "%!(NOVERB)" +:+ extra a
  | String "%" (String "%" rest) => "%" +:+ sprintf rest a
  | String "%" (String verb rest) =>
      match a with
      | [] => "%!" +:+ String verb "" +:+ "(MISSING)" +:+ sprintf rest []
      | v :: a' => show verb v +:+ sprintf rest a'
      end
  | String c rest => String c (sprintf rest a)
  end.

#[export] Instance fmt : GoFmt := {|
  FormatFloat := format_fixed;
  Sprintf := sprintf
|}.

(** The conversion [int64(f)] of a finite [float64]: truncation. *)
Definition int64_of_float64 (f : float) : Z :=
  match Prim2SF f with
  | S754_finite s m e =>
      let a := if 0 <=? e then Z.pos m * 2 ^ e else Z.pos m / 2 ^ (- e) in
      if s then - a else a
  | _ => 0
  end.

(** An exact histogram: the recorded samples themselves, without the
    bucketing of the library. *)
Definition mean (h : list Z) : float :=
  match h with
  | [] => 0%float
  | _ => PrimFloat.div (float64_of_int64 (foldr Z.add 0 h))
                       (float64_of_int64 (Z.of_nat (length h)))
  end.

Definition stddev (h : list Z) : float :=
  match h with
  | [] => 0%float
  | _ =>
      let m := mean h in
      let dev x := (float64_of_int64 x - m)%float in
      PrimFloat.sqrt
        (PrimFloat.div (foldr (λ x acc, (dev x * dev x + acc)%float) 0%float h)
                       (float64_of_int64 (Z.of_nat (length h))))
  end.

Definition value_at_quantile (h : list Z) (q : float) : Z :=
  let q := if (100 <? q)%float then 100%float else q in
  let n := float64_of_int64 (Z.of_nat (length h)) in
  let k := int64_of_float64 (q / 100 * n + 0.5)%float in
  if k <=? 0 then 0 else default 0 (merge_sort Z.le h !! Z.to_nat (k - 1)).

#[export] Instance samples : hdrhistogram.API (list Z) (list Z) := {|
  hdrhistogram.Import s := s;
  hdrhistogram.Export h := h;
  hdrhistogram.Merge h from := h ++ from;
  hdrhistogram.TotalCount h := Z.of_nat (length h);
  hdrhistogram.Mean := mean;
  hdrhistogram.StdDev := stddev;
  hdrhistogram.Min h := foldr Z.min (hd 0 h) h;
  hdrhistogram.Max h := foldr Z.max 0 h;
  hdrhistogram.ValueAtQuantile := value_at_quantile
|}.

End Reference.

(** ** A concrete environment for the examples *)

(** An environment in which no write fails, every [range] follows
    [map_to_list], the standard output is a terminal and the clock
    advances by half a second per effect. *)
Definition quietEnv : Env :=
  {| clock n := 1700000000000000000000 + Z.of_nat n * 500000000;
     write_fails _ := false;
     range_scripts _ m := map_to_list m;
     range_groups _ m := map_to_list m;
     stdout_char_device := Some true |}.

(** A world in which nothing has happened yet, with two histograms. *)
Definition initialWorld : World (Histogram := list Z) :=
  {| heap := {[ 1%positive := [1000; 4000]; 2%positive := [] ]};
     steps := 0;
     written := [];
     metrics_served := [] |}.

Definition newInteractive : InteractiveOutput.t :=
  {| InteractiveOutput.ErrStream := Stderr;
     InteractiveOutput.OutStream := Stdout;
     InteractiveOutput.LastProgressReport := zeroProgressReport;
     InteractiveOutput.LastProgressTime := 0 |}.

Definition newCsv : CsvOutput.t :=
  {| CsvOutput.ErrStream := Stderr;
     CsvOutput.OutStream := Stdout;
     CsvOutput.LastProgressReport := zeroProgressReport;
     CsvOutput.LastProgressTime := 0 |}.

(** ** Specification vocabulary for the aggregation theorems *)

Section AggregationSpec.
Context {Histogram Snapshot : Type} `{!hdrhistogram.API Histogram Snapshot}.

(** A pointer that can be dereferenced without a panic. *)
Definition valid (h : gmap loc Histogram) (p : option loc) : Prop :=
  is_Some (deref h p).

(** Every histogram the accumulated result points to is allocated. *)
Definition wf_result (h : gmap loc Histogram) (r : Result) : Prop :=
  ∀ name c, Scripts r !! name = Some c → valid h (Latencies c).

(** Every histogram a contribution points to is allocated. *)
Definition wf_worker (h : gmap loc Histogram) (res : WorkerResult.t) : Prop :=
  Forall (λ w, valid h (Latencies w)) (WorkerResult.Scripts res).

(** Distinct entries of the accumulated result own distinct histograms. *)
Definition owns_histograms (r : Result) : Prop :=
  ∀ n1 n2 c1 c2,
    Scripts r !! n1 = Some c1 → Scripts r !! n2 = Some c2 →
    Latencies c1 = Latencies c2 → n1 = n2.

(** No histogram of the contribution is one the accumulated result points
    to. *)
Definition disjoint_histograms (r : Result) (ws : list ScriptResult) : Prop :=
  ∀ n c w, Scripts r !! n = Some c → w ∈ ws → Latencies c ≠ Latencies w.

(** What [Add], taking [(h, r)] to [(h', r')], has done for the entry [w]
    of the contribution: a new [ScriptResult] with [w]'s counters and a
    newly allocated histogram holding the exported and re-imported content
    of [w]'s, or the existing [ScriptResult] with the counters added and
    [w]'s histogram merged into its own. *)
Definition script_outcome (h : gmap loc Histogram) (r : Result)
    (h' : gmap loc Histogram) (r' : Result) (w : ScriptResult) : Prop :=
  ∃ hw, deref h (Latencies w) = Some hw ∧
  match Scripts r !! ScriptName w with
  | None =>
      ∃ l, h !! l = None ∧
           h' !! l = Some (hdrhistogram.Import (hdrhistogram.Export hw)) ∧
           Scripts r' !! ScriptName w =
             Some {| ScriptName := ScriptName w;
                     Rate := Rate w;
                     Failed := Failed w;
                     Succeeded := Succeeded w;
                     Latencies := Some l |}
  | Some c =>
      ∃ lc hc, Latencies c = Some lc ∧ h !! lc = Some hc ∧
           h' !! lc = Some (hdrhistogram.Merge hc hw) ∧
           Scripts r' !! ScriptName w =
             Some {| ScriptName := ScriptName c;
                     Rate := (Rate c + Rate w)%float;
                     Failed := add64 (Failed c) (Failed w);
                     Succeeded := add64 (Succeeded c) (Succeeded w);
                     Latencies := Some lc |}
  end.

End AggregationSpec.

(** The counts a list of failure-group entries reports for group [g], in
    visiting order. *)
Definition groupCounts (g : string) (groups : list (string * FailureGroup)) : list Z :=
  map (λ e, Count e.2) (filter (λ e, e.1 = g) groups).

(** The counts a sequence of contributions reports for group [g], in
    arrival order. *)
Definition contributedCounts (g : string) (contributions : list WorkerResult.t) : list Z :=
  concat (map (λ res, groupCounts g (WorkerResult.FailedByErrorGroup res)) contributions).

(** The totals of one contribution, summed as [Result] sums its own: in
    visiting order, from zero. *)
Definition WorkerTotalSucceeded (res : WorkerResult.t) : Z :=
  fold_left add64 (Succeeded <$> WorkerResult.Scripts res) 0.

Definition WorkerTotalFailed (res : WorkerResult.t) : Z :=
  fold_left add64 (Failed <$> WorkerResult.Scripts res) 0.

Definition WorkerTotalRate (res : WorkerResult.t) : float :=
  fold_left PrimFloat.add (Rate <$> WorkerResult.Scripts res) 0%float.

(** All per-script entries of a sequence of contributions. *)
Definition allScripts (contributions : list WorkerResult.t) : list ScriptResult :=
  contributions ≫= WorkerResult.Scripts.

(** The three counters of a [ScriptResult]. *)
Definition counters (s : ScriptResult) : float * Z * Z :=
  (Rate s, Failed s, Succeeded s).

(** The sum of a list of integers. *)
Definition sumZ (l : list Z) : Z := foldr Z.add 0 l.

(** The range of [int64]. *)
Definition int64 (z : Z) : Prop := - 2 ^ 63 ≤ z < 2 ^ 63.

(** ** Specification vocabulary for the further properties of [Add] *)

(** Every record of the result is stored under its own name. *)
Definition keyed_by_name (r : Result) : Prop :=
  ∀ name c, Scripts r !! name = Some c → ScriptName c = name.

(** The exact sum of a counter over the records of a map of scripts. *)
Definition sumOver (f : ScriptResult → Z) (m : gmap string ScriptResult) : Z :=
  sumZ (f <$> (map_to_list m).*2).

(** The result [r] with the failure groups [groups]. *)
Definition withGroups (groups : gmap string FailureGroup) (r : Result) : Result :=
  {| DatabaseName := DatabaseName r; Scenario := Scenario r;
     FailedByErrorGroup := groups; Scripts := Scripts r |}.

(** ** Specification vocabulary for the renderers *)

Section RendererSpec.
Context {Histogram : Type}.
Implicit Types (w : World (Histogram := Histogram)).

(** A computation whose final world is related by [R] to the world it
    starts in, whether it returns or panics. *)
Definition respects (R : relation (World (Histogram := Histogram)))
    {A} (m : M (Histogram := Histogram) A) : Prop :=
  ∀ env w, R w (world_of (m env w)).

(** The histograms and the registered listeners are the same. *)
Definition same_store w w' : Prop :=
  heap w' = heap w ∧ metrics_served w' = metrics_served w.

(** Nothing has been written in between. *)
Definition nothing_written w w' : Prop := written w' = written w.

(** What has been written in between went to the writer [wr]. *)
Definition wrote_to (wr : Writer) w w' : Prop :=
  ∃ more, written w' = written w ++ more ∧ Forall (λ e, e.1 = wr) more.

(** A computation that returns in the environment [env] from every world
    that satisfies [P], in a world that satisfies [Q]. *)
Definition returns (env : Env) (P : World (Histogram := Histogram) → Prop)
    {A} (m : M (Histogram := Histogram) A)
    (Q : A → World (Histogram := Histogram) → Prop) : Prop :=
  ∀ w, P w → ∃ a w', m env w = Done a w' ∧ Q a w'.

(** The heap of histograms is [h]. *)
Definition on_heap (h : gmap loc Histogram) w : Prop := heap w = h.

End RendererSpec.

(** The call a [CombinedOutput] makes on each of its delegates when it
    receives the call [c]. *)
Definition forwarded (c : Call) : Call :=
  match c with
  | Errorf format a => Errorf format [SliceVal a]
  | _ => c
  end.

(** The delegates of a [CombinedOutput]. *)
Definition delegates_of (o : Output) : list Output :=
  match o with
  | Combined delegates => delegates
  | _ => []
  end.

Section SafeSpec.
Context {Histogram Snapshot : Type} `{!hdrhistogram.API Histogram Snapshot}.

(** A call that the renderers can serve from the heap [h]: the results it
    reports point to allocated histograms, and the totals of a checkpoint
    are not negative. *)
Definition call_is_safe (h : gmap loc Histogram) (c : Call) : Prop :=
  match c with
  | ReportWorkloadProgress _ checkpoint =>
      wf_result h checkpoint ∧
      0 ≤ TotalSucceeded checkpoint ∧ 0 ≤ TotalFailed checkpoint
  | ReportLatency result => wf_result h result
  | _ => True
  end.

End SafeSpec.

(** A [CsvOutput] seen as the [InteractiveOutput] with the same fields,
    and back. *)
Definition asInteractive (o : CsvOutput.t) : InteractiveOutput.t :=
  {| InteractiveOutput.ErrStream := CsvOutput.ErrStream o;
     InteractiveOutput.OutStream := CsvOutput.OutStream o;
     InteractiveOutput.LastProgressReport := CsvOutput.LastProgressReport o;
     InteractiveOutput.LastProgressTime := CsvOutput.LastProgressTime o |}.

Definition asCsv (i : InteractiveOutput.t) : CsvOutput.t :=
  {| CsvOutput.ErrStream := InteractiveOutput.ErrStream i;
     CsvOutput.OutStream := InteractiveOutput.OutStream i;
     CsvOutput.LastProgressReport := InteractiveOutput.LastProgressReport i;
     CsvOutput.LastProgressTime := InteractiveOutput.LastProgressTime i |}.

(** The two final reports, which go to the data stream. *)
Definition is_report (c : Call) : bool :=
  match c with
  | ReportThroughput _ | ReportLatency _ => true
  | _ => false
  end.

(** ** Concrete inputs for the examples of the renderers *)

(** An environment like [quietEnv] in which the write that is effect
    number [n] fails. *)
Definition failingEnv (n : nat) : Env :=
  {| clock := clock quietEnv;
     write_fails k := Nat.eqb k n;
     range_scripts := range_scripts quietEnv;
     range_groups := range_groups quietEnv;
     stdout_char_device := stdout_char_device quietEnv |}.

(** A result with one script, [tx], whose histogram [latencies] points to;
    [failed] of its transactions failed, by a timeout. *)
Definition txResult (succeeded failed : Z) (latencies : option loc) : Result :=
  {| DatabaseName := "neo4j"; Scenario := "-w tx";
     FailedByErrorGroup :=
       if failed =? 0 then ∅
       else {[ "timeout" := {| Count := failed; FirstFailure := "deadline exceeded" |} ]};
     Scripts := {[ "tx" := {| ScriptName := "tx"; Rate := 12.5; Succeeded := succeeded;
                              Failed := failed; Latencies := latencies |} ]} |}.

(** * Theorems *)

(** ** Tactics *)

(** Inversion of a successful chain of binds in the option monad: every
    bound computation returned a value. *)
Ltac bind_inv H :=
  repeat match type of H with
    | mbind _ ?m = Some _ =>
        let E := fresh "E" in
        destruct m eqn:E; simpl in H; [|discriminate H]
    end.

(** Runs the next effects of a computation in [M]. *)
Ltac run :=
  unfold mbind, M_bind, mret, M_ret, fmap, M_fmap, Fprint, Now, panic,
         rangeScripts, rangeGroups, orPanic, load; cbn.


(** ** Arithmetic of [int64] *)

Lemma wrap64_int64 z : int64 (wrap64 z).
Proof.
  unfold int64, wrap64.
  pose proof (Z.mod_pos_bound (z + 2 ^ 63) (2 ^ 64) ltac:(lia)). lia.
Qed.

Lemma wrap64_id z : int64 z → wrap64 z = z.
Proof.
  unfold int64, wrap64. intros Hz.
  rewrite Z.mod_small by lia. lia.
Qed.

Lemma wrap64_add_l a b : wrap64 (wrap64 a + b) = wrap64 (a + b).
Proof.
  unfold wrap64.
  replace ((a + 2 ^ 63) mod 2 ^ 64 - 2 ^ 63 + b + 2 ^ 63)
    with ((a + 2 ^ 63) mod 2 ^ 64 + b) by lia.
  rewrite Zplus_mod_idemp_l. do 2 f_equal. lia.
Qed.

Lemma wrap64_add_r a b : wrap64 (a + wrap64 b) = wrap64 (a + b).
Proof. rewrite (Z.add_comm a), wrap64_add_l. f_equal. lia. Qed.

Lemma add64_comm a b : add64 a b = add64 b a.
Proof. unfold add64. f_equal. lia. Qed.

Lemma add64_assoc a b c : add64 (add64 a b) c = add64 a (add64 b c).
Proof.
  unfold add64. rewrite wrap64_add_l, wrap64_add_r. f_equal. lia.
Qed.

(** A chain of [int64] additions is the wrapped exact sum, unless nothing
    is added. *)
Lemma fold_add64_cons a x l :
  fold_left add64 (x :: l) a = wrap64 (a + sumZ (x :: l)).
Proof.
  revert a x. induction l as [|y l IH]; intros a x; simpl.
  - unfold add64. f_equal. lia.
  - simpl in IH. rewrite IH. unfold add64. rewrite wrap64_add_l.
    f_equal. lia.
Qed.

Lemma fold_add64_sum a l :
  int64 a → fold_left add64 l a = wrap64 (a + sumZ l).
Proof.
  intros Ha. destruct l as [|x l].
  - simpl. rewrite Z.add_0_r. symmetry. by apply wrap64_id.
  - apply fold_add64_cons.
Qed.

Lemma sumZ_app l1 l2 : sumZ (l1 ++ l2) = sumZ l1 + sumZ l2.
Proof. unfold sumZ. induction l1 as [|x l1 IH]; simpl; lia. Qed.

Lemma sumZ_perm l1 l2 : l1 ≡ₚ l2 → sumZ l1 = sumZ l2.
Proof. unfold sumZ. induction 1; simpl; lia. Qed.

(** A chain of [int64] additions does not depend on the order of the
    summands. *)
Lemma fold_add64_perm a l1 l2 :
  l1 ≡ₚ l2 → fold_left add64 l1 a = fold_left add64 l2 a.
Proof.
  intros Hperm. destruct l1 as [|x l1].
  - apply Permutation_nil_l in Hperm. by subst.
  - destruct l2 as [|y l2]; [by apply Permutation_nil_r in Hperm|].
    rewrite !fold_add64_cons. by rewrite (sumZ_perm _ _ Hperm).
Qed.

(** The [int64] sum of [int64] sums is the [int64] sum of all summands. *)
Lemma fold_add64_concat (ls : list (list Z)) :
  fold_left add64 ((λ l, fold_left add64 l 0) <$> ls) 0 =
  fold_left add64 (concat ls) 0.
Proof.
  assert (int64 0) as H0 by (unfold int64; lia).
  rewrite !fold_add64_sum by done. simpl.
  induction ls as [|l ls IH]; [done|].
  rewrite fmap_cons. simpl. rewrite sumZ_app.
  change (sumZ (fold_left add64 l 0 :: ?t)) with (fold_left add64 l 0 + sumZ t).
  rewrite fold_add64_sum by done. rewrite !Z.add_0_l in *.
  rewrite wrap64_add_l, <- wrap64_add_r, IH, wrap64_add_r. done.
Qed.

(** ** The rate limit: [Seconds() < 10] at its boundary *)

Example rate_limit_boundary :
  (time.Seconds 1000000000 <? 10)%float = true ∧
  (time.Seconds 9999999999 <? 10)%float = true ∧
  (time.Seconds 10000000000 <? 10)%float = false ∧
  (time.Seconds (-1) <? 10)%float = true ∧
  time.Sub 1700000000000000000000 0 = time.maxDuration ∧
  (time.Seconds time.maxDuration <? 10)%float = false.
Proof. repeat split; reflexivity. Qed.

(** A reading one second after another passes the test, whatever the
    first reading is. *)
Lemma one_second_apart_is_recent (t : Z) :
  (time.Seconds (time.Sub (t + time.Second) t) <? 10)%float = true.
Proof.
  replace (time.Sub (t + time.Second) t) with time.Second; [reflexivity|].
  unfold time.Sub, time.minDuration, time.maxDuration, time.Second. lia.
Qed.

(** ** Reference implementations: sanity checks *)

Example format_fixed_examples :
  Reference.format_fixed 3 1.5 = "1.500" ∧
  Reference.format_fixed 3 0.0625 = "0.062" ∧
  Reference.format_fixed 2 33.335 = "33.34" ∧
  Reference.format_fixed 3 (-0.0001) = "-0.000" ∧
  Reference.format_fixed 3 (100 * 1 / 3) = "33.333".
Proof. repeat split; reflexivity. Qed.

Example sprintf_examples :
  Reference.sprintf "x %s" [StringVal "y"] = "x y" ∧
  Reference.sprintf "x %s" [SliceVal [StringVal "y"]] = "x [y]" ∧
  Reference.sprintf "%s %d" [SliceVal [StringVal "a"; Int64Val 1]]
    = "[a %!s(int64=1)] %!d(MISSING)" ∧
  Reference.sprintf "%d%%" [Int64Val 7; StringVal "z"] = "7%%!(EXTRA string=z)".
Proof. repeat split; reflexivity. Qed.

Example samples_examples :
  let _ := Reference.samples in
  hdrhistogram.Mean [1000; 4000] = 2500%float ∧
  hdrhistogram.StdDev [1000; 4000] = 1500%float ∧
  hdrhistogram.ValueAtQuantile [3000; 1000; 2000; 4000] 50 = 2000 ∧
  hdrhistogram.Max [3000; 1000; 2000; 4000] = 4000 ∧
  hdrhistogram.Min [3000; 1000; 2000; 4000] = 1000.
Proof. repeat split; reflexivity. Qed.

(** ** [Add]: what the first loop leaves alone *)

Section AggregationFacts.
Context {Histogram Snapshot : Type} `{!hdrhistogram.API Histogram Snapshot}.
Implicit Types (h : gmap loc Histogram) (r : Result) (w : ScriptResult).

Lemma addScript_frame w h r h' r' :
  addScript w (h, r) = Some (h', r') →
  DatabaseName r' = DatabaseName r ∧ Scenario r' = Scenario r ∧
  FailedByErrorGroup r' = FailedByErrorGroup r.
Proof.
  unfold addScript. intros Hadd.
  destruct (Scripts r !! ScriptName w) as [c|]; bind_inv Hadd; by simplify_eq.
Qed.

Lemma addScripts_frame ws h r h' r' :
  addScripts ws (h, r) = Some (h', r') →
  DatabaseName r' = DatabaseName r ∧ Scenario r' = Scenario r ∧
  FailedByErrorGroup r' = FailedByErrorGroup r.
Proof.
  revert h r. induction ws as [|w ws IH]; intros h r Hadd; simpl in Hadd.
  - by simplify_eq.
  - bind_inv Hadd. destruct p as [h1 r1].
    apply IH in Hadd as (-> & -> & ->).
    by apply addScript_frame in E.
Qed.

Lemma Add_inv res h r h' r' :
  Add res (h, r) = Some (h', r') →
  ∃ r1, addScripts (WorkerResult.Scripts res) (h, r) = Some (h', r1) ∧
        Scripts r' = Scripts r1 ∧
        DatabaseName r' = DatabaseName r ∧ Scenario r' = Scenario r ∧
        FailedByErrorGroup r' =
          fold_left addGroup (WorkerResult.FailedByErrorGroup res)
                    (FailedByErrorGroup r).
Proof.
  unfold Add. intros Hadd. bind_inv Hadd. destruct p as [h1 r1].
  simplify_eq. exists r1. simpl.
  apply addScripts_frame in E as (-> & -> & ->). done.
Qed.

(** *** The second loop *)

#[local] Arguments addGroup : simpl never.

Lemma addGroup_other groups name group g :
  name ≠ g → addGroup groups (name, group) !! g = groups !! g.
Proof.
  intros Hne. unfold addGroup.
  destruct (groups !! name); by rewrite lookup_insert_ne.
Qed.

Lemma addGroup_present groups g group fg :
  groups !! g = Some fg →
  addGroup groups (g, group) !! g =
    Some {| Count := add64 (Count fg) (Count group);
            FirstFailure := FirstFailure fg |}.
Proof. intros Hg. unfold addGroup. rewrite Hg. apply lookup_insert_eq. Qed.

Lemma addGroup_absent groups g group :
  groups !! g = None → addGroup groups (g, group) !! g = Some group.
Proof. intros Hg. unfold addGroup. rewrite Hg. apply lookup_insert_eq. Qed.

Lemma groupCounts_cons_eq g group l :
  groupCounts g ((g, group) :: l) = Count group :: groupCounts g l.
Proof. unfold groupCounts. by rewrite filter_cons_True. Qed.

Lemma groupCounts_cons_ne g name group l :
  name ≠ g → groupCounts g ((name, group) :: l) = groupCounts g l.
Proof. intros. unfold groupCounts. by rewrite filter_cons_False. Qed.

Lemma groupCounts_not_reported g l : g ∉ l.*1 → groupCounts g l = [].
Proof.
  induction l as [|[name group] l IH]; [done|].
  rewrite fmap_cons, not_elem_of_cons. simpl. intros [Hne Hl].
  rewrite groupCounts_cons_ne by done. auto.
Qed.

Lemma fold_addGroup_present l groups g fg :
  groups !! g = Some fg →
  fold_left addGroup l groups !! g =
    Some {| Count := fold_left add64 (groupCounts g l) (Count fg);
            FirstFailure := FirstFailure fg |}.
Proof.
  revert groups fg. induction l as [|[name group] l IH]; intros groups fg Hg.
  - simpl. rewrite Hg. by destruct fg.
  - simpl. destruct (decide (name = g)) as [->|Hne].
    + rewrite groupCounts_cons_eq. simpl.
      erewrite IH by (by apply addGroup_present). done.
    + rewrite groupCounts_cons_ne by done.
      apply IH. by rewrite addGroup_other.
Qed.

Lemma fold_addGroup_absent l groups g group :
  groups !! g = None → NoDup l.*1 → (g, group) ∈ l →
  fold_left addGroup l groups !! g = Some group.
Proof.
  revert groups. induction l as [|[name grp] l IH]; intros groups Hg Hnd Hin.
  - by apply elem_of_nil in Hin.
  - rewrite fmap_cons in Hnd. apply NoDup_cons in Hnd as [Hfresh Hnd]. simpl in *.
    apply elem_of_cons in Hin as [Heq|Hin].
    + simplify_eq.
      erewrite fold_addGroup_present by (by apply addGroup_absent).
      rewrite groupCounts_not_reported by done. by destruct grp.
    + assert (name ≠ g).
      { intros ->. apply Hfresh. apply list_elem_of_fmap. by exists (g, group). }
      apply IH; [by rewrite addGroup_other|done|done].
Qed.

Lemma AddAll_groups cs h r h' r' g fg :
  AddAll cs (h, r) = Some (h', r') →
  FailedByErrorGroup r !! g = Some fg →
  FailedByErrorGroup r' !! g =
    Some {| Count := fold_left add64 (contributedCounts g cs) (Count fg);
            FirstFailure := FirstFailure fg |}.
Proof.
  revert h r fg. induction cs as [|res cs IH]; intros h r fg Hall Hg.
  - simpl in Hall. simplify_eq. simpl. rewrite Hg. by destruct fg.
  - simpl in Hall. bind_inv Hall. destruct p as [h1 r1].
    apply Add_inv in E as (r2 & _ & _ & _ & _ & Hgroups).
    erewrite IH; [|exact Hall|].
    2:{ rewrite Hgroups. by apply fold_addGroup_present. }
    simpl. unfold contributedCounts. simpl. by rewrite fold_left_app.
Qed.

(** *** The first loop: one entry *)

Lemma valid_dom h p : valid h p ↔ ∃ l, p = Some l ∧ l ∈ dom h.
Proof.
  unfold valid, deref. split.
  - intros [x Hx]. destruct p as [l|]; [|done]. simpl in Hx.
    exists l. split; [done|]. apply elem_of_dom. by exists x.
  - intros (l & -> & Hl). simpl. by apply elem_of_dom.
Qed.

Lemma valid_mono h h' p : dom h ⊆ dom h' → valid h p → valid h' p.
Proof. rewrite !valid_dom. intros Hsub (l & -> & Hl). eauto. Qed.

Lemma addScript_new w h r hw :
  Scripts r !! ScriptName w = None → deref h (Latencies w) = Some hw →
  addScript w (h, r) =
    Some (<[fresh (dom h) := hdrhistogram.Import (hdrhistogram.Export hw)]> h,
          {| DatabaseName := DatabaseName r;
             Scenario := Scenario r;
             FailedByErrorGroup := FailedByErrorGroup r;
             Scripts :=
               <[ScriptName w :=
                   {| ScriptName := ScriptName w;
                      Latencies := Some (fresh (dom h));
                      Rate := Rate w;
                      Succeeded := Succeeded w;
                      Failed := Failed w |}]> (Scripts r) |}).
Proof. intros Hname Hw. unfold addScript. by rewrite Hname, Hw. Qed.

Lemma addScript_known w h r c lc hc hw :
  Scripts r !! ScriptName w = Some c → Latencies c = Some lc →
  h !! lc = Some hc → deref h (Latencies w) = Some hw →
  addScript w (h, r) =
    Some (<[lc := hdrhistogram.Merge hc hw]> h,
          {| DatabaseName := DatabaseName r;
             Scenario := Scenario r;
             FailedByErrorGroup := FailedByErrorGroup r;
             Scripts :=
               <[ScriptName w :=
                   {| ScriptName := ScriptName c;
                      Latencies := Some lc;
                      Rate := (Rate c + Rate w)%float;
                      Succeeded := add64 (Succeeded c) (Succeeded w);
                      Failed := add64 (Failed c) (Failed w) |}]> (Scripts r) |}).
Proof.
  intros Hname Hlc Hhc Hw. unfold addScript.
  rewrite Hname, Hlc. simpl. rewrite Hhc. simpl. by rewrite Hw.
Qed.

Lemma addScript_total w h r :
  wf_result h r → valid h (Latencies w) → is_Some (addScript w (h, r)).
Proof.
  intros Hwf [hw Hw]. unfold addScript.
  destruct (Scripts r !! ScriptName w) as [c|] eqn:Hc.
  - destruct (Hwf _ _ Hc) as [hc Hhc]. unfold deref in Hhc.
    destruct (Latencies c) as [lc|]; [|done]. simpl in *.
    rewrite Hhc. simpl. rewrite Hw. simpl. eauto.
  - rewrite Hw. simpl. eauto.
Qed.

(** Storing one histogram, and one record that points to it, keeps every
    pointer of the result allocated. *)
Lemma store_wf h r l x name c1 :
  wf_result h r → Latencies c1 = Some l →
  wf_result (<[l := x]> h)
    {| DatabaseName := DatabaseName r;
       Scenario := Scenario r;
       FailedByErrorGroup := FailedByErrorGroup r;
       Scripts := <[name := c1]> (Scripts r) |}.
Proof.
  intros Hwf Hc1 n c Hn. simpl in Hn. apply valid_dom.
  apply lookup_insert_Some in Hn as [[<- <-]|[Hne Hn]].
  - exists l. split; [done|]. rewrite dom_insert. set_solver.
  - apply Hwf, valid_dom in Hn as (l' & Hl' & Hdom).
    exists l'. split; [done|]. rewrite dom_insert. set_solver.
Qed.

(** It keeps the records' histograms distinct, provided no other record
    points to the stored histogram. *)
Lemma store_owns r l name c1 :
  owns_histograms r → Latencies c1 = Some l →
  (∀ n c, n ≠ name → Scripts r !! n = Some c → Latencies c ≠ Some l) →
  owns_histograms
    {| DatabaseName := DatabaseName r;
       Scenario := Scenario r;
       FailedByErrorGroup := FailedByErrorGroup r;
       Scripts := <[name := c1]> (Scripts r) |}.
Proof.
  intros Howns Hc1 Hother n1 n2 c2 c3 H1 H2 Heq. simpl in H1, H2.
  apply lookup_insert_Some in H1 as [[<- <-]|[Hne1 H1]];
    apply lookup_insert_Some in H2 as [[<- <-]|[Hne2 H2]].
  - done.
  - exfalso. eapply (Hother n2); eauto. congruence.
  - exfalso. eapply (Hother n1); eauto. congruence.
  - eapply Howns; eauto.
Qed.

Lemma addScript_wf w h r h1 r1 :
  wf_result h r → addScript w (h, r) = Some (h1, r1) →
  wf_result h1 r1 ∧ dom h ⊆ dom h1.
Proof.
  intros Hwf Hadd. unfold addScript in Hadd.
  destruct (Scripts r !! ScriptName w) as [c|] eqn:Hc;
    bind_inv Hadd; simplify_eq.
  - split; [by apply store_wf|]. rewrite dom_insert. set_solver.
  - split; [by apply store_wf|]. rewrite dom_insert. set_solver.
Qed.

(** One step of the first loop, with everything the induction over the
    contribution needs: the step stores into one heap cell [l], which the
    record of [w]'s name owns afterwards. *)
Lemma addScript_step w h r h1 r1 :
  wf_result h r → valid h (Latencies w) → owns_histograms r →
  (∀ n c, Scripts r !! n = Some c → Latencies c ≠ Latencies w) →
  addScript w (h, r) = Some (h1, r1) →
  script_outcome h r h1 r1 w ∧
  wf_result h1 r1 ∧ owns_histograms r1 ∧ dom h ⊆ dom h1 ∧
  (∀ n, n ≠ ScriptName w → Scripts r1 !! n = Scripts r !! n) ∧
  ∃ c1 l, Scripts r1 !! ScriptName w = Some c1 ∧ Latencies c1 = Some l ∧
          Latencies w ≠ Some l ∧
          (∀ l', l' ≠ l → h1 !! l' = h !! l') ∧
          (∀ c, Scripts r !! ScriptName w = Some c → Latencies c = Some l) ∧
          (Scripts r !! ScriptName w = None → l ∉ dom h).
Proof.
  intros Hwf Hvalid Howns Hdisj Hadd. unfold addScript in Hadd.
  destruct (Scripts r !! ScriptName w) as [c|] eqn:Hc.
  - (* the script is known: counters added, histogram merged in place *)
    bind_inv Hadd. simplify_eq. rename l into lc, h0 into hc, h2 into hw.
    split_and!.
    + exists hw. split; [done|]. unfold script_outcome. rewrite Hc.
      exists lc, hc. simpl. by rewrite !lookup_insert_eq.
    + by apply store_wf.
    + apply (store_owns r lc); [done|done|].
      intros n c' Hne Hn Hl. apply Hne. eapply Howns; eauto. congruence.
    + rewrite dom_insert. set_solver.
    + intros n Hne. simpl. by rewrite lookup_insert_ne.
    + eexists _, lc. simpl. rewrite lookup_insert_eq. split_and!; try done.
      * intros Heq. eapply Hdisj; eauto. congruence.
      * intros l' Hne. by rewrite lookup_insert_ne.
      * intros c' Hc'. by simplify_eq.
  - (* a new script: a new record and a new histogram *)
    bind_inv Hadd. simplify_eq. rename h0 into hw.
    pose proof (is_fresh (dom h)) as Hfresh.
    set (l := fresh (dom h)) in *.
    assert (h !! l = None) as Hl by (by apply not_elem_of_dom).
    split_and!.
    + exists hw. split; [done|]. unfold script_outcome. rewrite Hc.
      exists l. simpl. by rewrite !lookup_insert_eq.
    + by apply store_wf.
    + apply (store_owns r l); [done|done|].
      intros n c' Hne Hn Hl'. apply Hwf, valid_dom in Hn as (l' & ? & ?).
      congruence.
    + rewrite dom_insert. set_solver.
    + intros n Hne. simpl. by rewrite lookup_insert_ne.
    + eexists _, l. simpl. rewrite lookup_insert_eq. split_and!; try done.
      * intros Heq. apply valid_dom in Hvalid as (l' & Hl' & Hdom). congruence.
      * intros l' Hne. by rewrite lookup_insert_ne.
Qed.

(** *** The first loop: the whole contribution *)

#[local] Arguments addScript : simpl never.

Lemma addScripts_spec ws h r :
  wf_result h r → Forall (λ w, valid h (Latencies w)) ws →
  owns_histograms r → disjoint_histograms r ws →
  NoDup (ScriptName <$> ws) →
  ∃ h' r', addScripts ws (h, r) = Some (h', r') ∧
    (∀ w, w ∈ ws → script_outcome h r h' r' w) ∧
    wf_result h' r' ∧ owns_histograms r' ∧ dom h ⊆ dom h' ∧
    (∀ n, n ∉ ScriptName <$> ws → Scripts r' !! n = Scripts r !! n) ∧
    (∀ l, l ∈ dom h →
       (∀ n c, n ∈ ScriptName <$> ws → Scripts r !! n = Some c →
               Latencies c ≠ Some l) →
       h' !! l = h !! l).
Proof.
  revert h r. induction ws as [|w ws IH]; intros h r Hwf Hvalid Howns Hdisj Hnd.
  { exists h, r. split_and!; try done. intros w Hw. by apply elem_of_nil in Hw. }
  rewrite fmap_cons in Hnd. apply NoDup_cons in Hnd as [Hw_fresh Hnd].
  apply Forall_cons in Hvalid as [Hvalid_w Hvalid].
  destruct (addScript_total w h r Hwf Hvalid_w) as [[h1 r1] Hstep].
  destruct (addScript_step w h r h1 r1) as
    (Hout & Hwf1 & Howns1 & Hdom1 & Hnames1 & c1 & l & Hc1 & Hl & Hwl & Hheap1
       & Hknown & Hnew); try done.
  { intros n c Hn. eapply Hdisj; [done|]. apply elem_of_cons. by left. }
  (* the other entries of the contribution neither share a name with [w]
     nor point to the cell the step wrote *)
  assert (∀ w', w' ∈ ws → ScriptName w' ≠ ScriptName w) as Hname.
  { intros w' Hw' Heq. apply Hw_fresh. rewrite <- Heq.
    apply list_elem_of_fmap. by exists w'. }
  assert (∀ w', w' ∈ ws → Latencies w' ≠ Some l) as Hws_l.
  { intros w' Hw' Heq.
    destruct (Scripts r !! ScriptName w) as [c|] eqn:Hc.
    - eapply (Hdisj (ScriptName w) c w'); [done|by apply elem_of_cons; right|].
      rewrite Heq. by apply Hknown.
    - apply Hnew; [done|].
      rewrite Forall_forall in Hvalid.
      apply Hvalid, valid_dom in Hw' as (l' & Hl' & Hdom). congruence. }
  destruct (IH h1 r1) as (h' & r' & Hrest & Houts & Hwf' & Howns' & Hdom'
                            & Hnames' & Hheap'); try done.
  { eapply Forall_impl; [exact Hvalid|]. intros w'. by apply valid_mono. }
  { intros n c w' Hn Hw'. destruct (decide (n = ScriptName w)) as [->|Hne].
    - rewrite Hc1 in Hn. simplify_eq. rewrite Hl. intros Heq.
      by eapply Hws_l.
    - rewrite Hnames1 in Hn by done.
      eapply Hdisj; [done|]. apply elem_of_cons. by right. }
  (* the cell the step wrote is not written again *)
  assert (h' !! l = h1 !! l) as Hl_kept.
  { apply Hheap'.
    - apply Hwf1, valid_dom in Hc1 as (l' & Hl' & Hdom). congruence.
    - intros n c Hn Hc Heq. apply Hw_fresh.
      replace (ScriptName w) with n; [done|].
      eapply Howns1; eauto. congruence. }
  exists h', r'. split_and!.
  - simpl. by rewrite Hstep.
  - intros w' Hw'. apply elem_of_cons in Hw' as [->|Hw'].
    + destruct Hout as (hw & Hhw & Hcase). exists hw. split; [done|].
      rewrite Hnames' by done.
      destruct (Scripts r !! ScriptName w) as [c|] eqn:Hc.
      * destruct Hcase as (lc & hc & Hlc & Hhc & Hmerged & Hrec).
        exists lc, hc. split_and!; try done.
        rewrite (Hknown c eq_refl) in Hlc. simplify_eq. congruence.
      * destruct Hcase as (l0 & Hl0 & Hcopy & Hrec).
        exists l0. split_and!; try done.
        rewrite Hc1 in Hrec. simplify_eq. simpl in Hl. simplify_eq. congruence.
    + destruct (Houts w' Hw') as (hw & Hhw & Hcase).
      assert (deref h (Latencies w') = Some hw) as Hhw0.
      { destruct (Latencies w') as [l'|] eqn:El; [|done]. simpl in *.
        rewrite <- Hhw. symmetry. apply Hheap1. intros ->. by eapply Hws_l. }
      exists hw. split; [done|].
      rewrite Hnames1 in Hcase by (by apply Hname).
      destruct (Scripts r !! ScriptName w') as [c|] eqn:Hc.
      * destruct Hcase as (lc & hc & Hlc & Hhc & Hmerged & Hrec).
        exists lc, hc. split_and!; try done.
        rewrite <- Hhc. symmetry. apply Hheap1. intros ->.
        apply (Hname w' Hw').
        apply (Howns1 (ScriptName w') (ScriptName w) c c1); [|done|congruence].
        rewrite Hnames1 by (by apply Hname). done.
      * destruct Hcase as (l0 & Hl0 & Hcopy & Hrec).
        exists l0. split_and!; try done.
        apply not_elem_of_dom. apply not_elem_of_dom in Hl0. set_solver.
  - done.
  - done.
  - set_solver.
  - intros n Hn. rewrite fmap_cons, not_elem_of_cons in Hn.
    destruct Hn as [Hne Hn]. rewrite Hnames' by done. by apply Hnames1.
  - intros l0 Hl0 Hfree.
    assert (l0 ≠ l) as Hne.
    { intros ->. destruct (Scripts r !! ScriptName w) as [c|] eqn:Hc.
      - eapply (Hfree (ScriptName w) c); [|done|by apply Hknown].
        rewrite fmap_cons. apply elem_of_cons. by left.
      - by apply Hnew. }
    rewrite <- (Hheap1 l0 Hne). apply Hheap'; [set_solver|].
    intros n c Hn Hc.
    assert (n ≠ ScriptName w) as Hn_ne by (by intros ->).
    rewrite Hnames1 in Hc by done.
    eapply Hfree; [|done]. rewrite fmap_cons. apply elem_of_cons. by right.
Qed.

(** *** [Add] and [AddAll] return when every pointer is allocated *)

Lemma addScripts_total ws h r :
  wf_result h r → Forall (λ w, valid h (Latencies w)) ws →
  ∃ h' r', addScripts ws (h, r) = Some (h', r') ∧
           wf_result h' r' ∧ dom h ⊆ dom h'.
Proof.
  revert h r. induction ws as [|w ws IH]; intros h r Hwf Hvalid.
  { by exists h, r. }
  apply Forall_cons in Hvalid as [Hvalid_w Hvalid].
  destruct (addScript_total w h r Hwf Hvalid_w) as [[h1 r1] Hstep].
  destruct (addScript_wf _ _ _ _ _ Hwf Hstep) as [Hwf1 Hdom1].
  destruct (IH h1 r1) as (h' & r' & Hrest & Hwf' & Hdom'); [done|..].
  { eapply Forall_impl; [exact Hvalid|]. intros w'. by apply valid_mono. }
  exists h', r'. simpl. rewrite Hstep. split_and!; [done|done|set_solver].
Qed.

Lemma Add_total res h r :
  wf_result h r → wf_worker h res →
  ∃ h' r', Add res (h, r) = Some (h', r') ∧ wf_result h' r' ∧ dom h ⊆ dom h'.
Proof.
  intros Hwf Hres.
  destruct (addScripts_total _ h r Hwf Hres) as (h' & r1 & Hs & Hwf' & Hdom').
  eexists h', _. unfold Add. rewrite Hs. simpl. split_and!; done.
Qed.

Lemma wf_worker_mono h h' res :
  dom h ⊆ dom h' → wf_worker h res → wf_worker h' res.
Proof.
  intros Hsub Hres. eapply Forall_impl; [exact Hres|].
  intros w. by apply valid_mono.
Qed.

Lemma AddAll_total cs h r :
  wf_result h r → Forall (wf_worker h) cs →
  ∃ h' r', AddAll cs (h, r) = Some (h', r') ∧ wf_result h' r' ∧ dom h ⊆ dom h'.
Proof.
  revert h r. induction cs as [|res cs IH]; intros h r Hwf Hcs.
  { by exists h, r. }
  apply Forall_cons in Hcs as [Hres Hcs].
  destruct (Add_total res h r Hwf Hres) as (h1 & r1 & Hadd & Hwf1 & Hdom1).
  destruct (IH h1 r1) as (h' & r' & Hrest & Hwf' & Hdom'); [done|..].
  { eapply Forall_impl; [exact Hcs|]. intros res'. by apply wf_worker_mono. }
  exists h', r'. simpl. rewrite Hadd. split_and!; [done|done|set_solver].
Qed.

End AggregationFacts.

(** ** The derived reads *)

Lemma fold_left_fmap {A B C} (f : C → B → C) (g : A → B) (l : list A) (c : C) :
  fold_left f (g <$> l) c = fold_left (λ c x, f c (g x)) l c.
Proof. revert c. induction l as [|x l IH]; intros c; simpl; [done|apply IH]. Qed.

Lemma TotalSucceeded_visit_fold visit :
  TotalSucceeded_visit visit =
    fold_left add64 ((λ c, c.2) <$> (counters <$> visit.*2)) 0.
Proof.
  unfold TotalSucceeded_visit. rewrite <- !list_fmap_compose.
  by rewrite fold_left_fmap.
Qed.

Lemma TotalFailed_visit_fold visit :
  TotalFailed_visit visit =
    fold_left add64 ((λ c, c.1.2) <$> (counters <$> visit.*2)) 0.
Proof.
  unfold TotalFailed_visit. rewrite <- !list_fmap_compose.
  by rewrite fold_left_fmap.
Qed.

Lemma TotalRate_visit_fold visit :
  TotalRate_visit visit =
    fold_left PrimFloat.add ((λ s, Rate s.2) <$> visit) 0%float.
Proof. unfold TotalRate_visit. by rewrite fold_left_fmap. Qed.

(** The integer totals are the same in every visiting order. *)
Lemma TotalSucceeded_visit_ranges r visit :
  ranges (Scripts r) visit → TotalSucceeded_visit visit = TotalSucceeded r.
Proof.
  unfold ranges, TotalSucceeded. intros Hperm.
  rewrite !TotalSucceeded_visit_fold. apply fold_add64_perm.
  by rewrite Hperm.
Qed.

Lemma TotalFailed_visit_ranges r visit :
  ranges (Scripts r) visit → TotalFailed_visit visit = TotalFailed r.
Proof.
  unfold ranges, TotalFailed. intros Hperm.
  rewrite !TotalFailed_visit_fold. apply fold_add64_perm.
  by rewrite Hperm.
Qed.

(** ** [Add] over script names not seen before *)

Section FreshNames.
Context {Histogram Snapshot : Type} `{!hdrhistogram.API Histogram Snapshot}.
Implicit Types (h : gmap loc Histogram) (r : Result) (w : ScriptResult).

#[local] Arguments addScript : simpl never.

Lemma addScript_fresh w h r h1 r1 :
  Scripts r !! ScriptName w = None →
  addScript w (h, r) = Some (h1, r1) →
  ∃ c, Scripts r1 = <[ScriptName w := c]> (Scripts r) ∧ counters c = counters w.
Proof.
  intros Hname Hadd. unfold addScript in Hadd. rewrite Hname in Hadd.
  bind_inv Hadd. simplify_eq. by eexists.
Qed.

Lemma addScripts_fresh ws h r h' r' :
  NoDup (ScriptName <$> ws) →
  (∀ w, w ∈ ws → Scripts r !! ScriptName w = None) →
  addScripts ws (h, r) = Some (h', r') →
  counters <$> (map_to_list (Scripts r')).*2 ≡ₚ
    (counters <$> ws) ++ (counters <$> (map_to_list (Scripts r)).*2) ∧
  dom (Scripts r') = list_to_set (ScriptName <$> ws) ∪ dom (Scripts r).
Proof.
  revert h r. induction ws as [|w ws IH]; intros h r Hnd Hfresh Hadd.
  { simpl in Hadd. simplify_eq. split; [done|set_solver]. }
  rewrite fmap_cons in Hnd. apply NoDup_cons in Hnd as [Hw Hnd].
  simpl in Hadd. bind_inv Hadd. destruct p as [h1 r1].
  assert (Scripts r !! ScriptName w = None) as Hname
    by (apply Hfresh, elem_of_cons; by left).
  destruct (addScript_fresh _ _ _ _ _ Hname E) as (c & Hr1 & Hc).
  assert (∀ w', w' ∈ ws → Scripts r1 !! ScriptName w' = None) as Hfresh1.
  { intros w' Hw'. rewrite Hr1, lookup_insert_ne.
    - apply Hfresh, elem_of_cons. by right.
    - intros Heq. apply Hw. rewrite Heq. apply list_elem_of_fmap. by exists w'. }
  destruct (IH _ _ Hnd Hfresh1 Hadd) as [Hperm Hdom].
  split.
  - rewrite Hperm, Hr1. rewrite map_to_list_insert by done.
    rewrite !fmap_cons. simpl. rewrite Hc. by rewrite Permutation_middle.
  - rewrite Hdom, Hr1, dom_insert_L. set_solver.
Qed.

Lemma AddAll_fresh cs h r h' r' :
  NoDup (ScriptName <$> allScripts cs) →
  (∀ w, w ∈ allScripts cs → Scripts r !! ScriptName w = None) →
  AddAll cs (h, r) = Some (h', r') →
  counters <$> (map_to_list (Scripts r')).*2 ≡ₚ
    (counters <$> allScripts cs) ++ (counters <$> (map_to_list (Scripts r)).*2) ∧
  dom (Scripts r') = list_to_set (ScriptName <$> allScripts cs) ∪ dom (Scripts r).
Proof.
  unfold allScripts.
  revert h r. induction cs as [|res cs IH]; intros h r Hnd Hfresh Hall.
  { simpl in Hall. simplify_eq. split; [done|set_solver]. }
  rewrite bind_cons in Hnd, Hfresh. rewrite bind_cons.
  rewrite fmap_app in Hnd. apply NoDup_app in Hnd as (Hnd1 & Hsep & Hnd2).
  simpl in Hall. bind_inv Hall. destruct p as [h1 r1].
  apply Add_inv in E as (r2 & Hs & Hscripts & _).
  assert (∀ w, w ∈ WorkerResult.Scripts res → Scripts r !! ScriptName w = None)
    as Hfresh1 by (intros w Hw; apply Hfresh, elem_of_app; by left).
  destruct (addScripts_fresh _ _ _ _ _ Hnd1 Hfresh1 Hs) as [Hperm1 Hdom1].
  rewrite <- Hscripts in Hperm1, Hdom1.
  assert (∀ w, w ∈ cs ≫= WorkerResult.Scripts → Scripts r1 !! ScriptName w = None)
    as Hfresh2.
  { intros w Hw. apply not_elem_of_dom. rewrite Hdom1.
    apply not_elem_of_union. split.
    - rewrite elem_of_list_to_set. intros Hin.
      by apply (Hsep _ Hin), list_elem_of_fmap_2.
    - apply not_elem_of_dom, Hfresh, elem_of_app. by right. }
  destruct (IH _ _ Hnd2 Hfresh2 Hall) as [Hperm Hdom].
  split.
  - rewrite Hperm, Hperm1, fmap_app.
    rewrite !(assoc_L (++)). f_equiv. apply Permutation_app_comm.
  - rewrite Hdom, Hdom1, fmap_app, list_to_set_app_L. set_solver.
Qed.

Lemma fmap_allScripts {B} (f : ScriptResult → B) cs :
  f <$> allScripts cs = concat ((λ res, f <$> WorkerResult.Scripts res) <$> cs).
Proof.
  unfold allScripts. induction cs as [|res cs IH]; [done|].
  rewrite bind_cons, fmap_app, IH. done.
Qed.

(** The contributions' totals add up to the totals over all entries. *)
Lemma WorkerTotalSucceeded_sum cs :
  fold_left add64 (WorkerTotalSucceeded <$> cs) 0 =
  fold_left add64 (Succeeded <$> allScripts cs) 0.
Proof.
  rewrite fmap_allScripts, <- fold_add64_concat, <- list_fmap_compose. done.
Qed.

Lemma WorkerTotalFailed_sum cs :
  fold_left add64 (WorkerTotalFailed <$> cs) 0 =
  fold_left add64 (Failed <$> allScripts cs) 0.
Proof.
  rewrite fmap_allScripts, <- fold_add64_concat, <- list_fmap_compose. done.
Qed.

(** From a result without scripts, contributions with pairwise distinct
    script names leave exactly their own counters in the result, whatever
    the order of the calls. *)
Lemma AddAll_disjoint_counters cs cs' h db sc h' r' :
  cs' ≡ₚ cs → NoDup (ScriptName <$> allScripts cs) →
  AddAll cs' (h, NewResult db sc) = Some (h', r') →
  counters <$> (map_to_list (Scripts r')).*2 ≡ₚ counters <$> allScripts cs.
Proof.
  intros Hperm Hnd Hall.
  assert (allScripts cs' ≡ₚ allScripts cs) as Hall_perm
    by (unfold allScripts; by rewrite Hperm).
  rewrite <- Hall_perm in Hnd.
  destruct (AddAll_fresh cs' h (NewResult db sc) h' r' Hnd) as [Hcounters _];
    [done|done|].
  rewrite Hcounters. simpl. rewrite map_to_list_empty. simpl.
  by rewrite app_nil_r, Hall_perm.
Qed.

End FreshNames.

(** ** The claims about [Result.Add] *)

Section AggregationClaims.
Context {Histogram Snapshot : Type} `{!hdrhistogram.API Histogram Snapshot}.
Implicit Types (h : gmap loc Histogram) (r : Result) (w : ScriptResult).

(** C1.  [Add] processes each per-script entry [w] of a contribution as
    [script_outcome] says: when [w]'s name is not yet a key of [r.Scripts],
    a new [ScriptResult] is inserted with [w]'s [Rate], [Succeeded] and
    [Failed] and a newly allocated histogram holding a copy of [w]'s (so
    the copy is a deep one: the new location was unallocated before, and the
    contribution's own histograms are left as they were); when the key
    exists, [Rate], [Succeeded] and [Failed] are added to the existing
    entry and [w]'s histogram is merged into the existing one.  Entries
    under other names are untouched.  This holds whenever the pointers
    involved are allocated and the contribution shares no histogram with the
    accumulated result; [Add] then returns.  In particular, adding
    [{tx: Rate 10, Succeeded 100, Failed 0, H1}] and then
    [{tx: Rate 5, Succeeded 50, Failed 1, H2}] to a result without [tx]
    yields [{Rate 15, Succeeded 150, Failed 1}] under [tx], with the
    histogram [Merge (copy of H1) H2]. *)
Theorem Add_processes_each_script :
  (∀ h r res,
     wf_result h r → wf_worker h res →
     owns_histograms r → disjoint_histograms r (WorkerResult.Scripts res) →
     NoDup (ScriptName <$> WorkerResult.Scripts res) →
     ∃ h' r', Add res (h, r) = Some (h', r') ∧
       (∀ w, w ∈ WorkerResult.Scripts res → script_outcome h r h' r' w) ∧
       (∀ w, w ∈ WorkerResult.Scripts res →
             deref h' (Latencies w) = deref h (Latencies w)) ∧
       (∀ n, n ∉ ScriptName <$> WorkerResult.Scripts res →
             Scripts r' !! n = Scripts r !! n) ∧
       wf_result h' r' ∧ owns_histograms r' ∧
       disjoint_histograms r' (WorkerResult.Scripts res)) ∧
  (∀ h r p1 p2 H1 H2 groups1 groups2,
     Scripts r !! "tx" = None → h !! p1 = Some H1 → h !! p2 = Some H2 →
     ∃ h' r' l,
       AddAll
         [ {| WorkerResult.Scripts :=
                [ {| ScriptName := "tx"; Rate := 10; Succeeded := 100;
                     Failed := 0; Latencies := Some p1 |} ];
              WorkerResult.FailedByErrorGroup := groups1 |};
           {| WorkerResult.Scripts :=
                [ {| ScriptName := "tx"; Rate := 5; Succeeded := 50;
                     Failed := 1; Latencies := Some p2 |} ];
              WorkerResult.FailedByErrorGroup := groups2 |} ]
         (h, r) = Some (h', r') ∧
       h !! l = None ∧
       Scripts r' !! "tx" =
         Some {| ScriptName := "tx"; Rate := 15; Succeeded := 150;
                 Failed := 1; Latencies := Some l |} ∧
       h' !! l =
         Some (hdrhistogram.Merge
                 (hdrhistogram.Import (hdrhistogram.Export H1)) H2) ∧
       h' !! p1 = Some H1 ∧ h' !! p2 = Some H2).
Proof.
  split.
  - intros h r res Hwf Hres Howns Hdisj Hnd.
    destruct (addScripts_spec (WorkerResult.Scripts res) h r)
      as (h' & r1 & Hs & Houts & Hwf' & Howns' & Hdom' & Hnames & Hheap);
      try done.
    unfold wf_worker in Hres. rewrite Forall_forall in Hres.
    eexists h', _. unfold Add. rewrite Hs. simpl. split_and!; try done.
    + intros w Hw. pose proof (Hres w Hw) as Hvalid.
      apply valid_dom in Hvalid as (l & Hl & Hdom).
      rewrite Hl. simpl. apply Hheap; [done|].
      intros n c Hn Hc Heq. eapply Hdisj; [done|done|]. congruence.
    + intros n c w Hn Hw. simpl in Hn.
      destruct (decide (n ∈ ScriptName <$> WorkerResult.Scripts res)) as [Hin|Hout].
      * apply list_elem_of_fmap in Hin as (w0 & -> & Hw0).
        destruct (Houts w0 Hw0) as (hw0 & _ & Hcase).
        destruct (Scripts r !! ScriptName w0) as [c0|] eqn:Hc0.
        -- destruct Hcase as (lc & hc & Hlc & _ & _ & Hrec).
           rewrite Hrec in Hn. simplify_eq. simpl. rewrite <- Hlc.
           by eapply Hdisj.
        -- destruct Hcase as (l & Hl & _ & Hrec).
           rewrite Hrec in Hn. simplify_eq. simpl.
           pose proof (Hres w Hw) as Hvalid.
           apply valid_dom in Hvalid as (l' & Hl' & Hdom).
           rewrite Hl'. intros [= ->]. by apply not_elem_of_dom in Hl.
      * rewrite Hnames in Hn by done. by eapply Hdisj.
  - intros h r p1 p2 H1 H2 groups1 groups2 Htx Hp1 Hp2.
    pose proof (is_fresh (dom h)) as Hfresh.
    set (l := fresh (dom h)) in *.
    assert (h !! l = None) as Hl by (by apply not_elem_of_dom).
    assert (l ≠ p1) as Hl1 by congruence.
    assert (l ≠ p2) as Hl2 by congruence.
    eexists _, _, l. split_and!; [|exact Hl|..].
    + unfold AddAll, Add. cbn [WorkerResult.Scripts addScripts].
      erewrite addScript_new by done. fold l. cbn [mbind option_bind].
      erewrite addScript_known;
        [|by apply lookup_insert_eq|done|by apply lookup_insert_eq
         |simpl; by rewrite lookup_insert_ne].
      reflexivity.
    + simpl. by rewrite lookup_insert_eq.
    + by rewrite lookup_insert_eq.
    + by rewrite !lookup_insert_ne.
    + by rewrite !lookup_insert_ne.
Qed.

(** C2.  Once a failure group [g] is present in [r.FailedByErrorGroup],
    no sequence of [Add] calls changes its [FirstFailure], and its [Count]
    becomes the [int64] sum of its count and all the counts the
    contributions report for [g]; a group absent from [r] is inserted as
    the contribution gives it, and that [FirstFailure] then stays through
    the later calls.  The calls return whenever the pointers involved are
    allocated. *)
Theorem Add_keeps_first_failure h r g :
  (∀ fg0 cs h' r',
     FailedByErrorGroup r !! g = Some fg0 →
     AddAll cs (h, r) = Some (h', r') →
     FailedByErrorGroup r' !! g =
       Some {| Count := fold_left add64 (contributedCounts g cs) (Count fg0);
               FirstFailure := FirstFailure fg0 |} ∧
     (int64 (Count fg0) →
      fold_left add64 (contributedCounts g cs) (Count fg0) =
        wrap64 (Count fg0 + sumZ (contributedCounts g cs)))) ∧
  (∀ res group cs h' r',
     FailedByErrorGroup r !! g = None →
     NoDup (WorkerResult.FailedByErrorGroup res).*1 →
     (g, group) ∈ WorkerResult.FailedByErrorGroup res →
     AddAll (res :: cs) (h, r) = Some (h', r') →
     (cs = [] → FailedByErrorGroup r' !! g = Some group) ∧
     FailedByErrorGroup r' !! g =
       Some {| Count := fold_left add64 (contributedCounts g cs) (Count group);
               FirstFailure := FirstFailure group |}) ∧
  (∀ cs, wf_result h r → Forall (wf_worker h) cs →
         is_Some (AddAll cs (h, r))).
Proof.
  split_and!.
  - intros fg0 cs h' r' Hg Hall. split.
    + by eapply AddAll_groups.
    + intros Hrange. by apply fold_add64_sum.
  - intros res group cs h' r' Hg Hnd Hin Hall.
    simpl in Hall. bind_inv Hall. destruct p as [h1 r1].
    apply Add_inv in E as (r2 & _ & _ & _ & _ & Hgroups).
    assert (FailedByErrorGroup r1 !! g = Some group) as Hg1.
    { rewrite Hgroups. by apply fold_addGroup_absent. }
    split.
    + intros ->. simpl in Hall. by simplify_eq.
    + by eapply AddAll_groups.
  - intros cs Hwf Hcs.
    destruct (AddAll_total cs h r Hwf Hcs) as (h' & r' & -> & _). eauto.
Qed.

(** C8, as amended.  Contributions with pairwise distinct script names are
    added to a new [Result], in any order of the calls.  The calls return;
    [TotalSucceeded] and [TotalFailed] are the [int64] sums of the
    contributions' own totals, in every visiting order of the map; and
    [TotalRate] is the [float64] sum, accumulated in the visiting order, of
    exactly the rates the contributions carry.  (That sum is the sum of the
    contributions' rate totals up to floating-point rounding only:
    [TotalRate_differs_between_visits].) *)
Theorem Add_totals_of_disjoint_contributions h db sc cs cs' :
  cs' ≡ₚ cs →
  NoDup (ScriptName <$> allScripts cs) →
  Forall (wf_worker h) cs →
  ∃ h' r', AddAll cs' (h, NewResult db sc) = Some (h', r') ∧
    TotalSucceeded r' = fold_left add64 (WorkerTotalSucceeded <$> cs) 0 ∧
    TotalFailed r' = fold_left add64 (WorkerTotalFailed <$> cs) 0 ∧
    ∀ visit, ranges (Scripts r') visit →
      TotalSucceeded_visit visit = TotalSucceeded r' ∧
      TotalFailed_visit visit = TotalFailed r' ∧
      TotalRate_visit visit =
        fold_left PrimFloat.add ((λ s, Rate s.2) <$> visit) 0%float ∧
      (λ s, Rate s.2) <$> visit ≡ₚ Rate <$> allScripts cs.
Proof.
  intros Hperm Hnd Hcs.
  destruct (AddAll_total cs' h (NewResult db sc)) as (h' & r' & Hall & _).
  { by intros n c Hn. }
  { by rewrite Hperm. }
  pose proof (AddAll_disjoint_counters _ _ _ _ _ _ _ Hperm Hnd Hall) as Hcounters.
  exists h', r'. split_and!; [done|..].
  - unfold TotalSucceeded. rewrite TotalSucceeded_visit_fold.
    rewrite WorkerTotalSucceeded_sum. apply fold_add64_perm.
    rewrite Hcounters, <- list_fmap_compose. done.
  - unfold TotalFailed. rewrite TotalFailed_visit_fold.
    rewrite WorkerTotalFailed_sum. apply fold_add64_perm.
    rewrite Hcounters, <- list_fmap_compose. done.
  - intros visit Hvisit. split_and!.
    + by apply TotalSucceeded_visit_ranges.
    + by apply TotalFailed_visit_ranges.
    + apply TotalRate_visit_fold.
    + unfold ranges in Hvisit. rewrite Hvisit.
      transitivity ((λ c, c.1.1) <$> (counters <$> (map_to_list (Scripts r')).*2)).
      { by rewrite <- !list_fmap_compose. }
      rewrite Hcounters, <- list_fmap_compose. done.
Qed.

End AggregationClaims.

(** ** Further properties of [Add] *)

(** *** Totals *)

Lemma sumOver_insert_new f m k v :
  m !! k = None → sumOver f (<[k := v]> m) = f v + sumOver f m.
Proof.
  intros Hk. unfold sumOver.
  rewrite (sumZ_perm _ (f <$> ((k, v) :: map_to_list m).*2)).
  - done.
  - by rewrite map_to_list_insert.
Qed.

Lemma sumOver_insert_known f m k c v :
  m !! k = Some c → sumOver f (<[k := v]> m) = f v + (sumOver f m - f c).
Proof.
  intros Hk.
  rewrite <- (insert_delete_eq m k v).
  rewrite sumOver_insert_new by apply lookup_delete_eq.
  rewrite <- (insert_delete_id m k c) at 2 by done.
  rewrite (sumOver_insert_new f (delete k m) k c) by apply lookup_delete_eq.
  lia.
Qed.

Lemma TotalSucceeded_sumOver r : TotalSucceeded r = wrap64 (sumOver Succeeded (Scripts r)).
Proof.
  unfold TotalSucceeded, TotalSucceeded_visit, sumOver.
  rewrite <- (fold_left_fmap add64 (λ s : string * ScriptResult, Succeeded s.2)).
  rewrite fold_add64_sum by (unfold int64; lia).
  by rewrite Z.add_0_l, <- list_fmap_compose.
Qed.

Lemma TotalFailed_sumOver r : TotalFailed r = wrap64 (sumOver Failed (Scripts r)).
Proof.
  unfold TotalFailed, TotalFailed_visit, sumOver.
  rewrite <- (fold_left_fmap add64 (λ s : string * ScriptResult, Failed s.2)).
  rewrite fold_add64_sum by (unfold int64; lia).
  by rewrite Z.add_0_l, <- list_fmap_compose.
Qed.

Lemma TotalSucceeded_int64 r : int64 (TotalSucceeded r).
Proof. rewrite TotalSucceeded_sumOver. apply wrap64_int64. Qed.

Lemma TotalFailed_int64 r : int64 (TotalFailed r).
Proof. rewrite TotalFailed_sumOver. apply wrap64_int64. Qed.

Section TotalsUnderAdd.
Context {Histogram Snapshot : Type} `{!hdrhistogram.API Histogram Snapshot}.
Implicit Types (h : gmap loc Histogram) (r : Result) (w : ScriptResult).

Lemma addScript_sums w h r h1 r1 :
  addScript w (h, r) = Some (h1, r1) →
  wrap64 (sumOver Succeeded (Scripts r1)) =
    wrap64 (sumOver Succeeded (Scripts r) + Succeeded w) ∧
  wrap64 (sumOver Failed (Scripts r1)) =
    wrap64 (sumOver Failed (Scripts r) + Failed w).
Proof.
  unfold addScript. intros Hadd.
  destruct (Scripts r !! ScriptName w) as [c|] eqn:Hc; bind_inv Hadd; simplify_eq; simpl.
  - rewrite !(sumOver_insert_known _ _ _ c) by done. simpl. unfold add64.
    split.
    + rewrite wrap64_add_l. f_equal. lia.
    + rewrite wrap64_add_l. f_equal. lia.
  - rewrite !sumOver_insert_new by done. simpl. split; f_equal; lia.
Qed.

Lemma addScripts_sums ws h r h' r' :
  addScripts ws (h, r) = Some (h', r') →
  wrap64 (sumOver Succeeded (Scripts r')) =
    wrap64 (sumOver Succeeded (Scripts r) + sumZ (Succeeded <$> ws)) ∧
  wrap64 (sumOver Failed (Scripts r')) =
    wrap64 (sumOver Failed (Scripts r) + sumZ (Failed <$> ws)).
Proof.
  revert h r. induction ws as [|w ws IH]; intros h r Hadd; simpl in Hadd.
  - simplify_eq. simpl. by rewrite !Z.add_0_r.
  - bind_inv Hadd. destruct p as [h1 r1].
    destruct (IH _ _ Hadd) as [Hs Hf].
    destruct (addScript_sums _ _ _ _ _ E) as [Hs1 Hf1].
    rewrite Hs, Hf. rewrite !fmap_cons. cbn [sumZ foldr].
    fold (sumZ (Succeeded <$> ws)). fold (sumZ (Failed <$> ws)).
    split.
    + rewrite <- wrap64_add_l, Hs1, wrap64_add_l. f_equal. lia.
    + rewrite <- wrap64_add_l, Hf1, wrap64_add_l. f_equal. lia.
Qed.

Lemma Add_totals res h r h' r' :
  Add res (h, r) = Some (h', r') →
  TotalSucceeded r' = add64 (TotalSucceeded r) (WorkerTotalSucceeded res) ∧
  TotalFailed r' = add64 (TotalFailed r) (WorkerTotalFailed res).
Proof.
  intros Hadd. apply Add_inv in Hadd as (r1 & Hs & Hscripts & _).
  destruct (addScripts_sums _ _ _ _ _ Hs) as [Hsucc Hfail].
  rewrite !TotalSucceeded_sumOver, !TotalFailed_sumOver, Hscripts.
  unfold WorkerTotalSucceeded, WorkerTotalFailed, add64.
  rewrite !fold_add64_sum by (unfold int64; lia).
  rewrite !Z.add_0_l, !wrap64_add_l, !wrap64_add_r. done.
Qed.

(** X1.  Whatever the result holds already, and whether or not the
    contribution's script names are new, [Add] adds the contribution's
    totals to the result's totals, in [int64] arithmetic.  So after any
    sequence of calls the totals are those the result had plus the totals
    of all the contributions: the names need not be distinct. *)
Theorem Add_adds_totals h r :
  (∀ res h' r',
     Add res (h, r) = Some (h', r') →
     TotalSucceeded r' = add64 (TotalSucceeded r) (WorkerTotalSucceeded res) ∧
     TotalFailed r' = add64 (TotalFailed r) (WorkerTotalFailed res)) ∧
  (∀ cs h' r',
     AddAll cs (h, r) = Some (h', r') →
     TotalSucceeded r' =
       add64 (TotalSucceeded r) (fold_left add64 (WorkerTotalSucceeded <$> cs) 0) ∧
     TotalFailed r' =
       add64 (TotalFailed r) (fold_left add64 (WorkerTotalFailed <$> cs) 0)).
Proof.
  split; [intros res h' r'; apply Add_totals|].
  intros cs. revert h r. induction cs as [|res cs IH]; intros h r h' r' Hall.
  - simpl in Hall. simplify_eq. simpl. unfold add64. rewrite !Z.add_0_r.
    by rewrite !wrap64_id by (apply TotalSucceeded_int64 || apply TotalFailed_int64).
  - simpl in Hall. bind_inv Hall. destruct p as [h1 r1].
    destruct (Add_totals _ _ _ _ _ E) as [Hs1 Hf1].
    destruct (IH _ _ _ _ Hall) as [-> ->]. rewrite Hs1, Hf1.
    rewrite !fmap_cons, !fold_add64_sum by (unfold int64; lia).
    unfold add64. rewrite !Z.add_0_l. cbn [sumZ foldr].
    fold (sumZ (WorkerTotalSucceeded <$> cs)). fold (sumZ (WorkerTotalFailed <$> cs)).
    rewrite !wrap64_add_l, !wrap64_add_r.
    split; f_equal; lia.
Qed.

End TotalsUnderAdd.

(** *** What [Add] keeps, and when it panics *)

Section AddEdges.
Context {Histogram Snapshot : Type} `{!hdrhistogram.API Histogram Snapshot}.
Implicit Types (h : gmap loc Histogram) (r : Result) (w : ScriptResult).

Lemma addScript_nil w h r : Latencies w = None → addScript w (h, r) = None.
Proof.
  intros Hnil. unfold addScript. rewrite Hnil.
  destruct (Scripts r !! ScriptName w) as [c|]; [|done].
  destruct (Latencies c) as [lc|]; [|done]. simpl.
  by destruct (h !! lc).
Qed.

#[local] Arguments addScript : simpl never.

Lemma addScripts_None ws h r :
  wf_result h r →
  Forall (λ w, Latencies w = None ∨ valid h (Latencies w)) ws →
  addScripts ws (h, r) = None ↔ ∃ w, w ∈ ws ∧ Latencies w = None.
Proof.
  revert h r. induction ws as [|w ws IH]; intros h r Hwf Hws.
  { simpl. split; [done|]. intros (w & Hw & _). by apply elem_of_nil in Hw. }
  apply Forall_cons in Hws as [Hw Hws]. simpl.
  destruct Hw as [Hnil|Hvalid].
  - rewrite addScript_nil by done. simpl. split; [|done].
    intros _. exists w. split; [apply elem_of_cons; by left|done].
  - destruct (addScript_total w h r Hwf Hvalid) as [[h1 r1] Hstep].
    rewrite Hstep. simpl.
    destruct (addScript_wf _ _ _ _ _ Hwf Hstep) as [Hwf1 Hdom1].
    rewrite IH; [|done|].
    2:{ eapply Forall_impl; [exact Hws|]. intros w' [?|?]; [by left|right].
        by eapply valid_mono. }
    split; intros (w' & Hw' & Hnil).
    + exists w'. split; [apply elem_of_cons; by right|done].
    + apply elem_of_cons in Hw' as [->|Hw'].
      * apply valid_dom in Hvalid as (l & Hl & _). congruence.
      * by exists w'.
Qed.

(** X2.  [Add] panics exactly when an entry of the contribution has no
    histogram: [Latencies] is nil. *)
Theorem Add_panics_on_nil_histogram res h r :
  wf_result h r →
  Forall (λ w, Latencies w = None ∨ valid h (Latencies w)) (WorkerResult.Scripts res) →
  Add res (h, r) = None ↔
  ∃ w, w ∈ WorkerResult.Scripts res ∧ Latencies w = None.
Proof.
  intros Hwf Hws. rewrite <- (addScripts_None _ h r) by done.
  unfold Add.
  destruct (addScripts (WorkerResult.Scripts res) (h, r)) as [[h1 r1]|]; by simpl.
Qed.

Lemma addScript_names w h r h1 r1 :
  addScript w (h, r) = Some (h1, r1) →
  dom (Scripts r1) = dom (Scripts r) ∪ {[ ScriptName w ]} ∧
  dom h ⊆ dom h1 ∧
  (∀ name c, Scripts r !! name = Some c →
     ∃ c', Scripts r1 !! name = Some c' ∧
           ScriptName c' = ScriptName c ∧ Latencies c' = Latencies c) ∧
  (keyed_by_name r → keyed_by_name r1).
Proof.
  unfold addScript. intros Hadd.
  destruct (Scripts r !! ScriptName w) as [c|] eqn:Hc; bind_inv Hadd; simplify_eq; simpl.
  - split_and!.
    + rewrite dom_insert_L. set_solver.
    + rewrite dom_insert. set_solver.
    + intros name c' Hname. destruct (decide (name = ScriptName w)) as [->|Hne].
      * rewrite lookup_insert_eq. simplify_eq. by eexists.
      * rewrite lookup_insert_ne by done. by eexists.
    + intros Hkeyed name c' Hname. simpl in Hname.
      apply lookup_insert_Some in Hname as [[<- <-]|[Hne Hname]]; simpl; eauto.
  - split_and!.
    + rewrite dom_insert_L. set_solver.
    + rewrite dom_insert. set_solver.
    + intros name c' Hname. destruct (decide (name = ScriptName w)) as [->|Hne].
      * congruence.
      * rewrite lookup_insert_ne by done. by eexists.
    + intros Hkeyed name c' Hname. simpl in Hname.
      apply lookup_insert_Some in Hname as [[<- <-]|[Hne Hname]]; simpl; eauto.
Qed.

Lemma addScripts_names ws h r h' r' :
  addScripts ws (h, r) = Some (h', r') →
  dom (Scripts r') = dom (Scripts r) ∪ list_to_set (ScriptName <$> ws) ∧
  dom h ⊆ dom h' ∧
  (∀ name c, Scripts r !! name = Some c →
     ∃ c', Scripts r' !! name = Some c' ∧
           ScriptName c' = ScriptName c ∧ Latencies c' = Latencies c) ∧
  (keyed_by_name r → keyed_by_name r').
Proof.
  revert h r. induction ws as [|w ws IH]; intros h r Hadd; simpl in Hadd.
  - simplify_eq. split_and!; [set_solver|done|eauto|done].
  - bind_inv Hadd. destruct p as [h1 r1].
    destruct (addScript_names _ _ _ _ _ E) as (Hdom1 & Hheap1 & Hkept1 & Hkeyed1).
    destruct (IH _ _ Hadd) as (Hdom & Hheap & Hkept & Hkeyed).
    split_and!.
    + rewrite Hdom, Hdom1, fmap_cons. set_solver.
    + set_solver.
    + intros name c Hname.
      destruct (Hkept1 _ _ Hname) as (c1 & Hc1 & Hn1 & Hl1).
      destruct (Hkept _ _ Hc1) as (c' & Hc' & Hn' & Hl').
      exists c'. split_and!; congruence.
    + auto.
Qed.

Lemma dom_addGroup groups entry :
  dom (addGroup groups entry) = dom groups ∪ {[ entry.1 ]}.
Proof.
  destruct entry as [name group]. unfold addGroup.
  destruct (groups !! name); rewrite dom_insert_L; set_solver.
Qed.

Lemma dom_fold_addGroup l groups :
  dom (fold_left addGroup l groups) = dom groups ∪ list_to_set l.*1.
Proof.
  revert groups. induction l as [|entry l IH]; intros groups; simpl.
  - set_solver.
  - rewrite IH, dom_addGroup. set_solver.
Qed.

(** X3.  [Add] only adds.  The database name and the scenario stay; the
    script names of the result are those it had and those of the
    contribution, its failure groups those it had and those of the
    contribution; a script the result had keeps its name and its
    histogram; no histogram is freed. *)
Theorem Add_only_adds res h r h' r' :
  Add res (h, r) = Some (h', r') →
  DatabaseName r' = DatabaseName r ∧ Scenario r' = Scenario r ∧
  dom (Scripts r') =
    dom (Scripts r) ∪ list_to_set (ScriptName <$> WorkerResult.Scripts res) ∧
  dom (FailedByErrorGroup r') =
    dom (FailedByErrorGroup r) ∪ list_to_set (WorkerResult.FailedByErrorGroup res).*1 ∧
  (∀ name c, Scripts r !! name = Some c →
     ∃ c', Scripts r' !! name = Some c' ∧
           ScriptName c' = ScriptName c ∧ Latencies c' = Latencies c) ∧
  dom h ⊆ dom h'.
Proof.
  intros Hadd. apply Add_inv in Hadd as (r1 & Hs & Hscripts & Hdb & Hsc & Hgroups).
  destruct (addScripts_names _ _ _ _ _ Hs) as (Hdom & Hheap & Hkept & _).
  split_and!; try done.
  - by rewrite Hscripts.
  - rewrite Hgroups. apply dom_fold_addGroup.
  - by rewrite Hscripts.
Qed.

(** X4.  In a result built by [NewResult] and [Add] alone, every script is
    stored under its own name: the key of an entry of [Scripts] is the
    [ScriptName] of the record. *)
Theorem AddAll_keyed_by_name cs h db sc h' r' :
  AddAll cs (h, NewResult db sc) = Some (h', r') → keyed_by_name r'.
Proof.
  assert (∀ cs h r h' r', keyed_by_name r → AddAll cs (h, r) = Some (h', r') →
            keyed_by_name r') as Hgen.
  { clear. induction cs as [|res cs IH]; intros h r h' r' Hkeyed Hall; simpl in Hall.
    - by simplify_eq.
    - bind_inv Hall. destruct p as [h1 r1]. eapply IH; [|exact Hall].
      apply Add_inv in E as (r2 & Hs & Hscripts & _).
      apply addScripts_names in Hs as (_ & _ & _ & Hk).
      intros name c. rewrite Hscripts. by apply Hk. }
  apply Hgen. intros name c Hname. simpl in Hname. by rewrite lookup_empty in Hname.
Qed.

Lemma addScript_withGroups w h r groups :
  addScript w (h, withGroups groups r) =
    prod_map id (withGroups groups) <$> addScript w (h, r).
Proof.
  unfold addScript. simpl.
  destruct (Scripts r !! ScriptName w) as [c|]; simpl.
  - destruct (Latencies c) as [lc|]; [|done]. simpl.
    destruct (h !! lc); [|done]. simpl.
    by destruct (deref h (Latencies w)).
  - by destruct (deref h (Latencies w)).
Qed.

Lemma addScripts_withGroups ws h r groups :
  addScripts ws (h, withGroups groups r) =
    prod_map id (withGroups groups) <$> addScripts ws (h, r).
Proof.
  revert h r. induction ws as [|w ws IH]; intros h r; simpl; [done|].
  rewrite addScript_withGroups.
  destruct (addScript w (h, r)) as [[h1 r1]|]; simpl; [apply IH|done].
Qed.

Lemma addScripts_app ws1 ws2 (st : gmap loc Histogram * Result) :
  addScripts (ws1 ++ ws2) st = addScripts ws1 st ≫= addScripts ws2.
Proof.
  revert st. induction ws1 as [|w ws1 IH]; intros st; simpl.
  - by destruct (addScripts ws2 st).
  - destruct (addScript w st) as [st1|]; simpl; [apply IH|done].
Qed.

(** X5.  A contribution added in two parts, the first scripts and groups and
    then the others, leaves what adding it whole leaves. *)
Theorem Add_in_two_parts ws1 ws2 gs1 gs2 (st : gmap loc Histogram * Result) :
  Add {| WorkerResult.Scripts := ws1 ++ ws2;
         WorkerResult.FailedByErrorGroup := gs1 ++ gs2 |} st =
  Add {| WorkerResult.Scripts := ws1; WorkerResult.FailedByErrorGroup := gs1 |} st
    ≫= Add {| WorkerResult.Scripts := ws2; WorkerResult.FailedByErrorGroup := gs2 |}.
Proof.
  destruct st as [h r]. unfold Add. simpl. rewrite addScripts_app.
  destruct (addScripts ws1 (h, r)) as [[h1 r1]|] eqn:E1; simpl; [|done].
  change {| DatabaseName := DatabaseName r1; Scenario := Scenario r1;
            FailedByErrorGroup := fold_left addGroup gs1 (FailedByErrorGroup r1);
            Scripts := Scripts r1 |}
    with (withGroups (fold_left addGroup gs1 (FailedByErrorGroup r1)) r1).
  rewrite addScripts_withGroups.
  destruct (addScripts ws2 (h1, r1)) as [[h2 r2]|] eqn:E2; simpl; [|done].
  apply addScripts_frame in E2 as (_ & _ & ->).
  by rewrite fold_left_app.
Qed.

End AddEdges.

(** *** Concrete instances, on the reference histogram *)

#[local] Existing Instance Reference.samples.

Lemma Add_processes_each_script_witness :
  let h0 : gmap loc (list Z) := {[ 1%positive := [900; 1100]; 2%positive := [500] ]} in
  let r0 :=
    {| DatabaseName := "neo4j"; Scenario := "-w tx";
       FailedByErrorGroup := ∅;
       Scripts := {[ "tx" := {| ScriptName := "tx"; Rate := 10; Succeeded := 100;
                                Failed := 0; Latencies := Some 1%positive |} ]} |} in
  let res :=
    {| WorkerResult.Scripts :=
         [ {| ScriptName := "tx"; Rate := 5; Succeeded := 50; Failed := 1;
              Latencies := Some 2%positive |};
           {| ScriptName := "rx"; Rate := 2; Succeeded := 7; Failed := 0;
              Latencies := Some 2%positive |} ];
       WorkerResult.FailedByErrorGroup := [] |} in
  (wf_result h0 r0 ∧ wf_worker h0 res ∧ owns_histograms r0 ∧
   disjoint_histograms r0 (WorkerResult.Scripts res) ∧
   NoDup (ScriptName <$> WorkerResult.Scripts res)) ∧
  ∃ h' r', Add res (h0, r0) = Some (h', r') ∧
    (∀ w, w ∈ WorkerResult.Scripts res → script_outcome h0 r0 h' r' w) ∧
    (∀ w, w ∈ WorkerResult.Scripts res →
          deref h' (Latencies w) = deref h0 (Latencies w)) ∧
    (∀ n, n ∉ ScriptName <$> WorkerResult.Scripts res →
          Scripts r' !! n = Scripts r0 !! n) ∧
    wf_result h' r' ∧ owns_histograms r' ∧
    disjoint_histograms r' (WorkerResult.Scripts res).
Proof.
  intros h0 r0 res.
  assert (wf_result h0 r0) as Hwf.
  { intros n c Hn. simpl in Hn. apply lookup_singleton_Some in Hn as [<- <-].
    by eexists. }
  assert (wf_worker h0 res) as Hres.
  { repeat constructor; by eexists. }
  assert (owns_histograms r0) as Howns.
  { intros n1 n2 c1 c2 H1 H2 _. simpl in H1, H2.
    apply lookup_singleton_Some in H1 as [<- _].
    by apply lookup_singleton_Some in H2 as [<- _]. }
  assert (disjoint_histograms r0 (WorkerResult.Scripts res)) as Hdisj.
  { intros n c w Hn Hw. simpl in Hn, Hw.
    apply lookup_singleton_Some in Hn as [<- <-].
    repeat (apply elem_of_cons in Hw as [->|Hw]); try done.
    by apply elem_of_nil in Hw. }
  assert (NoDup (ScriptName <$> WorkerResult.Scripts res)) as Hnd.
  { by apply (bool_decide_unpack _). }
  split; [done|].
  by apply (proj1 (Add_processes_each_script (Histogram := list Z))).
Defined.

Lemma Add_keeps_first_failure_witness :
  let h0 : gmap loc (list Z) := ∅ in
  let r0 :=
    {| DatabaseName := "neo4j"; Scenario := "-w tx";
       FailedByErrorGroup :=
         {[ "timeout" := {| Count := 2; FirstFailure := "first" |} ]};
       Scripts := ∅ |} in
  let cs :=
    [ {| WorkerResult.Scripts := [];
         WorkerResult.FailedByErrorGroup :=
           [("timeout", {| Count := 3; FirstFailure := "second" |})] |};
      {| WorkerResult.Scripts := [];
         WorkerResult.FailedByErrorGroup :=
           [("deadlock", {| Count := 1; FirstFailure := "cycle" |});
            ("timeout", {| Count := 4; FirstFailure := "third" |})] |} ] in
  (FailedByErrorGroup r0 !! "timeout" =
     Some {| Count := 2; FirstFailure := "first" |} ∧
   wf_result h0 r0 ∧ Forall (wf_worker h0) cs) ∧
  ∃ h' r', AddAll cs (h0, r0) = Some (h', r') ∧
    FailedByErrorGroup r' !! "timeout" =
      Some {| Count := 9; FirstFailure := "first" |}.
Proof.
  intros h0 r0 cs.
  assert (FailedByErrorGroup r0 !! "timeout" =
            Some {| Count := 2; FirstFailure := "first" |}) as Hg
    by reflexivity.
  assert (wf_result h0 r0) as Hwf by (by intros n c Hn).
  assert (Forall (wf_worker h0) cs) as Hcs by (by repeat constructor).
  split; [done|].
  destruct (Add_keeps_first_failure h0 r0 "timeout") as (Hkept & _ & Htotal).
  destruct (Htotal cs Hwf Hcs) as [[h' r'] Hall].
  exists h', r'. split; [done|].
  by destruct (Hkept _ _ _ _ Hg Hall) as [-> _].
Defined.

Lemma Add_totals_of_disjoint_contributions_witness :
  let h0 : gmap loc (list Z) := {[ 1%positive := [900; 1100] ]} in
  let script name rate succeeded failed :=
    {| WorkerResult.Scripts :=
         [ {| ScriptName := name; Rate := rate; Succeeded := succeeded;
              Failed := failed; Latencies := Some 1%positive |} ];
       WorkerResult.FailedByErrorGroup := [] |} in
  let c1 := script "a" 10%float 100 0 in
  let c2 := script "b" 5%float 50 1 in
  let c3 := script "c" 2.5%float 7 3 in
  ([c2; c1; c3] ≡ₚ [c1; c2; c3] ∧
   NoDup (ScriptName <$> allScripts [c1; c2; c3]) ∧
   Forall (wf_worker h0) [c1; c2; c3]) ∧
  ∃ h' r', AddAll [c2; c1; c3] (h0, NewResult "neo4j" "-w mix") = Some (h', r') ∧
    TotalSucceeded r' = 157 ∧
    TotalFailed r' = 4 ∧
    ∀ visit, ranges (Scripts r') visit →
      TotalSucceeded_visit visit = TotalSucceeded r' ∧
      TotalFailed_visit visit = TotalFailed r' ∧
      TotalRate_visit visit =
        fold_left PrimFloat.add ((λ s, Rate s.2) <$> visit) 0%float ∧
      (λ s, Rate s.2) <$> visit ≡ₚ [10; 5; 2.5]%float.
Proof.
  intros h0 script c1 c2 c3.
  assert ([c2; c1; c3] ≡ₚ [c1; c2; c3]) as Hperm by apply perm_swap.
  assert (NoDup (ScriptName <$> allScripts [c1; c2; c3])) as Hnd
    by (by apply (bool_decide_unpack _)).
  assert (Forall (wf_worker h0) [c1; c2; c3]) as Hcs
    by (repeat constructor; by eexists).
  split; [done|].
  exact (Add_totals_of_disjoint_contributions h0 "neo4j" "-w mix"
           [c1; c2; c3] [c2; c1; c3] Hperm Hnd Hcs).
Defined.

(** C8, as stated, fails for [TotalRate]: three contributions with the
    rates 0.1, 0.2 and 0.3 under three script names.  Visiting the
    resulting map as [a, b, c] totals the sum of the contributions' rates;
    visiting the same map as [c, b, a] totals another [float64]. *)
Lemma TotalRate_differs_between_visits :
  let h0 : gmap loc (list Z) := {[ 1%positive := [900; 1100] ]} in
  let script name rate :=
    {| ScriptName := name; Rate := rate; Succeeded := 1; Failed := 0;
       Latencies := Some 1%positive |} in
  let contribution name rate :=
    {| WorkerResult.Scripts := [script name rate];
       WorkerResult.FailedByErrorGroup := [] |} in
  let cs := [contribution "a" 0.1; contribution "b" 0.2; contribution "c" 0.3]%float in
  ∃ h' r' visit1 visit2,
    NoDup (ScriptName <$> allScripts cs) ∧
    AddAll cs (h0, NewResult "neo4j" "-w mix") = Some (h', r') ∧
    ranges (Scripts r') visit1 ∧ ranges (Scripts r') visit2 ∧
    visit1.*1 = ["a"; "b"; "c"] ∧ visit2.*1 = ["c"; "b"; "a"] ∧
    TotalRate_visit visit1 =
      fold_left PrimFloat.add (WorkerTotalRate <$> cs) 0%float ∧
    TotalRate_visit visit2 ≠
      fold_left PrimFloat.add (WorkerTotalRate <$> cs) 0%float.
Proof.
  intros h0 script contribution cs.
  set (stored name rate l :=
         (name, {| ScriptName := name; Rate := rate; Succeeded := 1; Failed := 0;
                   Latencies := Some l |})).
  set (a := stored "a" 0.1%float 2%positive).
  set (b := stored "b" 0.2%float 3%positive).
  set (c := stored "c" 0.3%float 4%positive).
  eexists _, _, [a; b; c], [c; b; a]. split_and!.
  - by apply (bool_decide_unpack _).
  - vm_compute. reflexivity.
  - unfold ranges. vm_compute.
    etransitivity; [apply perm_skip, perm_swap|]. apply perm_swap.
  - unfold ranges. vm_compute. apply perm_skip, perm_swap.
  - reflexivity.
  - reflexivity.
  - reflexivity.
  - intros Heq.
    assert (PrimFloat.eqb (TotalRate_visit [c; b; a])
              (fold_left PrimFloat.add (WorkerTotalRate <$> cs) 0%float) = false)
      as Hne by reflexivity.
    rewrite Heq in Hne. vm_compute in Hne. discriminate.
Qed.

(** ** The error report *)

Lemma append_empty_r (s : string) : s +:+ "" = s.
Proof.
  induction s as [|c s IH]; [reflexivity|].
  change (String c (s +:+ "") = String c s). by f_equal.
Qed.

Lemma append_inj_l (s a b : string) : s +:+ a = s +:+ b → a = b.
Proof.
  induction s as [|c s IH]; simpl; intros Heq; [done|].
  apply IH. by injection Heq.
Qed.

Section ErrorReport.
Context {Histogram Snapshot : Type} `{!hdrhistogram.API Histogram Snapshot}.
Context `{!GoFmt}.

(** The report with its own [range]: the visiting order is the
    environment's. *)
Lemma writeErrorReportM_spec (r : Result) env (w : World (Histogram := Histogram)) :
  writeErrorReportM r env w =
    if TotalFailed r =? 0 then Done (writeErrorReport r []) w
    else Done (writeErrorReport r (range_groups env (steps w) (FailedByErrorGroup r)))
              (tick w).
Proof. unfold writeErrorReportM. by destruct (TotalFailed r =? 0). Qed.

(** C7.  [writeErrorReport], with the [range] of its line 273, returns
    without writing; [groups] is the order in which that [range] visits
    [FailedByErrorGroup], every group of the map exactly once.  The report
    is the heading followed by the single line [No errors!], and nothing
    else (no causes section), exactly when [TotalFailed] is 0.  Otherwise
    it states the failed count and the percentage
    [100*failed/(failed+succeeded)], then the heading of the causes and,
    for each failure group the [range] visits, one line with its name and
    count and one with its [FirstFailure]. *)
Theorem writeErrorReport_summary (r : Result) env (w : World (Histogram := Histogram)) :
  env_ranges env →
  let no_errors := "Error stats:" +:+ nl +:+ "  No errors!" +:+ nl in
  let groups := range_groups env (steps w) (FailedByErrorGroup r) in
  ∃ report w',
    writeErrorReportM r env w = Done report w' ∧
    written w' = written w ∧ heap w' = heap w ∧
    (report = no_errors ↔ TotalFailed r = 0) ∧
    index 0 "Causes:" no_errors = None ∧
    (TotalFailed r ≠ 0 →
       report =
         "Error stats:" +:+ nl +:+
         "  Failed transactions: " +:+ Sprint_d (TotalFailed r) +:+ " (" +:+
           FormatFloat 3
             (100 * float64_of_int64 (TotalFailed r)
              / float64_of_int64 (add64 (TotalFailed r) (TotalSucceeded r)))%float
           +:+ " %)" +:+ nl +:+
         nl +:+
         "  Causes:" +:+ nl +:+
         String.concat ""
           ((λ cause : string * FailureGroup,
               "    " +:+ cause.1 +:+ ": " +:+ Sprint_d (Count cause.2) +:+
                 " failures" +:+ nl +:+
               "      (ex: " +:+ FirstFailure cause.2 +:+ ")" +:+ nl) <$> groups) ∧
       NoDup groups.*1 ∧ length groups = size (FailedByErrorGroup r) ∧
       ∀ name group,
         FailedByErrorGroup r !! name = Some group ↔ (name, group) ∈ groups).
Proof.
  intros Henv no_errors groups.
  assert (ranges (FailedByErrorGroup r) groups) as Hperm by apply Henv.
  unfold ranges in Hperm.
  rewrite writeErrorReportM_spec. fold groups.
  destruct (TotalFailed r =? 0) eqn:Hz.
  - exists (writeErrorReport r []), w. split_and!; try done.
    + unfold writeErrorReport. rewrite Hz. split; [lia|done].
    + lia.
  - exists (writeErrorReport r groups), (tick w). split_and!; try done.
    + unfold writeErrorReport. rewrite Hz. split; [|lia].
      intros Heq. exfalso. unfold no_errors in Heq.
      apply append_inj_l, append_inj_l in Heq. cbn in Heq. discriminate Heq.
    + intros _. split_and!.
      * unfold writeErrorReport. by rewrite Hz.
      * rewrite Hperm. apply NoDup_fst_map_to_list.
      * rewrite Hperm. apply length_map_to_list.
      * intros name group. rewrite Hperm. symmetry. apply elem_of_map_to_list.
Qed.

(** In an environment whose [range]s are those of Go, the report that is
    written lists every failure group once. *)
Lemma writeErrorReportM_ranges (r : Result) env (w : World (Histogram := Histogram)) :
  env_ranges env → TotalFailed r ≠ 0 →
  ∃ groups, ranges (FailedByErrorGroup r) groups ∧
            writeErrorReportM r env w = Done (writeErrorReport r groups) (tick w).
Proof.
  intros Henv Hfailed. exists (range_groups env (steps w) (FailedByErrorGroup r)).
  split; [apply Henv|]. rewrite writeErrorReportM_spec.
  by destruct (TotalFailed r =? 0) eqn:Hz; [lia|].
Qed.

End ErrorReport.

(** ** The rows of the tabular renderer *)

Section Rows.
Context {Histogram Snapshot : Type} `{!hdrhistogram.API Histogram Snapshot}.
Context `{!GoFmt}.
Implicit Types (h : gmap loc Histogram) (r : Result) (s : ScriptResult).

(** A row is the fourteen cells of the columns, separated by commas. *)
Lemma writeCells_Join h r s cells :
  mapM (λ col : string * (gmap loc Histogram → Result → ScriptResult → option string),
          col.2 h r s) csvColumns = Some cells →
  writeCells 0 csvColumns h r s = Some (Join cells ",").
Proof.
  unfold csvColumns. cbn [mapM writeCells snd mbind option_bind mret option_ret].
  destruct (deref h (Latencies s)) as [x|]; cbn; [|done].
  intros [= <-]. rewrite !append_empty_r. reflexivity.
Qed.

Lemma latencyRow_cells h r s histo :
  deref h (Latencies s) = Some histo →
  latencyRow h r s = Some (Join (latencyCells r s histo) "," +:+ nl).
Proof.
  intros Hhisto. unfold latencyRow.
  rewrite (writeCells_Join h r s (latencyCells r s histo)); [done|].
  unfold csvColumns. cbn. rewrite Hhisto. reflexivity.
Qed.

(** The row panics exactly when the script has no histogram. *)
Lemma latencyRow_nil h r s :
  deref h (Latencies s) = None → latencyRow h r s = None.
Proof.
  intros Hnil. unfold latencyRow, csvColumns. cbn. rewrite Hnil. reflexivity.
Qed.

(** C5.  In a latency row the [succeeded] column, the fourth of the
    schema, holds the total count of the script's histogram in the
    three-decimal format; it is a function of the histogram alone, so the
    [Succeeded] counter of the script has no part in it. *)
Theorem csv_succeeded_is_histogram_count h r s histo :
  deref h (Latencies s) = Some histo →
  (fst <$> csvColumns) !! 3%nat = Some "succeeded" ∧
  (∃ cells, latencyRow h r s = Some (Join cells "," +:+ nl) ∧
            length cells = 14%nat ∧
            cells !! 3%nat =
              Some (FormatFloat 3 (float64_of_int64 (hdrhistogram.TotalCount histo)))) ∧
  (∀ value, csvColumns !! 3%nat = Some ("succeeded", value) →
     ∀ r' s', Latencies s' = Latencies s → value h r' s' = value h r s).
Proof.
  intros Hhisto. split_and!.
  - reflexivity.
  - exists (latencyCells r s histo). split_and!; [|reflexivity..].
    by apply latencyRow_cells.
  - intros value Hvalue r' s' Hsame. cbn in Hvalue. simplify_eq.
    by rewrite Hsame.
Qed.

End Rows.

(** ** The renderers *)

(** *** What is written stays written *)

Section Appends.
Context {Histogram Snapshot : Type} `{!hdrhistogram.API Histogram Snapshot}.
Context `{!GoFmt}.
Implicit Types (w : World (Histogram := Histogram)) (env : Env).
#[local] Abbreviation M := (M (Histogram := Histogram)).

Lemma appends_ret {A} (a : A) : appends (mret a : M A).
Proof. intros env w. exists []. by rewrite app_nil_r. Qed.

Lemma appends_bind {A B} (m : M A) (f : A → M B) :
  appends m → (∀ a, appends (f a)) → appends (m ≫= f).
Proof.
  intros Hm Hf env w. destruct (Hm env w) as [more Hmore]. run.
  destruct (m env w) as [a w1|w1]; cbn in *; [|by exists more].
  destruct (Hf a env w1) as [more' Hmore']. exists (more ++ more').
  by rewrite Hmore', Hmore, app_assoc.
Qed.

Lemma appends_fmap {A B} (g : A → B) (m : M A) : appends m → appends (g <$> m).
Proof.
  intros Hm env w. destruct (Hm env w) as [more Hmore]. run.
  destruct (m env w); by exists more.
Qed.

Lemma appends_pure {A} (f : Env → World → option A) :
  appends (λ env w, match f env w with Some a => Done a w | None => Panic w end).
Proof.
  intros env w. exists []. rewrite app_nil_r. by destruct (f env w).
Qed.

Lemma appends_Fprint wr text : appends (Fprint wr text : M ()).
Proof.
  intros env w. run. destruct (write_fails env (steps w)); cbn.
  - exists []. by rewrite app_nil_r.
  - by eexists.
Qed.

Lemma appends_tick {A} (f : Env → nat → A) :
  appends (λ env w, Done (f env (steps w)) (tick w)).
Proof. intros env w. exists []. by rewrite app_nil_r. Qed.

Lemma appends_forM {A B} (f : A → M B) (l : list A) :
  (∀ x, appends (f x)) → appends (forM f l).
Proof.
  intros Hf. induction l as [|x l IH]; cbn.
  - apply appends_ret.
  - apply appends_bind; [done|]. intros y.
    apply appends_bind; [done|]. intros ys. apply appends_ret.
Qed.

Lemma appends_forEach (body : Output → M Output) (delegates : list Output) :
  Forall (λ d, appends (body d)) delegates →
  appends (CombinedOutput.forEach body delegates).
Proof.
  induction 1 as [|d rest Hd _ IH]; cbn.
  - apply appends_ret.
  - apply appends_bind; [done|]. intros d'.
    apply appends_bind; [done|]. intros rest'. apply appends_ret.
Qed.

(** Proves [appends] of a composition of the effects above. *)
Ltac appends :=
  repeat match goal with
    | |- @appends _ _ (mret _) => apply appends_ret
    | |- @appends _ _ (mbind _ _) => apply appends_bind; [|intros ?]
    | |- @appends _ _ (fmap _ _) => apply appends_fmap
    | |- @appends _ _ (Fprint _ _) => apply appends_Fprint
    | |- @appends _ _ (forM _ _) => apply appends_forM; intros ?
    | |- @appends _ _ Now => apply (appends_tick (λ env n, clock env n))
    | |- @appends _ _ (rangeScripts ?m) =>
        apply (appends_tick (λ env n, range_scripts env n m))
    | |- @appends _ _ (rangeGroups ?m) =>
        apply (appends_tick (λ env n, range_groups env n m))
    | |- @appends _ _ (if ?b then _ else _) => destruct b
    | |- @appends _ _ (match ?x with _ => _ end) => destruct x
    | H : ∀ x, @appends _ _ _ |- _ => apply H
    end.

Lemma appends_writeErrorReportM (r : Result) :
  appends (writeErrorReportM r : M string).
Proof. unfold writeErrorReportM. appends. Qed.

Lemma appends_TotalRate (r : Result) : appends (TotalRate r : M float).
Proof. unfold TotalRate. appends. Qed.

Lemma appends_load (p : option loc) : appends (load p : M Histogram).
Proof. apply (appends_pure (λ _ w, deref (heap w) p)). Qed.

Lemma appends_Interactive (i : InteractiveOutput.t) (c : Call) :
  appends (invoke (Interactive i) c : M Output).
Proof.
  pose proof appends_writeErrorReportM. pose proof appends_TotalRate.
  pose proof appends_load.
  destruct c; cbn [invoke]; apply appends_fmap.
  - unfold InteractiveOutput.BenchmarkStart. appends.
  - unfold InteractiveOutput.ReportInitProgress. appends.
  - unfold InteractiveOutput.ReportWorkloadProgress. appends.
  - unfold InteractiveOutput.ReportThroughput. appends.
  - unfold InteractiveOutput.ReportLatency. appends.
  - unfold InteractiveOutput.Errorf. appends.
Qed.

Lemma appends_reportFailures (o : CsvOutput.t) (r : Result) :
  appends (CsvOutput.reportFailures o r : M ()).
Proof.
  pose proof appends_writeErrorReportM.
  unfold CsvOutput.reportFailures. appends.
Qed.

Lemma appends_writeLatencyRow (o : CsvOutput.t) (r : Result) :
  appends (CsvOutput.writeLatencyRow o r : M ()).
Proof.
  pose proof (appends_reportFailures o).
  unfold CsvOutput.writeLatencyRow, orPanic.
  apply appends_bind; [appends|]. intros scripts.
  apply appends_bind.
  - apply appends_forM. intros script.
    apply (appends_pure (λ _ w, latencyRow (heap w) r script.2)).
  - intros rows. appends.
Qed.

Lemma appends_Csv (o : CsvOutput.t) (c : Call) :
  appends (invoke (Csv o) c : M Output).
Proof.
  pose proof (appends_reportFailures o). pose proof (appends_writeLatencyRow o).
  destruct c; cbn [invoke]; apply appends_fmap.
  - unfold CsvOutput.BenchmarkStart. appends.
  - unfold CsvOutput.ReportInitProgress. appends.
  - unfold CsvOutput.ReportWorkloadProgress, CsvOutput.ReportLatency. appends.
  - unfold CsvOutput.ReportThroughput. appends.
  - unfold CsvOutput.ReportLatency. appends.
  - unfold CsvOutput.Errorf. appends.
Qed.

Lemma appends_Counter_Add (counter v : float) :
  appends (PrometheusOutput.Counter_Add counter v : M float).
Proof.
  unfold PrometheusOutput.Counter_Add. destruct (v <? 0)%float.
  - intros env w. exists []. by rewrite app_nil_r.
  - apply appends_ret.
Qed.

Lemma appends_Prometheus (p : PrometheusOutput.t) (c : Call) :
  appends (invoke (Prometheus p) c : M Output).
Proof.
  pose proof appends_Counter_Add.
  destruct c; cbn [invoke]; apply appends_fmap; try apply appends_ret.
  unfold PrometheusOutput.ReportWorkloadProgress.
  apply appends_bind; [done|]. intros succeeded.
  apply appends_bind; [done|]. intros failed. apply appends_ret.
Qed.

(** Induction on an [Output], with the delegates of a [CombinedOutput] as
    induction hypotheses. *)
Lemma Output_delegates_ind (P : Output → Prop) :
  (∀ i, P (Interactive i)) → (∀ o, P (Csv o)) → (∀ p, P (Prometheus p)) →
  (∀ delegates, Forall P delegates → P (Combined delegates)) →
  ∀ o, P o.
Proof.
  intros Hinteractive Hcsv Hprometheus Hcombined. fix IH 1.
  intros [i|o|p|delegates]; [done..|].
  apply Hcombined. induction delegates as [|d rest IHrest]; constructor; auto.
Qed.

Lemma appends_invoke (o : Output) : ∀ c, appends (invoke o c : M Output).
Proof.
  induction o as [i|o|p|delegates IH] using Output_delegates_ind; intros c.
  - apply appends_Interactive.
  - apply appends_Csv.
  - apply appends_Prometheus.
  - destruct c; cbn [invoke]; apply appends_fmap;
      unfold CombinedOutput.BenchmarkStart, CombinedOutput.ReportInitProgress,
             CombinedOutput.ReportWorkloadProgress, CombinedOutput.ReportThroughput,
             CombinedOutput.ReportLatency, CombinedOutput.Errorf;
      apply appends_forEach;
      (eapply Forall_impl; [exact IH|]); intros d Hd; apply Hd.
Qed.

Lemma appends_session (calls : list Call) :
  ∀ o, appends (session o calls : M Output).
Proof.
  induction calls as [|c rest IH]; intros o; cbn.
  - apply appends_ret.
  - apply appends_bind; [apply appends_invoke|done].
Qed.

End Appends.

Section Renderers.
Context {Histogram Snapshot : Type} `{!hdrhistogram.API Histogram Snapshot}.
Context `{!GoFmt}.
Implicit Types (w : World (Histogram := Histogram)) (env : Env).

#[local] Arguments time.Seconds : simpl never.
#[local] Arguments time.Sub : simpl never.
#[local] Arguments initProgressLine : simpl never.
#[local] Arguments startLines : simpl never.
#[local] Arguments String.eqb : simpl never.

(** C9, as amended.  [CsvOutput.BenchmarkStart] writes the start lines to
    the error stream and then exactly one line to the data stream: the
    fourteen column names [db, script, rate, succeeded, failed, mean, stdev,
    p0, p25, p50, p75, p99, p99999, p100], comma-separated, in this order.
    It writes no data row and returns when both writes succeed; whatever
    is called on the renderer afterwards is written after that line. *)
Theorem CsvOutput_BenchmarkStart_header (o : CsvOutput.t)
    (databaseName url scenario : string) env w :
  write_fails env (steps w) = false →
  write_fails env (S (steps w)) = false →
  let header :=
    "db,script,rate,succeeded,failed,mean,stdev,p0,p25,p50,p75,p99,p99999,p100"
      +:+ nl in
  let start := startLines databaseName url scenario in
  (∃ w', CsvOutput.BenchmarkStart o databaseName url scenario env w = Done o w' ∧
     written w' =
       written w ++ [(CsvOutput.ErrStream o, start); (CsvOutput.OutStream o, header)] ∧
     heap w' = heap w) ∧
  (∀ calls, ∃ more,
     written (world_of (session (Csv o)
                          (BenchmarkStart databaseName url scenario :: calls) env w)) =
       written w ++ [(CsvOutput.ErrStream o, start); (CsvOutput.OutStream o, header)]
         ++ more).
Proof.
  intros Hw1 Hw2 header start.
  assert (∃ w', CsvOutput.BenchmarkStart o databaseName url scenario env w = Done o w' ∧
            written w' =
              written w ++ [(CsvOutput.ErrStream o, start); (CsvOutput.OutStream o, header)] ∧
            heap w' = heap w) as Hstart.
  { unfold CsvOutput.BenchmarkStart. run.
    rewrite Hw1. cbn. rewrite Hw2. cbn.
    eexists. split_and!; [reflexivity| |reflexivity].
    cbn. by rewrite <- app_assoc. }
  split; [exact Hstart|].
  intros calls. destruct Hstart as (w' & Hrun & Hwritten & _).
  destruct (appends_session calls (Csv o) env w') as [more Hmore].
  exists more. cbn [session invoke].
  unfold mbind, M_bind, fmap, M_fmap. rewrite Hrun.
  by rewrite Hmore, Hwritten, <- app_assoc.
Qed.

(** C6.  [InteractiveOutput.ReportInitProgress] reads the clock once.  A
    report with the section and step of the last report written, less than
    10 seconds (as [Duration.Seconds] measures them) after that report was
    written, writes nothing and leaves the renderer as it was.  A report
    whose section or step differs is written whatever the clock reads (so
    is one that comes 10 seconds or more after the last), and becomes the
    last report written; the call panics only when the write fails.  So
    two reports for [load]/[nodes], the second less than 10 seconds after
    the first, make a new renderer write exactly once. *)
Theorem ReportInitProgress_rate_limit (o : InteractiveOutput.t) env w :
  let now := clock env (steps w) in
  let last := InteractiveOutput.LastProgressReport o in
  (∀ report,
     Section report = Section last → Step report = Step last →
     (time.Seconds (time.Sub now (InteractiveOutput.LastProgressTime o)) <? 10)%float = true →
     InteractiveOutput.ReportInitProgress o report env w = Done o (tick w) ∧
     written (tick w) = written w) ∧
  (∀ report,
     Section report ≠ Section last ∨ Step report ≠ Step last ∨
     (time.Seconds (time.Sub now (InteractiveOutput.LastProgressTime o)) <? 10)%float
       = false →
     if write_fails env (S (steps w)) then
       ∃ w', InteractiveOutput.ReportInitProgress o report env w = Panic w'
     else
       ∃ o' w',
         InteractiveOutput.ReportInitProgress o report env w = Done o' w' ∧
         written w' =
           written w ++ [(InteractiveOutput.ErrStream o, initProgressLine report)] ∧
         InteractiveOutput.LastProgressReport o' = report ∧
         InteractiveOutput.LastProgressTime o' = now ∧
         InteractiveOutput.ErrStream o' = InteractiveOutput.ErrStream o) ∧
  (∀ completeness1 completeness2,
     let first := {| Section := "load"; Step := "nodes"; Completeness := completeness1 |} in
     let second := {| Section := "load"; Step := "nodes"; Completeness := completeness2 |} in
     last = zeroProgressReport →
     write_fails env (S (steps w)) = false →
     (time.Seconds (time.Sub (clock env (S (S (steps w)))) now) <? 10)%float = true →
     ∃ o1 w1 w2,
       InteractiveOutput.ReportInitProgress o first env w = Done o1 w1 ∧
       InteractiveOutput.ReportInitProgress o1 second env w1 = Done o1 w2 ∧
       written w2 =
         written w ++ [(InteractiveOutput.ErrStream o, initProgressLine first)]).
Proof.
  intros now last. split_and!.
  - intros report Hsection Hstep Hrecent.
    unfold InteractiveOutput.ReportInitProgress, suppressed. run.
    fold now last. rewrite Hsection, Hstep, !String.eqb_refl, Hrecent. done.
  - intros report Hpair.
    unfold InteractiveOutput.ReportInitProgress, suppressed. run.
    fold now last.
    assert (suppressed report last now (InteractiveOutput.LastProgressTime o) = false)
      as Hshown.
    { unfold suppressed. rewrite !andb_false_iff.
      destruct Hpair as [Hne|[Hne|Hold]]; [left; left|left; right|by right];
        by apply String.eqb_neq. }
    unfold suppressed in Hshown. rewrite Hshown.
    cbn. destruct (write_fails env (S (steps w))); cbn; eauto 10.
  - intros completeness1 completeness2 first second Hlast Hwrite Hrecent.
    unfold InteractiveOutput.ReportInitProgress, suppressed. run.
    fold now last. rewrite Hlast. cbn.
    change (String.eqb "load" "") with false. cbn. rewrite Hwrite. cbn.
    eexists _, _, _. split; [reflexivity|]. cbn. fold now.
    rewrite Hrecent, !String.eqb_refl. cbn. done.
Qed.

(** C4.  For a name other than [auto], [interactive] and [csv],
    [InitOutput] returns no [Output] and an error whose message lists the
    three supported names; nothing is constructed and no listener is
    started (the world is as before).  For one of the three names it never
    returns an error: when it returns, it returns an [Output]. *)
Theorem InitOutput_unknown_name (name prometheusAddress : string) env w :
  (name ≠ "auto" → name ≠ "interactive" → name ≠ "csv" →
     InitOutput name prometheusAddress env w =
       Done (None,
             Some ("unknown output format: " +:+ name +:+
                   ", supported formats are 'auto', 'interactive' and 'csv'"))
            w) ∧
  (name ∈ ["auto"; "interactive"; "csv"] →
     ∀ output err w',
       InitOutput name prometheusAddress env w = Done (output, err) w' →
       err = None ∧ is_Some output) ∧
  (prometheusAddress = "" →
     (name = "interactive" →
        InitOutput name prometheusAddress env w =
          Done (Some (Interactive newInteractive), None) w) ∧
     (name = "csv" →
        InitOutput name prometheusAddress env w =
          Done (Some (Csv newCsv), None) w) ∧
     (name = "auto" → ∀ terminal, stdout_char_device env = Some terminal →
        InitOutput name prometheusAddress env w =
          Done (Some (if terminal then Interactive newInteractive else Csv newCsv),
                None) w)).
Proof.
  split_and!.
  - intros Hauto Hinteractive Hcsv. unfold InitOutput, resolveAuto. run.
    apply String.eqb_neq in Hauto, Hinteractive, Hcsv.
    rewrite Hauto. cbn. by rewrite Hinteractive, Hcsv.
  - intros Hname output err w' Hinit.
    assert (∀ out w0, withPrometheus out prometheusAddress env w0
                        = Done (output, err) w' → err = None ∧ is_Some output)
      as Hfinish.
    { intros out w0. unfold withPrometheus, InitPrometheus. run.
      destruct (negb _); [destruct (metrics_served w0)|]; cbn;
        intros [=]; subst; eauto. }
    unfold InitOutput, resolveAuto in Hinit. revert Hinit. run.
    repeat (apply elem_of_cons in Hname as [->|Hname]).
    + change (String.eqb "auto" "auto") with true. cbn.
      destruct (stdout_char_device env) as [[]|]; [apply Hfinish..|done].
    + change (String.eqb "interactive" "auto") with false. cbn.
      change (String.eqb "interactive" "interactive") with true. cbn.
      apply Hfinish.
    + change (String.eqb "csv" "auto") with false. cbn.
      change (String.eqb "csv" "interactive") with false.
      change (String.eqb "csv" "csv") with true. cbn.
      apply Hfinish.
    + by apply elem_of_nil in Hname.
  - intros ->. split_and!.
    + intros ->. reflexivity.
    + intros ->. reflexivity.
    + intros -> terminal Hstat. unfold InitOutput, resolveAuto. run.
      change (String.eqb "auto" "auto") with true. cbn. rewrite Hstat.
      by destruct terminal.
Qed.

(** *** [CombinedOutput] *)

(** Five of the six methods make the call they received on every
    delegate, in the order of the slice. *)
Lemma Combined_forwards_same_call (delegates : list Output) (c : Call) :
  (∀ format a, c ≠ Errorf format a) →
  invoke (Combined delegates) c =
    Combined <$> CombinedOutput.forEach (λ d, invoke d c) delegates.
Proof. intros Hc. destruct c; try reflexivity. by destruct (Hc format a). Qed.

(** A delegate that panics ends the loop: the delegates after it are not
    called. *)
Lemma forEach_panic (body : Output → M Output) d rest env w w' :
  body d env w = Panic w' →
  CombinedOutput.forEach body (d :: rest) env w = Panic w'.
Proof. intros Hd. cbn. run. by rewrite Hd. Qed.

Lemma forEach_done (body : Output → M Output) d rest env w d' w' :
  body d env w = Done d' w' →
  CombinedOutput.forEach body (d :: rest) env w =
    (cons d' <$> CombinedOutput.forEach body rest) env w'.
Proof.
  intros Hd. cbn. run. rewrite Hd.
  by destruct (CombinedOutput.forEach body rest env w').
Qed.

(** [Errorf] makes another call: the operands arrive as one operand, the
    slice that holds them. *)
Lemma Combined_Errorf (delegates : list Output) (format : string) (a : list any) :
  invoke (Combined delegates) (Errorf format a) =
    Combined <$>
      CombinedOutput.forEach (λ d, invoke d (Errorf format [SliceVal a])) delegates.
Proof. reflexivity. Qed.

End Renderers.

(** ** Further properties of the renderers *)

(** *** Conversions of [int64] totals *)

Lemma binary_round_not_negative m e :
  SFltb (binary_round prec emax false m e) (S754_zero false) = false.
Proof.
  unfold binary_round, binary_round_aux.
  destruct (shl_align _ _ _) as [mz ez].
  destruct (shr_fexp _ _ _ _ _) as [mrs' e'].
  destruct (shr_fexp _ _ _ _ _) as [mrs'' e''].
  destruct (shr_m mrs'') as [|p|p]; [done| |done].
  by destruct (e'' <=? emax - prec).
Qed.

(** The conversion of a non-negative [int64] is not below zero. *)
Lemma float64_of_int64_nonneg z :
  0 ≤ z < 2 ^ 63 → (float64_of_int64 z <? 0)%float = false.
Proof.
  intros Hz. unfold float64_of_int64.
  assert (binary_normalize prec emax z 0 false =
            Prim2SF (of_uint63 (Uint63.of_Z z))) as Hbn.
  { rewrite of_uint63_spec, Uint63.of_Z_spec.
    rewrite Z.mod_small; [done|]. unfold Uint63.wB.
    change (2 ^ IntDef.Z.of_nat Uint63Axioms.size) with (2 ^ 63). lia. }
  rewrite FloatAxioms.ltb_spec, Prim2SF_SF2Prim.
  - change (Prim2SF 0) with (S754_zero false).
    destruct z as [|m|m]; [done|apply binary_round_not_negative|lia].
  - rewrite Hbn. apply Prim2SF_valid.
Qed.

(** *** Relations every step of a renderer respects *)

Section Respects.
Context {Histogram Snapshot : Type} `{!hdrhistogram.API Histogram Snapshot}.
Context `{!GoFmt}.
Implicit Types (w : World (Histogram := Histogram)) (env : Env).
#[local] Abbreviation M := (M (Histogram := Histogram)).

Variable R : relation (World (Histogram := Histogram)).
Context `{!PreOrder R}.

Lemma respects_ret {A} (a : A) : respects R (mret a : M A).
Proof. intros env w. reflexivity. Qed.

Lemma respects_bind {A B} (m : M A) (f : A → M B) :
  respects R m → (∀ a, respects R (f a)) → respects R (m ≫= f).
Proof.
  intros Hm Hf env w. specialize (Hm env w). run.
  destruct (m env w) as [a w1|w1]; cbn in *; [|done].
  etrans; [exact Hm|apply Hf].
Qed.

Lemma respects_fmap {A B} (g : A → B) (m : M A) :
  respects R m → respects R (g <$> m).
Proof. intros Hm env w. specialize (Hm env w). run. by destruct (m env w). Qed.

Lemma respects_pure {A} (f : Env → World → option A) :
  respects R (λ env w, match f env w with Some a => Done a w | None => Panic w end).
Proof. intros env w. by destruct (f env w). Qed.

Lemma respects_forM {A B} (f : A → M B) (l : list A) :
  (∀ x, respects R (f x)) → respects R (forM f l).
Proof.
  intros Hf. induction l as [|x l IH]; cbn.
  - apply respects_ret.
  - apply respects_bind; [done|]. intros y.
    apply respects_bind; [done|]. intros ys. apply respects_ret.
Qed.

Lemma respects_forEach (body : Output → M Output) (delegates : list Output) :
  Forall (λ d, respects R (body d)) delegates →
  respects R (CombinedOutput.forEach body delegates).
Proof.
  induction 1 as [|d rest Hd _ IH]; cbn.
  - apply respects_ret.
  - apply respects_bind; [done|]. intros d'.
    apply respects_bind; [done|]. intros rest'. apply respects_ret.
Qed.

(** Reading the clock, or the order of a [range]. *)
Hypothesis R_tick : ∀ w, R w (tick w).

Lemma respects_tick {A} (f : Env → nat → A) :
  respects R (λ env w, Done (f env (steps w)) (tick w)).
Proof. intros env w. apply R_tick. Qed.

Lemma respects_load (p : option loc) : respects R (load p : M Histogram).
Proof. apply (respects_pure (λ _ w, deref (heap w) p)). Qed.

Lemma respects_TotalRate (r : Result) : respects R (TotalRate r : M float).
Proof.
  unfold TotalRate. apply respects_bind; [|intros ?; apply respects_ret].
  apply (respects_tick (λ env n, range_scripts env n (Scripts r))).
Qed.

Lemma respects_writeErrorReportM (r : Result) :
  respects R (writeErrorReportM r : M string).
Proof.
  unfold writeErrorReportM. destruct (TotalFailed r =? 0); [apply respects_ret|].
  apply respects_bind; [|intros ?; apply respects_ret].
  apply (respects_tick (λ env n, range_groups env n (FailedByErrorGroup r))).
Qed.

Lemma respects_Counter_Add (counter v : float) :
  respects R (PrometheusOutput.Counter_Add counter v : M float).
Proof.
  unfold PrometheusOutput.Counter_Add. destruct (v <? 0)%float.
  - intros env w. reflexivity.
  - apply respects_ret.
Qed.

Lemma respects_Prometheus (p : PrometheusOutput.t) (c : Call) :
  respects R (invoke (Prometheus p) c : M Output).
Proof.
  pose proof respects_Counter_Add.
  destruct c; cbn [invoke]; apply respects_fmap; try apply respects_ret.
  unfold PrometheusOutput.ReportWorkloadProgress.
  apply respects_bind; [done|]. intros succeeded.
  apply respects_bind; [done|]. intros failed. apply respects_ret.
Qed.

End Respects.

Section RespectsWrites.
Context {Histogram Snapshot : Type} `{!hdrhistogram.API Histogram Snapshot}.
Context `{!GoFmt}.
Implicit Types (w : World (Histogram := Histogram)) (env : Env).
#[local] Abbreviation M := (M (Histogram := Histogram)).

Variable R : relation (World (Histogram := Histogram)).
Context `{!PreOrder R}.
Hypothesis R_tick : ∀ w, R w (tick w).
Hypothesis R_Fprint : ∀ wr text, respects R (Fprint wr text : M ()).

(** Proves [respects] of a composition of effects. *)
Ltac respects :=
  repeat match goal with
    | |- respects _ (mret _) => apply (respects_ret R)
    | |- respects _ (mbind _ _) => apply (respects_bind R); [|intros ?]
    | |- respects _ (fmap _ _) => apply (respects_fmap R)
    | |- respects _ (Fprint _ _) => apply R_Fprint
    | |- respects _ (forM _ _) => apply (respects_forM R); intros ?
    | |- respects _ Now => apply (respects_tick R R_tick (λ env n, clock env n))
    | |- respects _ (rangeScripts ?m) =>
        apply (respects_tick R R_tick (λ env n, range_scripts env n m))
    | |- respects _ (TotalRate _) => by apply (respects_TotalRate R)
    | |- respects _ (writeErrorReportM _) => by apply (respects_writeErrorReportM R)
    | |- respects _ (load _) => by apply (respects_load R)
    | |- respects _ (if ?b then _ else _) => destruct b
    | H : ∀ x, respects _ _ |- _ => apply H
    end.

Lemma respects_Interactive (i : InteractiveOutput.t) (c : Call) :
  respects R (invoke (Interactive i) c : M Output).
Proof.
  destruct c; cbn [invoke]; apply (respects_fmap R).
  - unfold InteractiveOutput.BenchmarkStart. respects.
  - unfold InteractiveOutput.ReportInitProgress. respects.
  - unfold InteractiveOutput.ReportWorkloadProgress. respects.
  - unfold InteractiveOutput.ReportThroughput. respects.
  - unfold InteractiveOutput.ReportLatency. respects.
  - unfold InteractiveOutput.Errorf. respects.
Qed.

Lemma respects_reportFailures (o : CsvOutput.t) (r : Result) :
  respects R (CsvOutput.reportFailures o r : M ()).
Proof. unfold CsvOutput.reportFailures. respects. Qed.

Lemma respects_writeLatencyRow (o : CsvOutput.t) (r : Result) :
  respects R (CsvOutput.writeLatencyRow o r : M ()).
Proof.
  pose proof (respects_reportFailures o).
  unfold CsvOutput.writeLatencyRow, orPanic.
  apply (respects_bind R); [respects|]. intros scripts.
  apply (respects_bind R).
  - apply (respects_forM R). intros script.
    apply (respects_pure R (λ _ w, latencyRow (heap w) r script.2)).
  - intros rows. respects.
Qed.

Lemma respects_Csv (o : CsvOutput.t) (c : Call) :
  respects R (invoke (Csv o) c : M Output).
Proof.
  pose proof (respects_reportFailures o). pose proof (respects_writeLatencyRow o).
  destruct c; cbn [invoke]; apply (respects_fmap R).
  - unfold CsvOutput.BenchmarkStart. respects.
  - unfold CsvOutput.ReportInitProgress. respects.
  - unfold CsvOutput.ReportWorkloadProgress, CsvOutput.ReportLatency. respects.
  - unfold CsvOutput.ReportThroughput. respects.
  - unfold CsvOutput.ReportLatency. respects.
  - unfold CsvOutput.Errorf. respects.
Qed.

Lemma respects_invoke (o : Output) : ∀ c, respects R (invoke o c : M Output).
Proof.
  induction o as [i|o|p|delegates IH] using Output_delegates_ind; intros c.
  - apply respects_Interactive.
  - apply respects_Csv.
  - by apply (respects_Prometheus R).
  - destruct c; cbn [invoke]; apply (respects_fmap R);
      unfold CombinedOutput.BenchmarkStart, CombinedOutput.ReportInitProgress,
             CombinedOutput.ReportWorkloadProgress, CombinedOutput.ReportThroughput,
             CombinedOutput.ReportLatency, CombinedOutput.Errorf;
      apply (respects_forEach R);
      (eapply Forall_impl; [exact IH|]); intros d Hd; apply Hd.
Qed.

Lemma respects_session (calls : list Call) :
  ∀ o, respects R (session o calls : M Output).
Proof.
  induction calls as [|c rest IH]; intros o; cbn.
  - apply (respects_ret R).
  - apply (respects_bind R); [apply respects_invoke|done].
Qed.

End RespectsWrites.

Section ReadOnly.
Context {Histogram Snapshot : Type} `{!hdrhistogram.API Histogram Snapshot}.
Context `{!GoFmt}.
Implicit Types (w : World (Histogram := Histogram)) (env : Env).
#[local] Abbreviation M := (M (Histogram := Histogram)).

#[local] Instance same_store_preorder : PreOrder (same_store (Histogram := Histogram)).
Proof.
  split.
  - by intros w.
  - intros w1 w2 w3 [Hh1 Hm1] [Hh2 Hm2]. split; congruence.
Qed.

(** X6.  Reporting reads the histograms and never changes them: after any
    sequence of calls on any output, returning or panicking, the heap of
    histograms is the one the sequence started with, and no listener has
    been registered. *)
Theorem session_leaves_histograms_alone (o : Output) (calls : list Call) env w :
  heap (world_of (session o calls env w)) = heap w ∧
  metrics_served (world_of (session o calls env w)) = metrics_served w.
Proof.
  apply (respects_session same_store).
  - by intros w0.
  - intros wr text env0 w0. run. by destruct (write_fails env0 (steps w0)).
Qed.

#[local] Instance nothing_written_preorder :
  PreOrder (nothing_written (Histogram := Histogram)).
Proof.
  split.
  - by intros w.
  - intros w1 w2 w3 H1 H2. unfold nothing_written in *. congruence.
Qed.

Lemma invoke_Prometheus p c env w o' w' :
  invoke (Prometheus p) c env w = Done o' w' →
  ∃ p', o' = Prometheus p' ∧
        ((∀ completeness checkpoint, c ≠ ReportWorkloadProgress completeness checkpoint) →
         p' = p ∧ w' = w).
Proof.
  destruct c; cbn [invoke]; run; try (intros [= <- <-]; by eauto).
  unfold PrometheusOutput.ReportWorkloadProgress, PrometheusOutput.Counter_Add. run.
  destruct (_ <? 0)%float; cbn; [done|].
  destruct (_ <? 0)%float; cbn; [done|].
  intros [= <- <-]. eexists. split; [done|]. intros Hc. by destruct (Hc completeness checkpoint).
Qed.

(** X7.  A [PrometheusOutput] never writes: whatever it is called with,
    nothing reaches a writer.  Only [ReportWorkloadProgress] has an effect
    on it: a sequence of other calls returns and leaves the counters and
    the world as they were. *)
Theorem Prometheus_only_counts (p : PrometheusOutput.t) (calls : list Call) env w :
  written (world_of (session (Prometheus p) calls env w)) = written w ∧
  (Forall (λ c, ∀ completeness checkpoint,
                  c ≠ ReportWorkloadProgress completeness checkpoint) calls →
   session (Prometheus p) calls env w = Done (Prometheus p) w).
Proof.
  split.
  - revert p w. induction calls as [|c rest IH]; intros p w; [done|].
    cbn [session]. unfold mbind, M_bind.
    pose proof (respects_Prometheus nothing_written p c env w) as Hc.
    destruct (invoke (Prometheus p) c env w) as [o' w'|w'] eqn:E;
      cbn [world_of] in *; [|done].
    apply invoke_Prometheus in E as (p' & -> & _).
    rewrite IH. exact Hc.
  - revert w. induction calls as [|c rest IH]; intros w Hcalls; [done|].
    apply Forall_cons in Hcalls as [Hc Hrest]. cbn [session]. run.
    destruct c; try (by destruct (Hc completeness checkpoint)); cbn; by apply IH.
Qed.

End ReadOnly.

(** *** [CombinedOutput]: the order of the delegates *)

Section CombinedFacts.
Context {Histogram Snapshot : Type} `{!hdrhistogram.API Histogram Snapshot}.
Context `{!GoFmt}.
Implicit Types (w : World (Histogram := Histogram)) (env : Env).
#[local] Abbreviation M := (M (Histogram := Histogram)).

Lemma Combined_forwards (delegates : list Output) (c : Call) :
  invoke (Combined delegates) c =
    Combined <$> CombinedOutput.forEach (λ d, invoke d (forwarded c)) delegates.
Proof. by destruct c. Qed.

Lemma forEach_app (body : Output → M Output) ds1 ds2 env w :
  CombinedOutput.forEach body (ds1 ++ ds2) env w =
  match CombinedOutput.forEach body ds1 env w with
  | Done l1 w1 =>
      match CombinedOutput.forEach body ds2 env w1 with
      | Done l2 w2 => Done (l1 ++ l2) w2
      | Panic w2 => Panic w2
      end
  | Panic w1 => Panic w1
  end.
Proof.
  revert w. induction ds1 as [|d ds1 IH]; intros w.
  - cbn. by destruct (CombinedOutput.forEach body ds2 env w).
  - cbn [app CombinedOutput.forEach]. unfold mbind, M_bind, mret, M_ret.
    destruct (body d env w) as [d' w1|w1]; [|done].
    fold (CombinedOutput.forEach body). rewrite IH.
    destruct (CombinedOutput.forEach body ds1 env w1) as [l1 w2|w2]; [|done].
    by destruct (CombinedOutput.forEach body ds2 env w2).
Qed.

(** X8.  A [CombinedOutput] calls its delegates in the order of the slice,
    each one in the world the one before it left: a combination of
    [ds1 ++ ds2] behaves as the combination of [ds1] followed by the
    combination of [ds2].  Without delegates it does nothing, and with one
    delegate it makes that delegate's call, as [forwarded] says. *)
Theorem Combined_calls_in_order (ds1 ds2 : list Output) (c : Call) env w :
  invoke (Combined (ds1 ++ ds2)) c env w =
    match invoke (Combined ds1) c env w with
    | Done o1 w1 =>
        match invoke (Combined ds2) c env w1 with
        | Done o2 w2 => Done (Combined (delegates_of o1 ++ delegates_of o2)) w2
        | Panic w2 => Panic w2
        end
    | Panic w1 => Panic w1
    end ∧
  invoke (Combined []) c env w = Done (Combined []) w ∧
  ∀ d, invoke (Combined [d]) c env w =
         ((λ d', Combined [d']) <$> invoke d (forwarded c)) env w.
Proof.
  rewrite !Combined_forwards. unfold fmap, M_fmap. split_and!.
  - rewrite forEach_app.
    destruct (CombinedOutput.forEach _ ds1 env w) as [l1 w1|w1]; [|done].
    by destruct (CombinedOutput.forEach _ ds2 env w1).
  - done.
  - intros d. rewrite Combined_forwards. unfold fmap, M_fmap. cbn.
    unfold mbind, M_bind, mret, M_ret.
    by destruct (invoke d (forwarded c) env w).
Qed.

(** X9.  A delegate that panics ends the call: the delegates after it in
    the slice are not called, and the world is the one the panicking
    delegate left. *)
Theorem Combined_stops_at_first_panic (before after : list Output) (d : Output)
    (c : Call) env w o1 w1 w2 :
  invoke (Combined before) c env w = Done o1 w1 →
  invoke d (forwarded c) env w1 = Panic w2 →
  invoke (Combined (before ++ d :: after)) c env w = Panic w2.
Proof.
  rewrite !Combined_forwards. unfold fmap, M_fmap. intros Hbefore Hd.
  rewrite forEach_app.
  destruct (CombinedOutput.forEach _ before env w) as [l1 w1'|w1']; [|done].
  injection Hbefore as _ ->.
  cbn [CombinedOutput.forEach]. unfold mbind, M_bind. by rewrite Hd.
Qed.

End CombinedFacts.

(** *** When the renderers return *)

Section Returns.
Context {Histogram Snapshot : Type} `{!hdrhistogram.API Histogram Snapshot}.
Context `{!GoFmt}.
Implicit Types (w : World (Histogram := Histogram)).
#[local] Abbreviation M := (M (Histogram := Histogram)).

Variable env : Env.

Lemma returns_ret {A} (P : World → Prop) (a : A) (Q : A → World → Prop) :
  (∀ w, P w → Q a w) → returns env P (mret a : M A) Q.
Proof. intros HPQ w Hw. exists a, w. split; [done|auto]. Qed.

Lemma returns_bind {A B} (P : World → Prop) (m : M A) (Q : A → World → Prop)
    (f : A → M B) (Q' : B → World → Prop) :
  returns env P m Q → (∀ a, returns env (Q a) (f a) Q') →
  returns env P (m ≫= f) Q'.
Proof.
  intros Hm Hf w Hw. destruct (Hm w Hw) as (a & w1 & Hrun & Hw1).
  destruct (Hf a w1 Hw1) as (b & w2 & Hrun2 & Hw2).
  exists b, w2. split; [|done]. unfold mbind, M_bind. by rewrite Hrun.
Qed.

Lemma returns_fmap {A B} (P : World → Prop) (g : A → B) (m : M A)
    (Q : B → World → Prop) :
  returns env P m (λ a, Q (g a)) → returns env P (g <$> m) Q.
Proof.
  intros Hm w Hw. destruct (Hm w Hw) as (a & w1 & Hrun & Hw1).
  exists (g a), w1. split; [|done]. unfold fmap, M_fmap. by rewrite Hrun.
Qed.

Lemma returns_weaken {A} (P : World → Prop) (m : M A) (Q Q' : A → World → Prop) :
  returns env P m Q → (∀ a w, Q a w → Q' a w) → returns env P m Q'.
Proof.
  intros Hm HQ w Hw. destruct (Hm w Hw) as (a & w1 & Hrun & Hw1). eauto.
Qed.

Lemma returns_strengthen {A} (P P' : World → Prop) (m : M A) (Q : A → World → Prop) :
  returns env P m Q → (∀ w, P' w → P w) → returns env P' m Q.
Proof. intros Hm HP w Hw. apply Hm, HP, Hw. Qed.

Lemma returns_forM {A B} (I : World → Prop) (f : A → M B) (l : list A) :
  Forall (λ x, returns env I (f x) (λ _, I)) l →
  returns env I (forM f l) (λ _, I).
Proof.
  induction 1 as [|x l Hx _ IH]; cbn.
  - by apply returns_ret.
  - eapply returns_bind; [exact Hx|]. intros y.
    eapply returns_bind; [exact IH|]. intros ys. by apply returns_ret.
Qed.

Lemma returns_forEach (I : World → Prop) (body : Output → M Output)
    (delegates : list Output) :
  Forall (λ d, returns env I (body d) (λ _, I)) delegates →
  returns env I (CombinedOutput.forEach body delegates) (λ _, I).
Proof.
  induction 1 as [|d rest Hd _ IH]; cbn.
  - by apply returns_ret.
  - eapply returns_bind; [exact Hd|]. intros d'.
    eapply returns_bind; [exact IH|]. intros rest'. by apply returns_ret.
Qed.

(** From here on no write fails, every [range] visits the entries of its
    map, and the heap of histograms is [h]. *)
Variable h : gmap loc Histogram.
Hypothesis no_write_fails : ∀ n, write_fails env n = false.
Hypothesis env_is_go : env_ranges env.

Lemma returns_Fprint wr text :
  returns env (on_heap h) (Fprint wr text : M ()) (λ _, on_heap h).
Proof.
  intros w Hw. unfold Fprint. rewrite no_write_fails. by eexists _, _.
Qed.

Lemma returns_Now : returns env (on_heap h) (Now : M Z) (λ _, on_heap h).
Proof. intros w Hw. by eexists _, _. Qed.

Lemma returns_rangeScripts m :
  returns env (on_heap h) (rangeScripts m : M _) (λ visit w, on_heap h w ∧ ranges m visit).
Proof.
  intros w Hw. eexists _, _. split; [done|]. split; [done|]. apply env_is_go.
Qed.

Lemma returns_rangeGroups m :
  returns env (on_heap h) (rangeGroups m : M _) (λ visit w, on_heap h w ∧ ranges m visit).
Proof.
  intros w Hw. eexists _, _. split; [done|]. split; [done|]. apply env_is_go.
Qed.

Lemma returns_TotalRate r :
  returns env (on_heap h) (TotalRate r : M float) (λ _, on_heap h).
Proof.
  unfold TotalRate. eapply returns_bind; [apply returns_rangeScripts|].
  intros visit. apply returns_ret. by intros w [? _].
Qed.

Lemma returns_writeErrorReportM r :
  returns env (on_heap h) (writeErrorReportM r : M string) (λ _, on_heap h).
Proof.
  unfold writeErrorReportM. destruct (TotalFailed r =? 0).
  - by apply returns_ret.
  - eapply returns_bind; [apply returns_rangeGroups|].
    intros visit. apply returns_ret. by intros w [? _].
Qed.

Lemma returns_load p :
  valid h p → returns env (on_heap h) (load p : M Histogram) (λ _, on_heap h).
Proof.
  intros [x Hx] w Hw. unfold load. rewrite Hw, Hx. by eexists _, _.
Qed.

(** The scripts a [range] visits are scripts of the map. *)
Lemma ranges_valid r visit :
  wf_result h r → ranges (Scripts r) visit →
  Forall (λ s : string * ScriptResult, valid h (Latencies s.2)) visit.
Proof.
  intros Hwf Hvisit. apply Forall_forall. intros [name s] Hs.
  rewrite Hvisit in Hs. apply elem_of_map_to_list in Hs. by eapply Hwf.
Qed.

Lemma returns_Interactive i c :
  call_is_safe h c →
  returns env (on_heap h) (invoke (Interactive i) c : M Output) (λ _, on_heap h).
Proof.
  intros Hc. destruct c; cbn [invoke]; apply returns_fmap.
  - unfold InteractiveOutput.BenchmarkStart.
    eapply returns_bind; [apply returns_Fprint|]. intros ?. by apply returns_ret.
  - unfold InteractiveOutput.ReportInitProgress.
    eapply returns_bind; [apply returns_Now|]. intros now.
    destruct (suppressed _ _ _ _); [by apply returns_ret|].
    eapply returns_bind; [apply returns_Fprint|]. intros ?. by apply returns_ret.
  - unfold InteractiveOutput.ReportWorkloadProgress.
    eapply returns_bind; [apply returns_TotalRate|]. intros rate.
    eapply returns_bind; [apply returns_Fprint|]. intros ?. by apply returns_ret.
  - unfold InteractiveOutput.ReportThroughput.
    eapply returns_bind; [apply returns_TotalRate|]. intros rate.
    eapply returns_bind; [apply returns_rangeScripts|]. intros scripts.
    eapply returns_bind.
    { eapply returns_strengthen; [apply returns_writeErrorReportM|]. by intros w [? _]. }
    intros errors.
    eapply returns_bind; [apply returns_Fprint|]. intros ?. by apply returns_ret.
  - unfold InteractiveOutput.ReportLatency.
    eapply returns_bind; [apply returns_TotalRate|]. intros rate.
    eapply (returns_bind _ _ (λ _, on_heap h)).
    { destruct (0 <? TotalSucceeded result); [|by apply returns_ret].
      eapply returns_bind; [apply returns_rangeScripts|]. intros scripts.
      intros w [Hw Hvisit]. revert w Hw. apply returns_forM.
      eapply Forall_impl; [by apply (ranges_valid result)|].
      intros s Hs. cbn beta.
      eapply returns_bind; [by apply returns_load|]. intros histo.
      by apply returns_ret. }
    intros summaries.
    eapply returns_bind; [apply returns_writeErrorReportM|]. intros errors.
    eapply returns_bind; [apply returns_Fprint|]. intros ?. by apply returns_ret.
  - unfold InteractiveOutput.Errorf.
    eapply returns_bind; [apply returns_Fprint|]. intros ?. by apply returns_ret.
Qed.

Lemma returns_reportFailures o r :
  returns env (on_heap h) (CsvOutput.reportFailures o r : M ()) (λ _, on_heap h).
Proof.
  unfold CsvOutput.reportFailures. destruct (0 <? TotalFailed r).
  - eapply returns_bind; [apply returns_writeErrorReportM|]. intros errors.
    apply returns_Fprint.
  - by apply returns_ret.
Qed.

Lemma returns_writeLatencyRow o r :
  wf_result h r →
  returns env (on_heap h) (CsvOutput.writeLatencyRow o r : M ()) (λ _, on_heap h).
Proof.
  intros Hwf. unfold CsvOutput.writeLatencyRow.
  eapply returns_bind; [apply returns_rangeScripts|]. intros scripts.
  eapply (returns_bind _ _ (λ _, on_heap h)).
  { intros w [Hw Hvisit]. revert w Hw. apply returns_forM.
    eapply Forall_impl; [by apply (ranges_valid r)|].
    intros s [histo Hs] w Hw. unfold orPanic. rewrite Hw.
    rewrite (latencyRow_cells _ _ _ _ Hs). by eexists _, _. }
  intros rows.
  eapply returns_bind; [apply returns_Fprint|]. intros ?.
  apply returns_reportFailures.
Qed.

Lemma returns_Csv o c :
  call_is_safe h c →
  returns env (on_heap h) (invoke (Csv o) c : M Output) (λ _, on_heap h).
Proof.
  intros Hc. destruct c; cbn [invoke]; apply returns_fmap.
  - unfold CsvOutput.BenchmarkStart.
    eapply returns_bind; [apply returns_Fprint|]. intros ?.
    eapply returns_bind; [apply returns_Fprint|]. intros ?. by apply returns_ret.
  - unfold CsvOutput.ReportInitProgress.
    eapply returns_bind; [apply returns_Now|]. intros now.
    destruct (suppressed _ _ _ _); [by apply returns_ret|].
    eapply returns_bind; [apply returns_Fprint|]. intros ?. by apply returns_ret.
  - unfold CsvOutput.ReportWorkloadProgress, CsvOutput.ReportLatency.
    destruct Hc as (Hwf & _).
    eapply returns_bind; [apply returns_Fprint|]. intros ?.
    eapply returns_bind; [by apply returns_writeLatencyRow|]. intros ?.
    by apply returns_ret.
  - unfold CsvOutput.ReportThroughput.
    eapply returns_bind; [apply returns_rangeScripts|]. intros scripts.
    eapply returns_bind.
    { eapply returns_strengthen; [apply returns_Fprint|]. by intros w [? _]. }
    intros ?.
    eapply returns_bind; [apply returns_reportFailures|]. intros ?.
    by apply returns_ret.
  - unfold CsvOutput.ReportLatency.
    eapply returns_bind; [by apply returns_writeLatencyRow|]. intros ?.
    by apply returns_ret.
  - unfold CsvOutput.Errorf.
    eapply returns_bind; [apply returns_Fprint|]. intros ?. by apply returns_ret.
Qed.

Lemma returns_Prometheus p c :
  call_is_safe h c →
  returns env (on_heap h) (invoke (Prometheus p) c : M Output) (λ _, on_heap h).
Proof.
  intros Hc. destruct c; cbn [invoke]; apply returns_fmap;
    try (by apply returns_ret).
  destruct Hc as (_ & Hsucceeded & Hfailed).
  unfold PrometheusOutput.ReportWorkloadProgress, PrometheusOutput.Counter_Add.
  pose proof (TotalSucceeded_int64 checkpoint) as [_ ?].
  pose proof (TotalFailed_int64 checkpoint) as [_ ?].
  rewrite !float64_of_int64_nonneg by done.
  eapply (returns_bind _ _ (λ _, on_heap h)); [by apply returns_ret|]. intros succeeded.
  eapply (returns_bind _ _ (λ _, on_heap h)); [by apply returns_ret|]. intros failed.
  by apply returns_ret.
Qed.

Lemma call_is_safe_forwarded c : call_is_safe h c → call_is_safe h (forwarded c).
Proof. by destruct c. Qed.

Lemma returns_invoke o :
  ∀ c, call_is_safe h c →
       returns env (on_heap h) (invoke o c : M Output) (λ _, on_heap h).
Proof.
  induction o as [i|o|p|delegates IH] using Output_delegates_ind; intros c Hc.
  - by apply returns_Interactive.
  - by apply returns_Csv.
  - by apply returns_Prometheus.
  - rewrite Combined_forwards. apply returns_fmap, returns_forEach.
    eapply Forall_impl; [exact IH|]. intros d Hd. cbn beta.
    by apply Hd, call_is_safe_forwarded.
Qed.

Lemma returns_session calls :
  Forall (call_is_safe h) calls →
  ∀ o, returns env (on_heap h) (session o calls : M Output) (λ _, on_heap h).
Proof.
  induction 1 as [|c rest Hc _ IH]; intros o; cbn [session].
  - by apply returns_ret.
  - eapply returns_bind; [by apply returns_invoke|]. intros o'. apply IH.
Qed.

End Returns.

Section SafeSessions.
Context {Histogram Snapshot : Type} `{!hdrhistogram.API Histogram Snapshot}.
Context `{!GoFmt}.
Implicit Types (w : World (Histogram := Histogram)).

(** X10.  The renderers panic for three reasons only: a write that fails, a
    script without a histogram in a report that reads histograms, and a
    negative total handed to a Prometheus counter.  Where no write fails
    and every call is safe in this sense, every sequence of calls on every
    output returns. *)
Theorem session_returns (o : Output) (calls : list Call) env w :
  (∀ n, write_fails env n = false) → env_ranges env →
  Forall (call_is_safe (heap w)) calls →
  ∃ o' w', session o calls env w = Done o' w' ∧ heap w' = heap w.
Proof.
  intros Hwrites Hranges Hcalls.
  by apply (returns_session env (heap w) Hwrites Hranges calls Hcalls o w).
Qed.

End SafeSessions.

(** *** What the final reports write *)

Section CsvReports.
Context {Histogram Snapshot : Type} `{!hdrhistogram.API Histogram Snapshot}.
Context `{!GoFmt}.
Implicit Types (w : World (Histogram := Histogram)) (env : Env).
#[local] Abbreviation M := (M (Histogram := Histogram)).

(** The loop of [writeLatencyRow] has no effect of its own: it returns the
    rows in the world it started in, or panics there. *)
Lemma forM_latencyRow_rows r scripts env w :
  Forall (λ s : string * ScriptResult, valid (heap w) (Latencies s.2)) scripts →
  ∃ rows,
    forM (λ script : string * ScriptResult, λ env w,
            orPanic (latencyRow (heap w) r script.2) env w) scripts env w
      = Done rows w ∧
    Forall2 (λ (s : string * ScriptResult) row,
               ∃ histo, deref (heap w) (Latencies s.2) = Some histo ∧
                        row = Join (latencyCells r s.2 histo) "," +:+ nl)
            scripts rows.
Proof.
  induction 1 as [|s scripts [histo Hs] _ (rows & Hrows & Hall)].
  - exists []. split; [done|constructor].
  - exists ((Join (latencyCells r s.2 histo) "," +:+ nl) :: rows). split.
    + cbn [forM]. unfold mbind, M_bind, mret, M_ret. unfold orPanic at 1.
      rewrite (latencyRow_cells _ _ _ _ Hs), Hrows. done.
    + constructor; [by exists histo|done].
Qed.

Lemma bind_done {A B} (m : M A) (f : A → M B) env w a w1 :
  m env w = Done a w1 → (m ≫= f) env w = f a env w1.
Proof. intros Hm. unfold mbind, M_bind. by rewrite Hm. Qed.

Lemma bind_panic {A B} (m : M A) (f : A → M B) env w w1 :
  m env w = Panic w1 → (m ≫= f) env w = Panic w1.
Proof. intros Hm. unfold mbind, M_bind. by rewrite Hm. Qed.

(** A loop whose body has no effect panics in the world it started in
    when its body panics on an element. *)
Lemma forM_panic {A B} (f : A → M B) (l : list A) env w :
  Forall (λ x, world_of (f x env w) = w) l →
  Exists (λ x, f x env w = Panic w) l →
  forM f l env w = Panic w.
Proof.
  intros Hpure. induction 1 as [x l Hx|x l _ IH];
    apply Forall_cons in Hpure as [Hpure_x Hpure];
    cbn [forM]; unfold mbind, M_bind.
  - by rewrite Hx.
  - destruct (f x env w) as [b w1|w1]; cbn [world_of] in Hpure_x; subst w1; [|done].
    by rewrite IH.
Qed.

Lemma forM_latencyRow_nil r scripts env w :
  Exists (λ s : string * ScriptResult, deref (heap w) (Latencies s.2) = None) scripts →
  forM (λ script : string * ScriptResult, λ env w,
          orPanic (latencyRow (heap w) r script.2) env w) scripts env w
    = Panic w.
Proof.
  intros Hnil. apply forM_panic.
  - apply Forall_forall. intros s _. unfold orPanic.
    by destruct (latencyRow (heap w) r s.2).
  - eapply Exists_impl; [exact Hnil|]. intros s Hs. unfold orPanic.
    by rewrite (latencyRow_nil _ _ _ Hs).
Qed.

(** X11.  [CsvOutput.ReportLatency] writes the rows in one piece to
    the data stream: one row per script, in the order of the [range], each
    of fourteen cells; the failure summary follows on the error stream,
    and only when something failed.  No header is written. *)
Theorem CsvOutput_ReportLatency_rows (o : CsvOutput.t) (r : Result) env w :
  let scripts := range_scripts env (steps w) (Scripts r) in
  let groups := range_groups env (S (S (steps w))) (FailedByErrorGroup r) in
  wf_result (heap w) r → ranges (Scripts r) scripts →
  (∀ n, write_fails env n = false) →
  ∃ rows w',
    CsvOutput.ReportLatency o r env w = Done o w' ∧
    Forall2 (λ (s : string * ScriptResult) row,
               ∃ histo, deref (heap w) (Latencies s.2) = Some histo ∧
                        length (latencyCells r s.2 histo) = 14%nat ∧
                        row = Join (latencyCells r s.2 histo) "," +:+ nl)
            scripts rows ∧
    length rows = size (Scripts r) ∧
    written w' =
      written w ++
      (CsvOutput.OutStream o, String.concat "" rows) ::
      (if 0 <? TotalFailed r
       then [(CsvOutput.ErrStream o, writeErrorReport r groups)] else []).
Proof.
  intros scripts groups Hwf Hvisit Hwrites.
  assert (Forall (λ s : string * ScriptResult, valid (heap w) (Latencies s.2)) scripts)
    as Hvalid.
  { apply Forall_forall. intros [name s] Hs.
    rewrite Hvisit in Hs. apply elem_of_map_to_list in Hs. by eapply Hwf. }
  destruct (forM_latencyRow_rows r scripts env (tick w) Hvalid) as (rows & Hrows & Hall).
  exists rows.
  unfold CsvOutput.ReportLatency, CsvOutput.writeLatencyRow, CsvOutput.reportFailures.
  unfold mbind at 1 2 3, M_bind, rangeScripts. fold scripts. rewrite Hrows.
  assert (Forall2 (λ (s : string * ScriptResult) row,
                     ∃ histo, deref (heap w) (Latencies s.2) = Some histo ∧
                              length (latencyCells r s.2 histo) = 14%nat ∧
                              row = Join (latencyCells r s.2 histo) "," +:+ nl)
                  scripts rows) as Hall'.
  { eapply Forall2_impl; [exact Hall|]. intros s row (histo & ? & ?). by exists histo. }
  assert (length rows = size (Scripts r)) as Hlength.
  { apply Forall2_length in Hall. rewrite <- Hall, Hvisit.
    apply length_map_to_list. }
  unfold mbind, M_bind, mret, M_ret. unfold Fprint at 1.
  cbn [steps tick]. rewrite Hwrites.
  destruct (0 <? TotalFailed r) eqn:Hfailed.
  - rewrite writeErrorReportM_spec.
    destruct (TotalFailed r =? 0) eqn:Hz; [lia|].
    unfold Fprint. cbn [steps tick]. rewrite Hwrites.
    eexists. split_and!; [done..|]. cbn. by rewrite <- app_assoc.
  - eexists. split_and!; done.
Qed.

(** X12.  When a script of the result has no histogram, [ReportLatency] of
    [CsvOutput] panics before it writes: no row of any script reaches the
    data stream. *)
Theorem CsvOutput_ReportLatency_nil_histogram (o : CsvOutput.t) (r : Result)
    (name : string) (s : ScriptResult) env w :
  ranges (Scripts r) (range_scripts env (steps w) (Scripts r)) →
  Scripts r !! name = Some s → deref (heap w) (Latencies s) = None →
  CsvOutput.ReportLatency o r env w = Panic (tick w) ∧
  written (tick w) = written w.
Proof.
  intros Hvisit Hname Hnil. split; [|done].
  unfold CsvOutput.ReportLatency, CsvOutput.writeLatencyRow.
  unfold mbind at 1 2 3, M_bind, rangeScripts.
  rewrite forM_latencyRow_nil; [done|].
  apply Exists_exists. exists (name, s). split; [|done].
  rewrite Hvisit. by apply elem_of_map_to_list.
Qed.

(** X22.  [CsvOutput.ReportWorkloadProgress] sends the whole latency
    table again at every checkpoint.  After the progress line, which goes
    to the error stream, the data stream receives one row of fourteen
    cells per script of the checkpoint, in the order of the [range] and
    without a header; the failure summary follows on the error stream when
    a transaction of the checkpoint failed.  When the progress line cannot
    be written the call panics and nothing has been written. *)
Theorem CsvOutput_progress_writes_rows (o : CsvOutput.t) (completeness : float)
    (checkpoint : Result) env w :
  let line := "[workload] " +:+ FormatFloat 2 (completeness * 100)%float +:+
              "% done" +:+ nl in
  let scripts := range_scripts env (S (steps w)) (Scripts checkpoint) in
  let groups :=
    range_groups env (S (S (S (steps w)))) (FailedByErrorGroup checkpoint) in
  wf_result (heap w) checkpoint → ranges (Scripts checkpoint) scripts →
  (write_fails env (steps w) = true →
     CsvOutput.ReportWorkloadProgress o completeness checkpoint env w = Panic (tick w) ∧
     written (tick w) = written w) ∧
  ((∀ n, write_fails env n = false) →
     ∃ rows w',
       CsvOutput.ReportWorkloadProgress o completeness checkpoint env w = Done o w' ∧
       Forall2 (λ (s : string * ScriptResult) row,
                  ∃ histo, deref (heap w) (Latencies s.2) = Some histo ∧
                           length (latencyCells checkpoint s.2 histo) = 14%nat ∧
                           row = Join (latencyCells checkpoint s.2 histo) "," +:+ nl)
               scripts rows ∧
       length rows = size (Scripts checkpoint) ∧
       written w' =
         written w ++
         (CsvOutput.ErrStream o, line) ::
         (CsvOutput.OutStream o, String.concat "" rows) ::
         (if 0 <? TotalFailed checkpoint
          then [(CsvOutput.ErrStream o, writeErrorReport checkpoint groups)] else [])).
Proof.
  intros line scripts groups Hwf Hvisit. split.
  - intros Hfails. split; [|done].
    unfold CsvOutput.ReportWorkloadProgress.
    apply bind_panic. unfold Fprint. by rewrite Hfails.
  - intros Hwrites.
    unfold CsvOutput.ReportWorkloadProgress. fold line.
    erewrite bind_done by (unfold Fprint; rewrite Hwrites; reflexivity).
    set (w1 := {| heap := heap w; steps := S (steps w);
                  written := written w ++ [(CsvOutput.ErrStream o, line)];
                  metrics_served := metrics_served w |}).
    assert (Forall (λ s : string * ScriptResult, valid (heap (tick w1)) (Latencies s.2))
                   scripts) as Hvalid.
    { apply Forall_forall. intros [name s] Hs.
      rewrite Hvisit in Hs. apply elem_of_map_to_list in Hs. by eapply Hwf. }
    destruct (forM_latencyRow_rows checkpoint scripts env (tick w1) Hvalid)
      as (rows & Hrows & Hall).
    exists rows.
    unfold CsvOutput.ReportLatency, CsvOutput.writeLatencyRow, CsvOutput.reportFailures.
    unfold mbind at 1 2 3, M_bind, rangeScripts.
    change (range_scripts env (steps w1) (Scripts checkpoint)) with scripts.
    rewrite Hrows.
    assert (Forall2 (λ (s : string * ScriptResult) row,
                       ∃ histo, deref (heap w) (Latencies s.2) = Some histo ∧
                                length (latencyCells checkpoint s.2 histo) = 14%nat ∧
                                row = Join (latencyCells checkpoint s.2 histo) "," +:+ nl)
                    scripts rows) as Hall'.
    { eapply Forall2_impl; [exact Hall|]. intros s row (histo & ? & ?). by exists histo. }
    assert (length rows = size (Scripts checkpoint)) as Hlength.
    { apply Forall2_length in Hall. rewrite <- Hall, Hvisit.
      apply length_map_to_list. }
    unfold mbind, M_bind, mret, M_ret. unfold Fprint at 1.
    cbn [steps tick w1]. rewrite Hwrites.
    destruct (0 <? TotalFailed checkpoint) eqn:Hfailed.
    + rewrite writeErrorReportM_spec.
      destruct (TotalFailed checkpoint =? 0) eqn:Hz; [lia|].
      unfold Fprint. cbn [steps tick]. rewrite Hwrites.
      eexists. split_and!; [done..|]. cbn. by rewrite <- !app_assoc.
    + eexists. split_and!; [done..|]. cbn. by rewrite <- app_assoc.
Qed.

End CsvReports.

Section FinalReports.
Context {Histogram Snapshot : Type} `{!hdrhistogram.API Histogram Snapshot}.
Context `{!GoFmt}.
Implicit Types (w : World (Histogram := Histogram)) (env : Env).
#[local] Abbreviation M := (M (Histogram := Histogram)).

Lemma forM_load_nil {B} (g : string * ScriptResult → Histogram → B) scripts env w :
  Exists (λ s : string * ScriptResult, deref (heap w) (Latencies s.2) = None) scripts →
  forM (λ workload : string * ScriptResult,
          histo ← load (Latencies workload.2); mret (g workload histo))
       scripts env w = Panic w.
Proof.
  intros Hnil. apply forM_panic.
  - apply Forall_forall. intros s _. unfold mbind, M_bind, load.
    by destruct (deref (heap w) (Latencies s.2)).
  - eapply Exists_impl; [exact Hnil|]. intros s Hs. unfold mbind, M_bind, load.
    by rewrite Hs.
Qed.

(** X13.  [InteractiveOutput.ReportLatency] reads the histograms only when
    some transaction succeeded.  With no successful transaction it prints
    the heading, the totals and the error report, whatever the scripts
    point to; with one, a script without a histogram makes it panic before
    it writes. *)
Theorem InteractiveOutput_ReportLatency_without_successes
    (o : InteractiveOutput.t) (r : Result) env w :
  let rate := TotalRate_visit (range_scripts env (steps w) (Scripts r)) in
  let groups := range_groups env (S (steps w)) (FailedByErrorGroup r) in
  (TotalSucceeded r ≤ 0 → (∀ n, write_fails env n = false) →
   ∃ w', InteractiveOutput.ReportLatency o r env w = Done o w' ∧
     written w' =
       written w ++
       [(InteractiveOutput.OutStream o,
         "== Results ==" +:+ nl +:+
         "Scenario: " +:+ Scenario r +:+ nl +:+
         totalsLine (TotalSucceeded r) (TotalFailed r) rate +:+
         nl +:+
         writeErrorReport r groups)]) ∧
  (0 < TotalSucceeded r →
   ranges (Scripts r) (range_scripts env (S (steps w)) (Scripts r)) →
   ∀ name s, Scripts r !! name = Some s → deref (heap w) (Latencies s) = None →
   ∃ w', InteractiveOutput.ReportLatency o r env w = Panic w' ∧
         written w' = written w).
Proof.
  intros rate groups. split.
  - intros Hnone Hwrites. unfold InteractiveOutput.ReportLatency, TotalRate.
    assert ((0 <? TotalSucceeded r) = false) as -> by lia.
    unfold mbind, M_bind, mret, M_ret, rangeScripts. fold rate.
    rewrite writeErrorReportM_spec. cbn [steps tick].
    destruct (TotalFailed r =? 0) eqn:Hz.
    + unfold Fprint. cbn [steps tick]. rewrite Hwrites.
      eexists. split; [done|]. cbn [written]. do 3 f_equal.
      unfold writeErrorReport. by rewrite Hz.
    + unfold Fprint. cbn [steps tick]. rewrite Hwrites.
      eexists. split; [done|]. reflexivity.
  - intros Hsome Hvisit name s Hname Hnil.
    unfold InteractiveOutput.ReportLatency, TotalRate.
    assert ((0 <? TotalSucceeded r) = true) as -> by lia.
    exists (tick (tick w)). split; [|done].
    erewrite bind_done by reflexivity. apply bind_panic.
    erewrite bind_done by reflexivity. apply forM_load_nil.
    apply Exists_exists. exists (name, s). split; [|done].
    cbn [steps tick]. rewrite Hvisit. by apply elem_of_map_to_list.
Qed.

(** X14.  [CsvOutput.ReportThroughput] never reads a histogram.  When no
    write fails it returns, having written to the data stream, in one
    piece, its own header of four columns and one row per script in the
    order of the [range]; the failure summary follows on the error stream,
    and only when something failed. *)
Theorem CsvOutput_ReportThroughput_table (o : CsvOutput.t) (r : Result) env w :
  let scripts := range_scripts env (steps w) (Scripts r) in
  let groups := range_groups env (S (S (steps w))) (FailedByErrorGroup r) in
  (∀ n, write_fails env n = false) →
  ∃ w', CsvOutput.ReportThroughput o r env w = Done o w' ∧
    written w' =
      written w ++
      (CsvOutput.OutStream o,
       "script,succeeded,failed,transactions_per_second" +:+ nl +:+
       String.concat "" ((λ s, throughputRow s.2) <$> scripts)) ::
      (if 0 <? TotalFailed r
       then [(CsvOutput.ErrStream o, writeErrorReport r groups)] else []) ∧
    heap w' = heap w.
Proof.
  intros scripts groups Hwrites.
  unfold CsvOutput.ReportThroughput, CsvOutput.reportFailures.
  unfold mbind, M_bind, mret, M_ret, rangeScripts. fold scripts.
  unfold Fprint at 1. cbn [steps tick]. rewrite Hwrites.
  destruct (0 <? TotalFailed r) eqn:Hfailed.
  - rewrite writeErrorReportM_spec.
    destruct (TotalFailed r =? 0) eqn:Hz; [lia|].
    unfold Fprint. cbn [steps tick]. rewrite Hwrites.
    eexists. split_and!; [done| |done]. cbn. by rewrite <- app_assoc.
  - eexists. split_and!; done.
Qed.

Lemma append_assoc (a b c : string) : a +:+ (b +:+ c) = (a +:+ b) +:+ c.
Proof.
  induction a as [|x a IH]; [reflexivity|].
  change (String x (a +:+ (b +:+ c)) = String x ((a +:+ b) +:+ c)). by f_equal.
Qed.

Lemma infix_here (sub rest : string) :
  ∃ before after, sub +:+ rest = before +:+ sub +:+ after.
Proof. by exists "", rest. Qed.

Lemma infix_later (sub a s : string) :
  (∃ before after, s = before +:+ sub +:+ after) →
  ∃ before after, a +:+ s = before +:+ sub +:+ after.
Proof.
  intros (before & after & ->). exists (a +:+ before), after.
  by rewrite append_assoc.
Qed.

(** X15.  [InteractiveOutput.ReportThroughput] hands the report it has built
    to [Fprintf] as the format, without operands: what reaches the data
    stream is the report formatted once more.  When something failed the
    format holds the percent sign of the failure percentage followed by a
    closing parenthesis, a verb for which there is no operand. *)
Theorem InteractiveOutput_ReportThroughput_formats_twice
    (o : InteractiveOutput.t) (r : Result) env w :
  let rate := TotalRate_visit (range_scripts env (steps w) (Scripts r)) in
  let scripts := range_scripts env (S (steps w)) (Scripts r) in
  let groups := range_groups env (S (S (steps w))) (FailedByErrorGroup r) in
  let report :=
    "== Results ==" +:+ nl +:+
    "Scenario: " +:+ Scenario r +:+ nl +:+
    totalsLine (TotalSucceeded r) (TotalFailed r) rate +:+
    nl +:+
    String.concat ""
      ((λ script : string * ScriptResult,
          "  [" +:+ ScriptName script.2 +:+ "]: " +:+ FormatFloat 3 (Rate script.2) +:+
          " total transactions per second" +:+ nl) <$> scripts) +:+
    nl +:+
    writeErrorReport r groups in
  (∀ n, write_fails env n = false) →
  (∃ w', InteractiveOutput.ReportThroughput o r env w = Done o w' ∧
     written w' =
       written w ++ [(InteractiveOutput.OutStream o, Sprintf report [])]) ∧
  (TotalFailed r ≠ 0 →
   ∃ before after, report = before +:+ " %)" +:+ after).
Proof.
  intros rate scripts groups report Hwrites. split.
  - unfold InteractiveOutput.ReportThroughput, TotalRate.
    unfold mbind, M_bind, mret, M_ret, rangeScripts. fold rate.
    cbn [steps tick]. fold scripts.
    rewrite writeErrorReportM_spec. cbn [steps tick].
    destruct (TotalFailed r =? 0) eqn:Hz.
    + unfold Fprint. cbn [steps tick]. rewrite Hwrites.
      eexists. split; [done|]. cbn [written]. do 4 f_equal.
      unfold report, writeErrorReport. by rewrite Hz.
    + unfold Fprint. cbn [steps tick]. rewrite Hwrites.
      eexists. split; [done|]. reflexivity.
  - intros Hfailed. unfold report, writeErrorReport.
    destruct (TotalFailed r =? 0) eqn:Hz; [lia|].
    repeat first [apply infix_here|apply infix_later].
Qed.

End FinalReports.

Section LatencySections.
Context {Histogram Snapshot : Type} `{!hdrhistogram.API Histogram Snapshot}.
Context `{!GoFmt}.
Implicit Types (w : World (Histogram := Histogram)) (env : Env).
#[local] Abbreviation M := (M (Histogram := Histogram)).

(** A loop whose body returns without an effect returns the results in
    the world it started in. *)
Lemma forM_done {A B} (f : A → M B) (l : list A) (bs : list B) env w :
  Forall2 (λ x b, f x env w = Done b w) l bs → forM f l env w = Done bs w.
Proof.
  induction 1 as [|x b l bs Hx _ IH]; [done|].
  cbn [forM]. unfold mbind, M_bind, mret, M_ret. by rewrite Hx, IH.
Qed.

(** X16.  When some transaction succeeded, [InteractiveOutput.ReportLatency]
    prints, between the totals and the error report, one section per
    script in the order of the [range]: the name of the script and the
    ten lines of its latency summary, each indented by two spaces. *)
Theorem InteractiveOutput_ReportLatency_sections
    (o : InteractiveOutput.t) (r : Result) env w :
  let rate := TotalRate_visit (range_scripts env (steps w) (Scripts r)) in
  let scripts := range_scripts env (S (steps w)) (Scripts r) in
  let groups := range_groups env (S (S (steps w))) (FailedByErrorGroup r) in
  0 < TotalSucceeded r → wf_result (heap w) r → ranges (Scripts r) scripts →
  (∀ n, write_fails env n = false) →
  ∃ sections w',
    InteractiveOutput.ReportLatency o r env w = Done o w' ∧
    Forall2 (λ (s : string * ScriptResult) section,
               ∃ histo, deref (heap w) (Latencies s.2) = Some histo ∧
                 length (latencyLines histo s.2) = 10%nat ∧
                 section =
                   nl +:+ "-- Script: " +:+ ScriptName s.2 +:+ " --" +:+ nl +:+ nl +:+
                   String.concat ""
                     ((λ line, "  " +:+ line) <$> latencyLines histo s.2))
            scripts sections ∧
    written w' =
      written w ++
      [(InteractiveOutput.OutStream o,
        "== Results ==" +:+ nl +:+
        "Scenario: " +:+ Scenario r +:+ nl +:+
        totalsLine (TotalSucceeded r) (TotalFailed r) rate +:+
        String.concat "" sections +:+
        nl +:+
        writeErrorReport r groups)].
Proof.
  intros rate scripts groups Hsome Hwf Hvisit Hwrites.
  set (section := λ (s : string * ScriptResult) (histo : Histogram),
         nl +:+ "-- Script: " +:+ ScriptName s.2 +:+ " --" +:+ nl +:+ nl +:+
         summarizeLatency histo s.2 "  ").
  assert (∃ sections,
            Forall2 (λ (s : string * ScriptResult) text,
                       ∃ histo, deref (heap w) (Latencies s.2) = Some histo ∧
                                text = section s histo) scripts sections)
    as (sections & Hsections).
  { assert (Forall (λ s : string * ScriptResult, valid (heap w) (Latencies s.2)) scripts)
      as Hvalid.
    { apply Forall_forall. intros [name s] Hs.
      rewrite Hvisit in Hs. apply elem_of_map_to_list in Hs. by eapply Hwf. }
    clear Hvisit. induction Hvalid as [|s l [histo Hs] _ (sections & IH)].
    - exists []. constructor.
    - exists (section s histo :: sections). constructor; [by exists histo|done]. }
  exists sections.
  unfold InteractiveOutput.ReportLatency, TotalRate.
  assert ((0 <? TotalSucceeded r) = true) as -> by lia.
  erewrite bind_done by reflexivity. fold rate.
  erewrite bind_done.
  2:{ erewrite bind_done by reflexivity. cbn [steps tick]. fold scripts.
      apply forM_done. eapply Forall2_impl; [exact Hsections|].
      intros s text (histo & Hs & ->). cbn beta.
      unfold mbind, M_bind, load. cbn [heap tick]. by rewrite Hs. }
  assert (Forall2 (λ (s : string * ScriptResult) section,
               ∃ histo, deref (heap w) (Latencies s.2) = Some histo ∧
                 length (latencyLines histo s.2) = 10%nat ∧
                 section =
                   nl +:+ "-- Script: " +:+ ScriptName s.2 +:+ " --" +:+ nl +:+ nl +:+
                   String.concat ""
                     ((λ line, "  " +:+ line) <$> latencyLines histo s.2))
            scripts sections) as Hsections'.
  { eapply Forall2_impl; [exact Hsections|].
    intros s text (histo & Hs & ->). by exists histo. }
  destruct (TotalFailed r =? 0) eqn:Hz.
  - erewrite bind_done by (rewrite writeErrorReportM_spec, Hz; reflexivity).
    unfold mbind, M_bind, mret, M_ret, Fprint. cbn [steps tick]. rewrite Hwrites.
    eexists. split_and!; [done|done|]. cbn [written]. do 3 f_equal.
    unfold writeErrorReport. by rewrite Hz.
  - erewrite bind_done by (rewrite writeErrorReportM_spec, Hz; reflexivity).
    unfold mbind, M_bind, mret, M_ret, Fprint. cbn [steps tick]. rewrite Hwrites.
    eexists. split_and!; [done|done|]. reflexivity.
Qed.

End LatencySections.

(** *** The unit of the standard deviation *)

Section StandardDeviation.
Context {Histogram Snapshot : Type} `{!hdrhistogram.API Histogram Snapshot}.
Context `{!GoFmt}.
Implicit Types (h : gmap loc Histogram) (r : Result) (s : ScriptResult).
Implicit Types (w : World (Histogram := Histogram)) (env : Env).

(** C10.  In a latency row the [stdev] column holds the histogram's
    standard deviation as it is, while the [mean] column and the seven
    percentile columns hold their values divided by 1000.
    [summarizeLatency], the summary of [InteractiveOutput], divides the
    standard deviation by 1000 like the rest: its second line ends in
    [Stddev:] followed by [StdDev()/1000].  That summary is what
    [InteractiveOutput.ReportLatency] writes for the script, in the
    section of the script. *)
Theorem csv_stdev_is_not_scaled h r s histo :
  deref h (Latencies s) = Some histo →
  let ms (v : Z) : float := (float64_of_int64 v / 1000)%float in
  fst <$> csvColumns =
    ["db"; "script"; "rate"; "succeeded"; "failed"; "mean"; "stdev";
     "p0"; "p25"; "p50"; "p75"; "p99"; "p99999"; "p100"] ∧
  latencyRow h r s =
    Some (Join
            [ dquote +:+ DatabaseName r +:+ dquote;
              dquote +:+ ScriptName s +:+ dquote;
              FormatFloat 3 (Rate s);
              FormatFloat 3 (float64_of_int64 (hdrhistogram.TotalCount histo));
              FormatFloat 3 (float64_of_int64 (Failed s));
              FormatFloat 3 (hdrhistogram.Mean histo / 1000)%float;
              FormatFloat 3 (hdrhistogram.StdDev histo);
              FormatFloat 3 (ms (hdrhistogram.Min histo));
              FormatFloat 3 (ms (hdrhistogram.ValueAtQuantile histo 25));
              FormatFloat 3 (ms (hdrhistogram.ValueAtQuantile histo 50));
              FormatFloat 3 (ms (hdrhistogram.ValueAtQuantile histo 75));
              FormatFloat 3 (ms (hdrhistogram.ValueAtQuantile histo 99));
              FormatFloat 3 (ms (hdrhistogram.ValueAtQuantile histo 99.999));
              FormatFloat 3 (ms (hdrhistogram.Max histo)) ] ","
          +:+ nl) ∧
  latencyLines histo s !! 1%nat =
    Some ("Max: " +:+ FormatFloat 3 (ms (hdrhistogram.Max histo)) +:+
          "ms, Min: " +:+ FormatFloat 3 (ms (hdrhistogram.Min histo)) +:+
          "ms, Mean: " +:+ FormatFloat 3 (hdrhistogram.Mean histo / 1000)%float +:+
          "ms, Stddev: " +:+ FormatFloat 3 (hdrhistogram.StdDev histo / 1000)%float +:+
          nl +:+ nl) ∧
  (∀ indent,
     summarizeLatency histo s indent =
       (indent +:+
          Sprint_d (Succeeded s) +:+ " successful transactions, " +:+
          Sprint_d (Failed s) +:+ " failed. (Total of " +:+
          FormatFloat 3 (Rate s) +:+ " per second)" +:+ nl) +:+
       (indent +:+
          "Max: " +:+ FormatFloat 3 (ms (hdrhistogram.Max histo)) +:+
          "ms, Min: " +:+ FormatFloat 3 (ms (hdrhistogram.Min histo)) +:+
          "ms, Mean: " +:+ FormatFloat 3 (hdrhistogram.Mean histo / 1000)%float +:+
          "ms, Stddev: " +:+ FormatFloat 3 (hdrhistogram.StdDev histo / 1000)%float +:+
          nl +:+ nl) +:+
       (indent +:+ "Latency distribution:" +:+ nl) +:+
       (indent +:+ "  P00.000: " +:+
          FormatFloat 3 (ms (hdrhistogram.Min histo)) +:+ "ms" +:+ nl) +:+
       (indent +:+ "  P25.000: " +:+
          FormatFloat 3 (ms (hdrhistogram.ValueAtQuantile histo 25)) +:+ "ms" +:+ nl) +:+
       (indent +:+ "  P50.000: " +:+
          FormatFloat 3 (ms (hdrhistogram.ValueAtQuantile histo 50)) +:+ "ms" +:+ nl) +:+
       (indent +:+ "  P75.000: " +:+
          FormatFloat 3 (ms (hdrhistogram.ValueAtQuantile histo 75)) +:+ "ms" +:+ nl) +:+
       (indent +:+ "  P95.000: " +:+
          FormatFloat 3 (ms (hdrhistogram.ValueAtQuantile histo 95)) +:+ "ms" +:+ nl) +:+
       (indent +:+ "  P99.000: " +:+
          FormatFloat 3 (ms (hdrhistogram.ValueAtQuantile histo 99)) +:+ "ms" +:+ nl) +:+
       (indent +:+ "  P99.999: " +:+
          FormatFloat 3 (ms (hdrhistogram.ValueAtQuantile histo 99.999)) +:+ "ms" +:+ nl)) ∧
  (∀ (o : InteractiveOutput.t) env w name,
     let rate := TotalRate_visit (range_scripts env (steps w) (Scripts r)) in
     let scripts := range_scripts env (S (steps w)) (Scripts r) in
     let groups := range_groups env (S (S (steps w))) (FailedByErrorGroup r) in
     heap w = h → Scripts r !! name = Some s →
     0 < TotalSucceeded r → wf_result h r → ranges (Scripts r) scripts →
     (∀ n, write_fails env n = false) →
     ∃ sections w' i,
       InteractiveOutput.ReportLatency o r env w = Done o w' ∧
       written w' =
         written w ++
         [(InteractiveOutput.OutStream o,
           "== Results ==" +:+ nl +:+
           "Scenario: " +:+ Scenario r +:+ nl +:+
           totalsLine (TotalSucceeded r) (TotalFailed r) rate +:+
           String.concat "" sections +:+
           nl +:+
           writeErrorReport r groups)] ∧
       length sections = length scripts ∧
       scripts !! i = Some (name, s) ∧
       sections !! i =
         Some (nl +:+ "-- Script: " +:+ ScriptName s +:+ " --" +:+ nl +:+ nl +:+
               summarizeLatency histo s "  ")).
Proof.
  intros Hhisto ms. split_and!.
  - reflexivity.
  - by apply latencyRow_cells.
  - reflexivity.
  - intros indent. reflexivity.
  - intros o env w name rate scripts groups Hheap Hname Hsome Hwf Hvisit Hwrites.
    subst h.
    set (section := λ (s' : string * ScriptResult) (histo' : Histogram),
           nl +:+ "-- Script: " +:+ ScriptName s'.2 +:+ " --" +:+ nl +:+ nl +:+
           summarizeLatency histo' s'.2 "  ").
    assert (∃ sections,
              Forall2 (λ (s' : string * ScriptResult) text,
                         ∃ histo', deref (heap w) (Latencies s'.2) = Some histo' ∧
                                   text = section s' histo') scripts sections)
      as (sections & Hsections).
    { assert (Forall (λ s' : string * ScriptResult, valid (heap w) (Latencies s'.2))
                     scripts) as Hvalid.
      { apply Forall_forall. intros [name' s'] Hs'.
        rewrite Hvisit in Hs'. apply elem_of_map_to_list in Hs'. by eapply Hwf. }
      clear Hvisit. induction Hvalid as [|s' l [histo' Hs'] _ (sections & IH)].
      - exists []. constructor.
      - exists (section s' histo' :: sections). constructor; [by exists histo'|done]. }
    assert ((name, s) ∈ scripts) as Hin.
    { rewrite Hvisit. by apply elem_of_map_to_list. }
    apply list_elem_of_lookup_1 in Hin as [i Hi].
    destruct (Forall2_lookup_l _ _ _ _ _ Hsections Hi)
      as (text & Htext & histo' & Hhisto' & ->).
    cbn [snd] in Hhisto'. rewrite Hhisto in Hhisto'. injection Hhisto' as <-.
    exists sections.
    assert (∃ w', InteractiveOutput.ReportLatency o r env w = Done o w' ∧
              written w' =
                written w ++
                [(InteractiveOutput.OutStream o,
                  "== Results ==" +:+ nl +:+
                  "Scenario: " +:+ Scenario r +:+ nl +:+
                  totalsLine (TotalSucceeded r) (TotalFailed r) rate +:+
                  String.concat "" sections +:+
                  nl +:+
                  writeErrorReport r groups)]) as (w' & Hrun & Hwritten).
    { unfold InteractiveOutput.ReportLatency, TotalRate.
      assert ((0 <? TotalSucceeded r) = true) as -> by lia.
      erewrite bind_done by reflexivity. fold rate.
      erewrite bind_done.
      2:{ erewrite bind_done by reflexivity. cbn [steps tick]. fold scripts.
          apply forM_done. eapply Forall2_impl; [exact Hsections|].
          intros s' text (histo' & Hs' & ->). cbn beta.
          unfold mbind, M_bind, load. cbn [heap tick]. by rewrite Hs'. }
      destruct (TotalFailed r =? 0) eqn:Hz.
      - erewrite bind_done by (rewrite writeErrorReportM_spec, Hz; reflexivity).
        unfold mbind, M_bind, mret, M_ret, Fprint. cbn [steps tick]. rewrite Hwrites.
        eexists. split; [done|]. cbn [written]. do 3 f_equal.
        unfold writeErrorReport. by rewrite Hz.
      - erewrite bind_done by (rewrite writeErrorReportM_spec, Hz; reflexivity).
        unfold mbind, M_bind, mret, M_ret, Fprint. cbn [steps tick]. rewrite Hwrites.
        eexists. split; [done|]. reflexivity. }
    exists w', i. split_and!; [done|done| |done|done].
    symmetry. by eapply Forall2_length.
Qed.

End StandardDeviation.

(** *** Diagnostics, streams and construction *)

Section Diagnostics.
Context {Histogram Snapshot : Type} `{!hdrhistogram.API Histogram Snapshot}.
Context `{!GoFmt}.
Implicit Types (w : World (Histogram := Histogram)) (env : Env).
#[local] Abbreviation M := (M (Histogram := Histogram)).

#[local] Arguments time.Seconds : simpl never.
#[local] Arguments time.Sub : simpl never.
#[local] Arguments initProgressLine : simpl never.
#[local] Arguments startLines : simpl never.
#[local] Arguments String.eqb : simpl never.

(** X17.  On the error stream a [CsvOutput] is an [InteractiveOutput]:
    [ReportInitProgress], with its rate limit, and [Errorf] are the same
    for both, and [BenchmarkStart] of [CsvOutput] is that of
    [InteractiveOutput] followed by the header line. *)
Theorem CsvOutput_diagnostics_as_InteractiveOutput (o : CsvOutput.t) env w :
  (∀ report,
     CsvOutput.ReportInitProgress o report env w =
       (asCsv <$> InteractiveOutput.ReportInitProgress (asInteractive o) report) env w) ∧
  (∀ format a,
     CsvOutput.Errorf o format a env w =
       (asCsv <$> InteractiveOutput.Errorf (asInteractive o) format a) env w) ∧
  (∀ databaseName url scenario,
     CsvOutput.BenchmarkStart o databaseName url scenario env w =
       (InteractiveOutput.BenchmarkStart (asInteractive o) databaseName url scenario;;
        Fprint (CsvOutput.OutStream o) (Join (fst <$> csvColumns) "," +:+ nl);;
        mret o) env w).
Proof.
  destruct o as [err out last lastTime]. split_and!.
  - intros report.
    unfold CsvOutput.ReportInitProgress, InteractiveOutput.ReportInitProgress. run.
    destruct (suppressed _ _ _ _); [done|]. cbn.
    by destruct (write_fails env (S (steps w))).
  - intros format a. unfold CsvOutput.Errorf, InteractiveOutput.Errorf. run.
    by destruct (write_fails env (steps w)).
  - intros databaseName url scenario.
    unfold CsvOutput.BenchmarkStart, InteractiveOutput.BenchmarkStart. run.
    by destruct (write_fails env (steps w)).
Qed.

#[local] Instance wrote_to_preorder wr : PreOrder (wrote_to (Histogram := Histogram) wr).
Proof.
  split.
  - intros w. exists []. by rewrite app_nil_r.
  - intros w1 w2 w3 (more1 & H1 & Hall1) (more2 & H2 & Hall2).
    exists (more1 ++ more2). split.
    + by rewrite H2, H1, app_assoc.
    + by apply Forall_app.
Qed.

Lemma wrote_to_tick wr w : wrote_to wr w (tick w).
Proof. exists []. by rewrite app_nil_r. Qed.

Lemma wrote_to_Fprint wr text : respects (wrote_to wr) (Fprint wr text : M ()).
Proof.
  intros env w. unfold Fprint. destruct (write_fails env (steps w)); cbn.
  - exists []. by rewrite app_nil_r.
  - exists [(wr, text)]. split; [done|]. by repeat constructor.
Qed.

(** Proves [respects (wrote_to wr)] of a composition of effects that
    write to [wr] only. *)
Ltac wrote :=
  repeat match goal with
    | |- respects _ (mret _) => apply (respects_ret (wrote_to _))
    | |- respects _ (mbind _ _) => apply (respects_bind (wrote_to _)); [|intros ?]
    | |- respects _ (Fprint _ _) => apply wrote_to_Fprint
    | |- respects _ (forM _ _) => apply (respects_forM (wrote_to _)); intros ?
    | |- respects _ Now =>
        apply (respects_tick _ (wrote_to_tick _) (λ env n, clock env n))
    | |- respects _ (rangeScripts ?m) =>
        apply (respects_tick _ (wrote_to_tick _) (λ env n, range_scripts env n m))
    | |- respects _ (TotalRate _) => apply (respects_TotalRate _ (wrote_to_tick _))
    | |- respects _ (writeErrorReportM _) =>
        apply (respects_writeErrorReportM _ (wrote_to_tick _))
    | |- respects _ (load _) => apply (respects_load (wrote_to _))
    | |- respects _ (if ?b then _ else _) => destruct b
    end.

(** X18.  An [InteractiveOutput] keeps its streams apart: the two final
    reports go to [OutStream] and to no other writer; the start lines, the
    progress lines and the errors go to [ErrStream] and to no other
    writer. *)
Theorem InteractiveOutput_streams (i : InteractiveOutput.t) (c : Call) env w :
  wrote_to (if is_report c then InteractiveOutput.OutStream i
            else InteractiveOutput.ErrStream i)
           w (world_of (invoke (Interactive i) c env w)).
Proof.
  revert env w.
  change (respects (wrote_to (if is_report c then InteractiveOutput.OutStream i
                              else InteractiveOutput.ErrStream i))
                   (invoke (Interactive i) c : M Output)).
  destruct c; cbn [invoke is_report]; apply respects_fmap.
  - unfold InteractiveOutput.BenchmarkStart. wrote.
  - unfold InteractiveOutput.ReportInitProgress. wrote.
  - unfold InteractiveOutput.ReportWorkloadProgress. wrote.
  - unfold InteractiveOutput.ReportThroughput. wrote.
  - unfold InteractiveOutput.ReportLatency. wrote.
  - unfold InteractiveOutput.Errorf. wrote.
Qed.

(** X19.  [InitOutput] with a Prometheus address builds the output it
    builds without one, and combines it with a new [PrometheusOutput], in
    this order; the listener is registered once, so a second call with an
    address panics.  With [auto], a failed [Stat] of the standard output
    is a panic. *)
Theorem InitOutput_with_prometheus (name prometheusAddress : string)
    (output : Output) env w :
  (prometheusAddress ≠ "" →
   InitOutput name "" env w = Done (Some output, None) w →
   InitOutput name prometheusAddress env w =
     match metrics_served w with
     | [] =>
         Done (Some (Combined [output; Prometheus NewPrometheusOutput]), None)
              {| heap := heap w; steps := steps w; written := written w;
                 metrics_served := [prometheusAddress] |}
     | _ => Panic w
     end) ∧
  (stdout_char_device env = None →
   InitOutput "auto" prometheusAddress env w = Panic w).
Proof.
  split.
  - intros Haddress%String.eqb_neq.
    unfold InitOutput, resolveAuto, withPrometheus, InitPrometheus. run.
    rewrite Haddress. change (String.eqb "" "") with true. cbn.
    destruct (String.eqb name "auto"); cbn.
    + destruct (stdout_char_device env) as [[]|]; cbn; [| |done].
      * change (String.eqb "interactive" "interactive") with true. cbn.
        intros [= <-]. by destruct (metrics_served w).
      * change (String.eqb "csv" "interactive") with false.
        change (String.eqb "csv" "csv") with true. cbn.
        intros [= <-]. by destruct (metrics_served w).
    + destruct (String.eqb name "interactive"); cbn.
      * intros [= <-]. by destruct (metrics_served w).
      * destruct (String.eqb name "csv"); cbn; [|done].
        intros [= <-]. by destruct (metrics_served w).
  - intros Hstat. unfold InitOutput, resolveAuto. run.
    change (String.eqb "auto" "auto") with true. cbn. by rewrite Hstat.
Qed.

(** X20.  A renderer that has not reported yet reports: its last progress
    time is the zero [Time], and the time since then, saturated to the
    longest [Duration], is not less than 10 seconds.  So the first call of
    [ReportInitProgress] writes its line, even for a report whose section
    and step are empty as those of the zero [ProgressReport] are. *)
Theorem ReportInitProgress_first_report (o : InteractiveOutput.t)
    (report : ProgressReport) env w :
  InteractiveOutput.LastProgressTime o = 0 →
  time.maxDuration ≤ clock env (steps w) →
  write_fails env (S (steps w)) = false →
  ∃ o' w',
    InteractiveOutput.ReportInitProgress o report env w = Done o' w' ∧
    written w' =
      written w ++ [(InteractiveOutput.ErrStream o, initProgressLine report)] ∧
    InteractiveOutput.LastProgressReport o' = report ∧
    InteractiveOutput.LastProgressTime o' = clock env (steps w).
Proof.
  intros Hzero Hnow Hwrite.
  unfold InteractiveOutput.ReportInitProgress, suppressed. run.
  rewrite Hzero.
  replace (time.Sub (clock env (steps w)) 0) with time.maxDuration.
  2:{ unfold time.Sub, time.minDuration, time.maxDuration in *. lia. }
  change (time.Seconds time.maxDuration <? 10)%float with false.
  rewrite !andb_false_r. cbn. rewrite Hwrite. cbn. by eexists _, _.
Qed.

End Diagnostics.

Section PrometheusCounters.
Context {Histogram Snapshot : Type} `{!hdrhistogram.API Histogram Snapshot}.
Context `{!GoFmt}.
Implicit Types (w : World (Histogram := Histogram)) (env : Env).

(** X21.  [PrometheusOutput.ReportWorkloadProgress] adds the totals of the
    checkpoint it is given to the two counters, at every call, and does
    nothing else; totals that are not negative never make a counter
    panic. *)
Theorem PrometheusOutput_adds_checkpoint_totals (p : PrometheusOutput.t)
    (completeness : float) (checkpoint : Result) env w :
  0 ≤ TotalSucceeded checkpoint → 0 ≤ TotalFailed checkpoint →
  PrometheusOutput.ReportWorkloadProgress p completeness checkpoint env w =
    Done {| PrometheusOutput.totalSucceededCounter :=
              (PrometheusOutput.totalSucceededCounter p +
               float64_of_int64 (TotalSucceeded checkpoint))%float;
            PrometheusOutput.totalFailedCounter :=
              (PrometheusOutput.totalFailedCounter p +
               float64_of_int64 (TotalFailed checkpoint))%float |} w.
Proof.
  intros Hsucceeded Hfailed.
  pose proof (TotalSucceeded_int64 checkpoint) as [_ ?].
  pose proof (TotalFailed_int64 checkpoint) as [_ ?].
  unfold PrometheusOutput.ReportWorkloadProgress, PrometheusOutput.Counter_Add.
  by rewrite !float64_of_int64_nonneg by done.
Qed.

End PrometheusCounters.

(** ** Concrete runs, on the reference implementations *)

#[local] Existing Instance Reference.fmt.

Lemma quietEnv_ranges : env_ranges quietEnv.
Proof. intros n. split; intros m; by unfold ranges. Qed.

Lemma txResult_wf succeeded failed :
  wf_result (heap initialWorld) (txResult succeeded failed (Some 1%positive)).
Proof.
  intros name c Hc. cbn in Hc. apply lookup_singleton_Some in Hc as [_ <-].
  by eexists.
Qed.

(** C3 fails on [Errorf].  Called directly, an [InteractiveOutput] prints
    the operand [y] under [%s]; called through a [CombinedOutput], the same
    delegate receives the slice [[y]] as its only operand and prints that.
    Without operands the delegate still receives one, the empty slice,
    which [fmt] reports as an extra operand.  The other five methods
    forward the call they received ([Combined_forwards_same_call]). *)
Theorem Combined_Errorf_wraps_arguments :
  let direct := Interactive newInteractive in
  let combined := Combined [Interactive newInteractive] in
  ∃ w1 w2 w3 w4,
    invoke direct (Errorf "x %s" [StringVal "y"]) quietEnv initialWorld
      = Done direct w1 ∧
    written w1 = [(Stderr, "ERROR: x y" +:+ nl)] ∧
    invoke combined (Errorf "x %s" [StringVal "y"]) quietEnv initialWorld
      = Done combined w2 ∧
    written w2 = [(Stderr, "ERROR: x [y]" +:+ nl)] ∧
    invoke direct (Errorf "boom" []) quietEnv initialWorld = Done direct w3 ∧
    written w3 = [(Stderr, "ERROR: boom" +:+ nl)] ∧
    invoke combined (Errorf "boom" []) quietEnv initialWorld = Done combined w4 ∧
    written w4 = [(Stderr, "ERROR: boom%!(EXTRA []interface {}=[])" +:+ nl)].
Proof. eexists _, _, _, _. split_and!; reflexivity. Qed.

(** A run of the tabular renderer: the header, then one row for the
    script of the checkpoint. *)
Example csv_session :
  let r :=
    {| DatabaseName := "neo4j"; Scenario := "-w tx";
       FailedByErrorGroup := ∅;
       Scripts := {[ "tx" := {| ScriptName := "tx"; Rate := 12.5; Succeeded := 2;
                                Failed := 0; Latencies := Some 1%positive |} ]} |} in
  (written ∘ world_of)
    (session (Csv newCsv)
       [BenchmarkStart "neo4j" "bolt://localhost:7687" "-w tx"; ReportLatency r]
       quietEnv initialWorld) =
  [ (Stderr, "Starting workload on database neo4j against bolt://localhost:7687"
               +:+ nl +:+ "Scenario: -w tx" +:+ nl);
    (Stdout, "db,script,rate,succeeded,failed,mean,stdev,p0,p25,p50,p75,p99,p99999,p100"
               +:+ nl);
    (Stdout, dquote +:+ "neo4j" +:+ dquote +:+ "," +:+ dquote +:+ "tx" +:+ dquote +:+
             ",12.500,2.000,0.000,2.500,1500.000,1.000,1.000,1.000,4.000,4.000,4.000,4.000"
               +:+ nl) ].
Proof. reflexivity. Qed.

Lemma InitOutput_unknown_name_witness :
  ("xml" ≠ "auto" ∧ "xml" ≠ "interactive" ∧ "xml" ≠ "csv") ∧
  InitOutput "xml" "" quietEnv initialWorld =
    Done (None,
          Some "unknown output format: xml, supported formats are 'auto', 'interactive' and 'csv'")
         initialWorld.
Proof.
  split; [done|].
  by apply (proj1 (InitOutput_unknown_name "xml" "" quietEnv initialWorld)).
Defined.

Lemma csv_succeeded_is_histogram_count_witness :
  let s := {| ScriptName := "tx"; Rate := 12.5; Succeeded := 5; Failed := 0;
              Latencies := Some 1%positive |} in
  let r := NewResult "neo4j" "-w tx" in
  deref (heap initialWorld) (Latencies s) = Some [1000; 4000] ∧
  (fst <$> csvColumns) !! 3%nat = Some "succeeded" ∧
  (∃ cells, latencyRow (heap initialWorld) r s = Some (Join cells "," +:+ nl) ∧
            length cells = 14%nat ∧
            cells !! 3%nat = Some "2.000") ∧
  Reference.format_fixed 3 (float64_of_int64 (Succeeded s)) = "5.000".
Proof.
  intros s r.
  assert (deref (heap initialWorld) (Latencies s) = Some [1000; 4000]) as Hhisto
    by reflexivity.
  destruct (csv_succeeded_is_histogram_count (heap initialWorld) r s _ Hhisto)
    as (Hname & Hcells & _).
  split_and!; [done|done|exact Hcells|reflexivity].
Defined.

Lemma csv_stdev_is_not_scaled_witness :
  let s := {| ScriptName := "tx"; Rate := 12.5; Succeeded := 2; Failed := 0;
              Latencies := Some 1%positive |} in
  let r := txResult 2 0 (Some 1%positive) in
  (deref (heap initialWorld) (Latencies s) = Some [1000; 4000] ∧
   Scripts r !! "tx" = Some s ∧ 0 < TotalSucceeded r ∧
   wf_result (heap initialWorld) r ∧
   ranges (Scripts r) (range_scripts quietEnv (S (steps initialWorld)) (Scripts r)) ∧
   (∀ n, write_fails quietEnv n = false)) ∧
  latencyRow (heap initialWorld) r s =
    Some (dquote +:+ "neo4j" +:+ dquote +:+ "," +:+ dquote +:+ "tx" +:+ dquote +:+
          ",12.500,2.000,0.000,2.500,1500.000,1.000,1.000,1.000,4.000,4.000,4.000,4.000"
          +:+ nl) ∧
  latencyLines [1000; 4000] s !! 1%nat =
    Some ("Max: 4.000ms, Min: 1.000ms, Mean: 2.500ms, Stddev: 1.500" +:+ nl +:+ nl) ∧
  summarizeLatency [1000; 4000] s "  " =
    "  2 successful transactions, 0 failed. (Total of 12.500 per second)" +:+ nl +:+
    "  Max: 4.000ms, Min: 1.000ms, Mean: 2.500ms, Stddev: 1.500" +:+ nl +:+
    nl +:+
    "  Latency distribution:" +:+ nl +:+
    "    P00.000: 1.000ms" +:+ nl +:+
    "    P25.000: 1.000ms" +:+ nl +:+
    "    P50.000: 1.000ms" +:+ nl +:+
    "    P75.000: 4.000ms" +:+ nl +:+
    "    P95.000: 4.000ms" +:+ nl +:+
    "    P99.000: 4.000ms" +:+ nl +:+
    "    P99.999: 4.000ms" +:+ nl ∧
  ∃ w', InteractiveOutput.ReportLatency newInteractive r quietEnv initialWorld
          = Done newInteractive w' ∧
    written w' =
      [(Stdout,
        "== Results ==" +:+ nl +:+
        "Scenario: -w tx" +:+ nl +:+
        "2 successful transactions, 0 failed. (Total of 12.500 per second)" +:+ nl +:+
        nl +:+
        "-- Script: tx --" +:+ nl +:+
        nl +:+
        "  2 successful transactions, 0 failed. (Total of 12.500 per second)" +:+ nl +:+
        "  Max: 4.000ms, Min: 1.000ms, Mean: 2.500ms, Stddev: 1.500" +:+ nl +:+
        nl +:+
        "  Latency distribution:" +:+ nl +:+
        "    P00.000: 1.000ms" +:+ nl +:+
        "    P25.000: 1.000ms" +:+ nl +:+
        "    P50.000: 1.000ms" +:+ nl +:+
        "    P75.000: 4.000ms" +:+ nl +:+
        "    P95.000: 4.000ms" +:+ nl +:+
        "    P99.000: 4.000ms" +:+ nl +:+
        "    P99.999: 4.000ms" +:+ nl +:+
        nl +:+
        "Error stats:" +:+ nl +:+
        "  No errors!" +:+ nl)].
Proof.
  intros s r.
  assert (deref (heap initialWorld) (Latencies s) = Some [1000; 4000]) as Hhisto
    by reflexivity.
  assert (Scripts r !! "tx" = Some s) as Hname by reflexivity.
  assert (0 < TotalSucceeded r) as Hsome by (by vm_compute).
  assert (wf_result (heap initialWorld) r) as Hwf by apply txResult_wf.
  assert (ranges (Scripts r) (range_scripts quietEnv (S (steps initialWorld)) (Scripts r)))
    as Hvisit by (by unfold ranges).
  assert (∀ n, write_fails quietEnv n = false) as Hwrites by done.
  destruct (csv_stdev_is_not_scaled (heap initialWorld) r s _ Hhisto)
    as (_ & Hrow & Hline & Hsummary & Hconsole).
  destruct (Hconsole newInteractive quietEnv initialWorld "tx"
              eq_refl Hname Hsome Hwf Hvisit Hwrites)
    as (sections & w' & i & Hrun & _).
  split_and!; [done..|exact Hrow|exact Hline|by rewrite Hsummary|].
  exists w'. split; [exact Hrun|].
  vm_compute in Hrun. injection Hrun as <-. reflexivity.
Defined.

Lemma writeErrorReport_summary_witness :
  let r :=
    {| DatabaseName := "neo4j"; Scenario := "-w tx";
       FailedByErrorGroup :=
         {[ "timeout" := {| Count := 2; FirstFailure := "deadline exceeded" |};
            "deadlock" := {| Count := 1; FirstFailure := "cycle detected" |} ]};
       Scripts := {[ "tx" := {| ScriptName := "tx"; Rate := 12.5; Succeeded := 100;
                                Failed := 3; Latencies := Some 1%positive |} ]} |} in
  (env_ranges quietEnv ∧ TotalFailed r ≠ 0) ∧
  ∃ w', writeErrorReportM r quietEnv initialWorld =
          Done ("Error stats:" +:+ nl +:+
                "  Failed transactions: 3 (2.913 %)" +:+ nl +:+
                nl +:+
                "  Causes:" +:+ nl +:+
                "    timeout: 2 failures" +:+ nl +:+
                "      (ex: deadline exceeded)" +:+ nl +:+
                "    deadlock: 1 failures" +:+ nl +:+
                "      (ex: cycle detected)" +:+ nl) w' ∧
        written w' = written initialWorld.
Proof.
  intros r.
  assert (TotalFailed r ≠ 0) as Hfailed by (by vm_compute).
  split; [split; [apply quietEnv_ranges|done]|].
  destruct (writeErrorReport_summary r quietEnv initialWorld quietEnv_ranges)
    as (report & w' & Hrun & Hwritten & _ & _ & _ & Hreport).
  destruct (Hreport Hfailed) as (Htext & _).
  exists w'. split; [|exact Hwritten].
  rewrite Hrun, Htext. reflexivity.
Defined.

Lemma CsvOutput_BenchmarkStart_header_witness :
  (write_fails quietEnv (steps initialWorld) = false ∧
   write_fails quietEnv (S (steps initialWorld)) = false) ∧
  ∃ w', CsvOutput.BenchmarkStart newCsv "" "bolt://localhost:7687" "-w tx"
          quietEnv initialWorld = Done newCsv w' ∧
    written w' =
      written initialWorld ++
      [ (Stderr, "Starting workload on database <default> against bolt://localhost:7687"
                   +:+ nl +:+ "Scenario: -w tx" +:+ nl);
        (Stdout,
         "db,script,rate,succeeded,failed,mean,stdev,p0,p25,p50,p75,p99,p99999,p100"
           +:+ nl) ] ∧
    heap w' = heap initialWorld.
Proof.
  split; [done|].
  exact (proj1 (CsvOutput_BenchmarkStart_header newCsv "" "bolt://localhost:7687"
                  "-w tx" quietEnv initialWorld eq_refl eq_refl)).
Defined.

(** C9, as stated, fails: the seventh name of the header line is [stdev],
    so the line written is not the one that spells it [stddev]. *)
Lemma CsvOutput_header_spells_stdev :
  ∃ w' startLines header,
    CsvOutput.BenchmarkStart newCsv "neo4j" "bolt://localhost:7687" "-w tx"
      quietEnv initialWorld = Done newCsv w' ∧
    written w' = [(Stderr, startLines); (Stdout, header)] ∧
    header ≠
      "db,script,rate,succeeded,failed,mean,stddev,p0,p25,p50,p75,p99,p99999,p100"
        +:+ nl.
Proof.
  eexists _, _, _. split_and!.
  - unfold CsvOutput.BenchmarkStart. run. reflexivity.
  - reflexivity.
  - cbn. discriminate.
Qed.

Lemma ReportInitProgress_rate_limit_witness :
  let first := {| Section := "load"; Step := "nodes"; Completeness := 0.25 |} in
  let second := {| Section := "load"; Step := "nodes"; Completeness := 0.5 |} in
  (InteractiveOutput.LastProgressReport newInteractive = zeroProgressReport ∧
   write_fails quietEnv (S (steps initialWorld)) = false ∧
   clock quietEnv (S (S (steps initialWorld))) - clock quietEnv (steps initialWorld)
     = time.Second ∧
   (time.Seconds (time.Sub (clock quietEnv (S (S (steps initialWorld))))
                           (clock quietEnv (steps initialWorld))) <? 10)%float = true) ∧
  ∃ o1 w1 w2,
    InteractiveOutput.ReportInitProgress newInteractive first quietEnv initialWorld
      = Done o1 w1 ∧
    InteractiveOutput.ReportInitProgress o1 second quietEnv w1 = Done o1 w2 ∧
    written w2 = [(Stderr, "[load][nodes] 25.00%" +:+ nl)].
Proof.
  intros first second. split; [by split_and!|].
  exact (proj2 (proj2 (ReportInitProgress_rate_limit newInteractive quietEnv initialWorld))
           0.25%float 0.5%float eq_refl eq_refl eq_refl).
Defined.

(** ** Concrete runs of the further properties *)

Lemma Add_adds_totals_witness :
  let h0 : gmap loc (list Z) := {[ 1%positive := [900; 1100]; 2%positive := [500] ]} in
  let r0 :=
    {| DatabaseName := "neo4j"; Scenario := "-w tx";
       FailedByErrorGroup := ∅;
       Scripts := {[ "tx" := {| ScriptName := "tx"; Rate := 10; Succeeded := 100;
                                Failed := 0; Latencies := Some 1%positive |} ]} |} in
  let res :=
    {| WorkerResult.Scripts :=
         [ {| ScriptName := "tx"; Rate := 5; Succeeded := 50; Failed := 1;
              Latencies := Some 2%positive |};
           {| ScriptName := "rx"; Rate := 2; Succeeded := 7; Failed := 0;
              Latencies := Some 2%positive |} ];
       WorkerResult.FailedByErrorGroup := [] |} in
  ∃ h' r', Add res (h0, r0) = Some (h', r') ∧
           TotalSucceeded r' = 157 ∧ TotalFailed r' = 1.
Proof.
  intros h0 r0 res.
  destruct (Add res (h0, r0)) as [[h' r']|] eqn:Hadd; [|by vm_compute in Hadd].
  exists h', r'. split; [done|].
  destruct (proj1 (Add_adds_totals h0 r0) res h' r' Hadd) as [-> ->].
  split; reflexivity.
Defined.

Lemma Add_panics_on_nil_histogram_witness :
  let h0 : gmap loc (list Z) := {[ 1%positive := [900; 1100] ]} in
  let r0 := NewResult "neo4j" "-w mix" in
  let rx := {| ScriptName := "rx"; Rate := 2; Succeeded := 7; Failed := 0;
               Latencies := None |} in
  let res :=
    {| WorkerResult.Scripts :=
         [ {| ScriptName := "tx"; Rate := 5; Succeeded := 50; Failed := 1;
              Latencies := Some 1%positive |}; rx ];
       WorkerResult.FailedByErrorGroup := [] |} in
  (wf_result h0 r0 ∧
   Forall (λ w, Latencies w = None ∨ valid h0 (Latencies w)) (WorkerResult.Scripts res) ∧
   rx ∈ WorkerResult.Scripts res ∧ Latencies rx = None) ∧
  Add res (h0, r0) = None.
Proof.
  intros h0 r0 rx res.
  assert (wf_result h0 r0) as Hwf by (by intros n c Hn).
  assert (Forall (λ w, Latencies w = None ∨ valid h0 (Latencies w))
                 (WorkerResult.Scripts res)) as Hres.
  { constructor; [right; by eexists|]. constructor; [by left|]. constructor. }
  assert (rx ∈ WorkerResult.Scripts res) as Hrx
    by (apply elem_of_cons; right; apply elem_of_cons; by left).
  split; [done|].
  apply (Add_panics_on_nil_histogram res h0 r0 Hwf Hres). by exists rx.
Defined.

Lemma Add_only_adds_witness :
  let h0 : gmap loc (list Z) := {[ 1%positive := [900; 1100]; 2%positive := [500] ]} in
  let r0 :=
    {| DatabaseName := "neo4j"; Scenario := "-w tx";
       FailedByErrorGroup :=
         {[ "timeout" := {| Count := 2; FirstFailure := "first" |} ]};
       Scripts := {[ "tx" := {| ScriptName := "tx"; Rate := 10; Succeeded := 100;
                                Failed := 2; Latencies := Some 1%positive |} ]} |} in
  let res :=
    {| WorkerResult.Scripts :=
         [ {| ScriptName := "rx"; Rate := 2; Succeeded := 7; Failed := 1;
              Latencies := Some 2%positive |} ];
       WorkerResult.FailedByErrorGroup :=
         [("deadlock", {| Count := 1; FirstFailure := "cycle" |})] |} in
  ∃ h' r', Add res (h0, r0) = Some (h', r') ∧
    DatabaseName r' = "neo4j" ∧ Scenario r' = "-w tx" ∧
    dom (Scripts r') = dom (Scripts r0) ∪ list_to_set ["rx"] ∧
    dom (FailedByErrorGroup r') = dom (FailedByErrorGroup r0) ∪ list_to_set ["deadlock"] ∧
    (∀ name c, Scripts r0 !! name = Some c →
       ∃ c', Scripts r' !! name = Some c' ∧
             ScriptName c' = ScriptName c ∧ Latencies c' = Latencies c) ∧
    dom h0 ⊆ dom h'.
Proof.
  intros h0 r0 res.
  destruct (Add res (h0, r0)) as [[h' r']|] eqn:Hadd; [|by vm_compute in Hadd].
  exists h', r'. split; [done|].
  exact (Add_only_adds res h0 r0 h' r' Hadd).
Defined.

Lemma AddAll_keyed_by_name_witness :
  let h0 : gmap loc (list Z) := {[ 1%positive := [900; 1100] ]} in
  let script name :=
    {| WorkerResult.Scripts :=
         [ {| ScriptName := name; Rate := 1; Succeeded := 1; Failed := 0;
              Latencies := Some 1%positive |} ];
       WorkerResult.FailedByErrorGroup := [] |} in
  ∃ h' r', AddAll [script "a"; script "b"; script "a"] (h0, NewResult "neo4j" "-w mix")
             = Some (h', r') ∧
           size (Scripts r') = 2%nat ∧ keyed_by_name r'.
Proof.
  intros h0 script.
  destruct (AddAll [script "a"; script "b"; script "a"] (h0, NewResult "neo4j" "-w mix"))
    as [[h' r']|] eqn:Hall; [|by vm_compute in Hall].
  exists h', r'. split; [done|]. split.
  - vm_compute in Hall. injection Hall as _ <-. reflexivity.
  - exact (AddAll_keyed_by_name _ h0 "neo4j" "-w mix" h' r' Hall).
Defined.

Lemma Prometheus_only_counts_witness :
  let calls :=
    [ BenchmarkStart "neo4j" "bolt://localhost:7687" "-w tx";
      ReportLatency (txResult 100 3 (Some 1%positive));
      Errorf "boom" [] ] in
  Forall (λ c, ∀ completeness checkpoint,
                 c ≠ ReportWorkloadProgress completeness checkpoint) calls ∧
  session (Prometheus NewPrometheusOutput) calls quietEnv initialWorld =
    Done (Prometheus NewPrometheusOutput) initialWorld.
Proof.
  intros calls.
  assert (Forall (λ c, ∀ completeness checkpoint,
                         c ≠ ReportWorkloadProgress completeness checkpoint) calls)
    as Hcalls by (by repeat constructor).
  split; [done|].
  exact (proj2 (Prometheus_only_counts NewPrometheusOutput calls quietEnv initialWorld)
               Hcalls).
Defined.

Lemma session_returns_witness :
  let r := txResult 100 3 (Some 1%positive) in
  let calls :=
    [ BenchmarkStart "neo4j" "bolt://localhost:7687" "-w tx";
      ReportWorkloadProgress 0.5 r;
      ReportLatency r ] in
  let o := Combined [Csv newCsv; Prometheus NewPrometheusOutput] in
  ((∀ n, write_fails quietEnv n = false) ∧ env_ranges quietEnv ∧
   Forall (call_is_safe (heap initialWorld)) calls) ∧
  ∃ o' w', session o calls quietEnv initialWorld = Done o' w' ∧
           heap w' = heap initialWorld.
Proof.
  intros r calls o.
  assert (∀ n, write_fails quietEnv n = false) as Hwrites by done.
  assert (Forall (call_is_safe (heap initialWorld)) calls) as Hcalls.
  { repeat constructor; try apply txResult_wf; by vm_compute. }
  split; [by split_and!; [|apply quietEnv_ranges|]|].
  exact (session_returns o calls quietEnv initialWorld Hwrites quietEnv_ranges Hcalls).
Defined.

Lemma Combined_stops_at_first_panic_witness :
  let env := failingEnv 1 in
  let started :=
    {| heap := heap initialWorld; steps := 1;
       written := [(Stderr, startLines "neo4j" "bolt://localhost:7687" "-w tx")];
       metrics_served := [] |} in
  let c := BenchmarkStart "neo4j" "bolt://localhost:7687" "-w tx" in
  (invoke (Combined [Interactive newInteractive]) c env initialWorld =
     Done (Combined [Interactive newInteractive]) started ∧
   invoke (Csv newCsv) (forwarded c) env started = Panic (tick started)) ∧
  invoke (Combined ([Interactive newInteractive] ++ Csv newCsv :: [Interactive newInteractive]))
         c env initialWorld = Panic (tick started) ∧
  written (tick started) = [(Stderr, startLines "neo4j" "bolt://localhost:7687" "-w tx")].
Proof.
  intros env started c.
  assert (invoke (Combined [Interactive newInteractive]) c env initialWorld =
            Done (Combined [Interactive newInteractive]) started) as Hbefore
    by reflexivity.
  assert (invoke (Csv newCsv) (forwarded c) env started = Panic (tick started)) as Hd
    by reflexivity.
  split; [done|]. split; [|done].
  exact (Combined_stops_at_first_panic [Interactive newInteractive]
           [Interactive newInteractive] (Csv newCsv) c env initialWorld _ _ _ Hbefore Hd).
Defined.

Lemma CsvOutput_ReportLatency_rows_witness :
  let r := txResult 2 0 (Some 1%positive) in
  (wf_result (heap initialWorld) r ∧
   ranges (Scripts r) (range_scripts quietEnv (steps initialWorld) (Scripts r)) ∧
   (∀ n, write_fails quietEnv n = false)) ∧
  ∃ w', CsvOutput.ReportLatency newCsv r quietEnv initialWorld = Done newCsv w' ∧
    written w' =
      [(Stdout, dquote +:+ "neo4j" +:+ dquote +:+ "," +:+ dquote +:+ "tx" +:+ dquote +:+
                ",12.500,2.000,0.000,2.500,1500.000,1.000,1.000,1.000,4.000,4.000,4.000,4.000"
                  +:+ nl)].
Proof.
  intros r.
  assert (wf_result (heap initialWorld) r) as Hwf by apply txResult_wf.
  assert (ranges (Scripts r) (range_scripts quietEnv (steps initialWorld) (Scripts r)))
    as Hvisit by (by unfold ranges).
  assert (∀ n, write_fails quietEnv n = false) as Hwrites by done.
  split; [done|].
  destruct (CsvOutput_ReportLatency_rows newCsv r quietEnv initialWorld Hwf Hvisit Hwrites)
    as (rows & w' & Hrun & _ & _ & _).
  exists w'. split; [exact Hrun|].
  vm_compute in Hrun. injection Hrun as <-. reflexivity.
Defined.

Lemma CsvOutput_ReportLatency_nil_histogram_witness :
  let r := txResult 2 0 None in
  let s := {| ScriptName := "tx"; Rate := 12.5; Succeeded := 2; Failed := 0;
              Latencies := None |} in
  (ranges (Scripts r) (range_scripts quietEnv (steps initialWorld) (Scripts r)) ∧
   Scripts r !! "tx" = Some s ∧ deref (heap initialWorld) (Latencies s) = None) ∧
  CsvOutput.ReportLatency newCsv r quietEnv initialWorld = Panic (tick initialWorld) ∧
  written (tick initialWorld) = written initialWorld.
Proof.
  intros r s.
  assert (ranges (Scripts r) (range_scripts quietEnv (steps initialWorld) (Scripts r)))
    as Hvisit by (by unfold ranges).
  assert (Scripts r !! "tx" = Some s) as Hname by reflexivity.
  assert (deref (heap initialWorld) (Latencies s) = None) as Hnil by reflexivity.
  split; [done|].
  exact (CsvOutput_ReportLatency_nil_histogram newCsv r "tx" s quietEnv initialWorld
           Hvisit Hname Hnil).
Defined.

Lemma InteractiveOutput_ReportLatency_without_successes_witness :
  let r := txResult 0 3 None in
  let r' := txResult 5 0 None in
  let s' := {| ScriptName := "tx"; Rate := 12.5; Succeeded := 5; Failed := 0;
               Latencies := None |} in
  (TotalSucceeded r ≤ 0 ∧ (∀ n, write_fails quietEnv n = false) ∧
   0 < TotalSucceeded r' ∧
   ranges (Scripts r') (range_scripts quietEnv (S (steps initialWorld)) (Scripts r')) ∧
   Scripts r' !! "tx" = Some s' ∧ deref (heap initialWorld) (Latencies s') = None) ∧
  (∃ w', InteractiveOutput.ReportLatency newInteractive r quietEnv initialWorld
           = Done newInteractive w' ∧
     written w' =
       [(Stdout,
         "== Results ==" +:+ nl +:+
         "Scenario: -w tx" +:+ nl +:+
         "0 successful transactions, 3 failed. (Total of 12.500 per second)" +:+ nl +:+
         nl +:+
         "Error stats:" +:+ nl +:+
         "  Failed transactions: 3 (100.000 %)" +:+ nl +:+
         nl +:+
         "  Causes:" +:+ nl +:+
         "    timeout: 3 failures" +:+ nl +:+
         "      (ex: deadline exceeded)" +:+ nl)]) ∧
  (∃ w', InteractiveOutput.ReportLatency newInteractive r' quietEnv initialWorld
           = Panic w' ∧
         written w' = written initialWorld).
Proof.
  intros r r' s'.
  assert (TotalSucceeded r ≤ 0) as Hnone by (by vm_compute).
  assert (∀ n, write_fails quietEnv n = false) as Hwrites by done.
  assert (0 < TotalSucceeded r') as Hsome by (by vm_compute).
  assert (ranges (Scripts r') (range_scripts quietEnv (S (steps initialWorld)) (Scripts r')))
    as Hvisit by (by unfold ranges).
  assert (Scripts r' !! "tx" = Some s') as Hname by reflexivity.
  assert (deref (heap initialWorld) (Latencies s') = None) as Hnil by reflexivity.
  split; [done|]. split.
  - destruct (proj1 (InteractiveOutput_ReportLatency_without_successes
                       newInteractive r quietEnv initialWorld) Hnone Hwrites)
      as (w' & Hrun & Hwritten).
    exists w'. split; [exact Hrun|]. rewrite Hwritten. reflexivity.
  - exact (proj2 (InteractiveOutput_ReportLatency_without_successes
                    newInteractive r' quietEnv initialWorld) Hsome Hvisit "tx" s' Hname Hnil).
Defined.

Lemma CsvOutput_ReportThroughput_table_witness :
  let r := txResult 100 3 None in
  (∀ n, write_fails quietEnv n = false) ∧
  ∃ w', CsvOutput.ReportThroughput newCsv r quietEnv initialWorld = Done newCsv w' ∧
    written w' =
      [ (Stdout,
         "script,succeeded,failed,transactions_per_second" +:+ nl +:+
         dquote +:+ "tx" +:+ dquote +:+ ",100.000,3.000,12.500" +:+ nl);
        (Stderr,
         "Error stats:" +:+ nl +:+
         "  Failed transactions: 3 (2.913 %)" +:+ nl +:+
         nl +:+
         "  Causes:" +:+ nl +:+
         "    timeout: 3 failures" +:+ nl +:+
         "      (ex: deadline exceeded)" +:+ nl) ] ∧
    heap w' = heap initialWorld.
Proof.
  intros r.
  assert (∀ n, write_fails quietEnv n = false) as Hwrites by done.
  split; [done|].
  destruct (CsvOutput_ReportThroughput_table newCsv r quietEnv initialWorld Hwrites)
    as (w' & Hrun & Hwritten & Hheap).
  exists w'. split_and!; [exact Hrun| |exact Hheap].
  rewrite Hwritten. reflexivity.
Defined.

Lemma InteractiveOutput_ReportThroughput_formats_twice_witness :
  let r := txResult 100 3 None in
  ((∀ n, write_fails quietEnv n = false) ∧ TotalFailed r ≠ 0) ∧
  ∃ w', InteractiveOutput.ReportThroughput newInteractive r quietEnv initialWorld
          = Done newInteractive w' ∧
    written w' =
      [(Stdout,
        "== Results ==" +:+ nl +:+
        "Scenario: -w tx" +:+ nl +:+
        "100 successful transactions, 3 failed. (Total of 12.500 per second)" +:+ nl +:+
        nl +:+
        "  [tx]: 12.500 total transactions per second" +:+ nl +:+
        nl +:+
        "Error stats:" +:+ nl +:+
        "  Failed transactions: 3 (2.913 %!)(MISSING)" +:+ nl +:+
        nl +:+
        "  Causes:" +:+ nl +:+
        "    timeout: 3 failures" +:+ nl +:+
        "      (ex: deadline exceeded)" +:+ nl)].
Proof.
  intros r.
  assert (∀ n, write_fails quietEnv n = false) as Hwrites by done.
  assert (TotalFailed r ≠ 0) as Hfailed by (by vm_compute).
  split; [done|].
  destruct (proj1 (InteractiveOutput_ReportThroughput_formats_twice
                     newInteractive r quietEnv initialWorld Hwrites))
    as (w' & Hrun & Hwritten).
  exists w'. split; [exact Hrun|]. rewrite Hwritten. reflexivity.
Defined.

Lemma InitOutput_with_prometheus_witness :
  (":9090" ≠ "" ∧
   InitOutput "csv" "" quietEnv initialWorld = Done (Some (Csv newCsv), None) initialWorld) ∧
  InitOutput "csv" ":9090" quietEnv initialWorld =
    Done (Some (Combined [Csv newCsv; Prometheus NewPrometheusOutput]), None)
         {| heap := heap initialWorld; steps := 0; written := [];
            metrics_served := [":9090"] |}.
Proof.
  assert (":9090" ≠ "") as Haddress by done.
  assert (InitOutput "csv" "" quietEnv initialWorld =
            Done (Some (Csv newCsv), None) initialWorld) as Hplain by reflexivity.
  split; [done|].
  exact (proj1 (InitOutput_with_prometheus "csv" ":9090" (Csv newCsv) quietEnv initialWorld)
               Haddress Hplain).
Defined.

Lemma ReportInitProgress_first_report_witness :
  (InteractiveOutput.LastProgressTime newInteractive = 0 ∧
   time.maxDuration ≤ clock quietEnv (steps initialWorld) ∧
   write_fails quietEnv (S (steps initialWorld)) = false) ∧
  ∃ o' w',
    InteractiveOutput.ReportInitProgress newInteractive zeroProgressReport
      quietEnv initialWorld = Done o' w' ∧
    written w' = [(Stderr, "[][] 0.00%" +:+ nl)].
Proof.
  assert (time.maxDuration ≤ clock quietEnv (steps initialWorld)) as Hnow
    by (by vm_compute).
  split; [done|].
  destruct (ReportInitProgress_first_report newInteractive zeroProgressReport
              quietEnv initialWorld eq_refl Hnow eq_refl)
    as (o' & w' & Hrun & Hwritten & _).
  exists o', w'. split; [exact Hrun|]. rewrite Hwritten. reflexivity.
Defined.

Lemma PrometheusOutput_adds_checkpoint_totals_witness :
  let r := txResult 100 3 None in
  (0 ≤ TotalSucceeded r ∧ 0 ≤ TotalFailed r) ∧
  PrometheusOutput.ReportWorkloadProgress NewPrometheusOutput 0.5 r quietEnv initialWorld =
    Done {| PrometheusOutput.totalSucceededCounter := 100;
            PrometheusOutput.totalFailedCounter := 3 |} initialWorld.
Proof.
  intros r.
  assert (0 ≤ TotalSucceeded r) as Hsucceeded by (by vm_compute).
  assert (0 ≤ TotalFailed r) as Hfailed by (by vm_compute).
  split; [done|].
  rewrite (PrometheusOutput_adds_checkpoint_totals NewPrometheusOutput 0.5 r
             quietEnv initialWorld Hsucceeded Hfailed).
  reflexivity.
Defined.

Lemma InteractiveOutput_ReportLatency_sections_witness :
  let r := txResult 2 0 (Some 1%positive) in
  (0 < TotalSucceeded r ∧ wf_result (heap initialWorld) r ∧
   ranges (Scripts r) (range_scripts quietEnv (S (steps initialWorld)) (Scripts r)) ∧
   (∀ n, write_fails quietEnv n = false)) ∧
  ∃ w', InteractiveOutput.ReportLatency newInteractive r quietEnv initialWorld
          = Done newInteractive w' ∧
    written w' =
      [(Stdout,
        "== Results ==" +:+ nl +:+
        "Scenario: -w tx" +:+ nl +:+
        "2 successful transactions, 0 failed. (Total of 12.500 per second)" +:+ nl +:+
        nl +:+
        "-- Script: tx --" +:+ nl +:+
        nl +:+
        "  2 successful transactions, 0 failed. (Total of 12.500 per second)" +:+ nl +:+
        "  Max: 4.000ms, Min: 1.000ms, Mean: 2.500ms, Stddev: 1.500" +:+ nl +:+
        nl +:+
        "  Latency distribution:" +:+ nl +:+
        "    P00.000: 1.000ms" +:+ nl +:+
        "    P25.000: 1.000ms" +:+ nl +:+
        "    P50.000: 1.000ms" +:+ nl +:+
        "    P75.000: 4.000ms" +:+ nl +:+
        "    P95.000: 4.000ms" +:+ nl +:+
        "    P99.000: 4.000ms" +:+ nl +:+
        "    P99.999: 4.000ms" +:+ nl +:+
        nl +:+
        "Error stats:" +:+ nl +:+
        "  No errors!" +:+ nl)].
Proof.
  intros r.
  assert (0 < TotalSucceeded r) as Hsome by (by vm_compute).
  assert (wf_result (heap initialWorld) r) as Hwf by apply txResult_wf.
  assert (ranges (Scripts r) (range_scripts quietEnv (S (steps initialWorld)) (Scripts r)))
    as Hvisit by (by unfold ranges).
  assert (∀ n, write_fails quietEnv n = false) as Hwrites by done.
  split; [done|].
  destruct (InteractiveOutput_ReportLatency_sections newInteractive r quietEnv initialWorld
              Hsome Hwf Hvisit Hwrites) as (sections & w' & Hrun & _ & _).
  exists w'. split; [exact Hrun|].
  vm_compute in Hrun. injection Hrun as <-. reflexivity.
Defined.

Lemma CsvOutput_progress_writes_rows_witness :
  let r := txResult 2 1 (Some 1%positive) in
  (wf_result (heap initialWorld) r ∧
   ranges (Scripts r) (range_scripts quietEnv (S (steps initialWorld)) (Scripts r)) ∧
   ranges (Scripts r) (range_scripts (failingEnv 0) (S (steps initialWorld)) (Scripts r)) ∧
   (∀ n, write_fails quietEnv n = false) ∧
   write_fails (failingEnv 0) (steps initialWorld) = true) ∧
  (∃ w', CsvOutput.ReportWorkloadProgress newCsv 0.5 r quietEnv initialWorld
           = Done newCsv w' ∧
     written w' =
       [(Stderr, "[workload] 50.00% done" +:+ nl);
        (Stdout, dquote +:+ "neo4j" +:+ dquote +:+ "," +:+ dquote +:+ "tx" +:+ dquote +:+
                 ",12.500,2.000,1.000,2.500,1500.000,1.000,1.000,1.000,4.000,4.000,4.000,4.000"
                   +:+ nl);
        (Stderr, "Error stats:" +:+ nl +:+
                 "  Failed transactions: 1 (33.333 %)" +:+ nl +:+
                 nl +:+
                 "  Causes:" +:+ nl +:+
                 "    timeout: 1 failures" +:+ nl +:+
                 "      (ex: deadline exceeded)" +:+ nl)]) ∧
  ∃ w', CsvOutput.ReportWorkloadProgress newCsv 0.5 r (failingEnv 0) initialWorld
          = Panic w' ∧
    written w' = [].
Proof.
  intros r.
  assert (wf_result (heap initialWorld) r) as Hwf by apply txResult_wf.
  assert (ranges (Scripts r) (range_scripts quietEnv (S (steps initialWorld)) (Scripts r)))
    as Hvisit by (by unfold ranges).
  assert (ranges (Scripts r)
                 (range_scripts (failingEnv 0) (S (steps initialWorld)) (Scripts r)))
    as Hvisit' by (by unfold ranges).
  assert (∀ n, write_fails quietEnv n = false) as Hwrites by done.
  assert (write_fails (failingEnv 0) (steps initialWorld) = true) as Hfails
    by reflexivity.
  split; [done|]. split.
  - destruct (proj2 (CsvOutput_progress_writes_rows newCsv 0.5 r quietEnv initialWorld
                       Hwf Hvisit) Hwrites)
      as (rows & w' & Hrun & _ & _ & _).
    exists w'. split; [exact Hrun|].
    vm_compute in Hrun. injection Hrun as <-. reflexivity.
  - destruct (proj1 (CsvOutput_progress_writes_rows newCsv 0.5 r (failingEnv 0) initialWorld
                       Hwf Hvisit') Hfails)
      as (Hrun & Hwritten).
    exists (tick initialWorld). split; [exact Hrun|exact Hwritten].
Defined.
